(** * Plagiarism detector: similarity and matching engine

    A shallow embedding of [PlagiarismDetector] (src/util/deepSeekApi.ts)
    and of the part of [handleFileUpload] (src/App.tsx) that attaches its
    results to a submission, with the properties of the specification
    stated and proved over them.

    Texts are sequences of code units.  The embedding covers the code units
    below 256 (ASCII and Latin-1), where [toLowerCase], the class [\s] and
    [trim] are written out exactly as ECMAScript defines them.  Numbers
    that hold a ratio are binary64 values, computed with the operations of
    [SpecFloat]; numbers that hold a count or a rounded percentage are
    integers.

    The second part embeds what brings a text to the detector and what
    keeps its results: [PDFExtractor] and the rest of [App] (both in
    src/App.tsx).  The texts of the extractor are sequences of UTF-16
    code units of any value; what pdf.js answers for a file is given with
    the file.  A cleaned text holds code units below 256 only, so it is
    handed to the detector as it stands. *)

From Stdlib Require Import ZArith List Ascii String Bool Lia Permutation Sorted SpecFloat.
From stdpp Require Import base list gmap strings.
Import ListNotations.


(** ** ECMAScript strings and arrays *)

Module JS.

(** A string is its sequence of code units. *)
Definition jsstring := list ascii.

Definition str (s : string) : jsstring := list_ascii_of_string s.

Definition code (c : ascii) : N := N_of_ascii c.

Definition inRange (lo hi : N) (c : ascii) : bool :=
  ((lo <=? code c) && (code c <=? hi))%N.

(** [\s]: TAB, LF, VT, FF, CR, SPACE and NO-BREAK SPACE are the white
    space and line terminator code units below 256. *)
Definition isWhiteSpace (c : ascii) : bool :=
  inRange 9 13 c || inRange 32 32 c || inRange 160 160 c.

(** [[a-zA-Z]] *)
Definition isAsciiLetter (c : ascii) : bool :=
  inRange 65 90 c || inRange 97 122 c.

Definition isLowerAsciiLetter (c : ascii) : bool := inRange 97 122 c.

(** [[0-9]] *)
Definition isDigit (c : ascii) : bool := inRange 48 57 c.

(** The ASCII punctuation marks: every graphic ASCII character that is
    neither a letter nor a digit. *)
Definition isPunctuation (c : ascii) : bool :=
  inRange 33 47 c || inRange 58 64 c || inRange 91 96 c || inRange 123 126 c.

(** Lower-case mapping of one code unit: A-Z, and the Latin-1 capitals
    U+00C0-U+00DE except the multiplication sign U+00D7, move up by 32. *)
Definition toLowerUnit (c : ascii) : ascii :=
  if inRange 65 90 c || (inRange 192 222 c && negb (inRange 215 215 c))
  then ascii_of_N (code c + 32)
  else c.

(** [String.prototype.toLowerCase] *)
Definition toLowerCase (s : jsstring) : jsstring := map toLowerUnit s.

Definition jsstring_eqb (a b : jsstring) : bool :=
  bool_decide (a = b).

(** [String.prototype.split] with a pattern [[class]+]: the scan keeps
    the token under construction [tok]; the first code unit of a run of
    the class closes the token, the rest of the run is skipped
    ([inRun]), and the end of the string closes the last token.  The
    empty string gives one empty token. *)
Fixpoint splitRuns (delim : ascii -> bool) (inRun : bool) (tok : jsstring)
         (s : jsstring) : list jsstring :=
  match s with
  | [] => [tok]
  | c :: rest =>
      if delim c
      then if inRun then splitRuns delim true [] rest
           else tok :: splitRuns delim true [] rest
      else splitRuns delim false (tok ++ [c]) rest
  end.

Definition split (delim : ascii -> bool) (s : jsstring) : list jsstring :=
  splitRuns delim false [] s.

Fixpoint dropWhile (p : ascii -> bool) (s : jsstring) : jsstring :=
  match s with
  | [] => []
  | c :: rest => if p c then dropWhile p rest else s
  end.

Definition trimStart (s : jsstring) : jsstring := dropWhile isWhiteSpace s.
Definition trimEnd (s : jsstring) : jsstring := rev (dropWhile isWhiteSpace (rev s)).

(** [String.prototype.trim] *)
Definition trim (s : jsstring) : jsstring := trimEnd (trimStart s).

(** [String.prototype.substring(0, n)] *)
Definition substring0 (n : nat) (s : jsstring) : jsstring := firstn n s.

(** [/^[a-zA-Z]+$/.test] *)
Definition testAlphabetic (s : jsstring) : bool :=
  negb (length s =? 0)%nat && forallb isAsciiLetter s.

(** [Array.prototype.includes] on strings *)
Definition includes (l : list jsstring) (x : jsstring) : bool :=
  existsb (jsstring_eqb x) l.

(** A [Set] of strings keeps its members in insertion order. *)
Definition JSSet := list jsstring.

Definition Set_has (s : JSSet) (x : jsstring) : bool := includes s x.

Definition Set_add (s : JSSet) (x : jsstring) : JSSet :=
  if Set_has s x then s else s ++ [x].

(** [new Set(iterable)] *)
Definition Set_new (l : list jsstring) : JSSet := fold_left Set_add l [].

Definition Set_size (s : JSSet) : nat := length s.

(** [[...set]] *)
Definition Set_values (s : JSSet) : list jsstring := s.

(** [Array.prototype.sort] with a comparator.  The sort is stable (since
    ECMAScript 2019), and for a consistent comparator stability fixes
    the result; it is computed here by insertion.  [cmp x y > 0] puts
    [x] after [y]. *)
Fixpoint insertSorted {A : Type} (cmp : A -> A -> Z) (x : A) (l : list A) : list A :=
  match l with
  | [] => [x]
  | y :: rest =>
      if (0 <? cmp x y)%Z then y :: insertSorted cmp x rest
      else x :: l
  end.

Definition sort {A : Type} (cmp : A -> A -> Z) (l : list A) : list A :=
  fold_right (insertSorted cmp) [] l.

(** [Array.prototype.slice(0, n)] *)
Definition slice0 {A : Type} (n : nat) (l : list A) : list A := firstn n l.

End JS.

Import JS.

(** ** Numbers *)

Module Number.

Local Open Scope Z_scope.

(** binary64 *)
Definition prec : Z := 53.
Definition emax : Z := 1024.

(** The length of an array or the size of a set, as a binary64 value.
    The count [n] is written with mantissa [n] and exponent [0];
    [SFdiv] and [SFmul] round the exact quotient and product of the
    values of their arguments, whatever the width of the mantissas.  For
    counts below [2 ^ 53] the result is the one on the canonical values
    ([percent_canonical]). *)
Definition ofNat (n : nat) : spec_float :=
  match n with
  | O => S754_zero false
  | S _ => S754_finite false (Pos.of_nat n) 0
  end.

Definition div : spec_float -> spec_float -> spec_float := SFdiv prec emax.
Definition mul : spec_float -> spec_float -> spec_float := SFmul prec emax.

(** [Math.round]: the integer nearest to [x], the larger one when two
    are equally near.  The result is integral and is kept as an
    integer.  NaN and the infinities are sent to [0]; the detector never
    rounds one ([percent_argument_finite]). *)
Definition Math_round (x : spec_float) : Z :=
  match x with
  | S754_finite s m e =>
      let v := if s then Z.neg m else Z.pos m in
      if 0 <=? e then v * 2 ^ e
      else (2 * v + 2 ^ (- e)) / 2 ^ (- e + 1)
  | _ => 0
  end.

(** [Math.round((a / b) * 100)] on two counts *)
Definition percent (a b : nat) : Z :=
  Math_round (mul (div (ofNat a) (ofNat b)) (ofNat 100)).

(** An integral number, or the [-Infinity] that [Math.max()] returns. *)
Inductive number : Type :=
| NegInfinity
| Int (z : Z).

(** [Math.max(...values)] *)
Definition Math_max (values : list Z) : number :=
  fold_left
    (fun acc v => match acc with
                  | NegInfinity => Int v
                  | Int a => Int (Z.max a v)
                  end)
    values NegInfinity.

(** *** Reference notions for the rounding proofs *)

(** The integer nearest to [N / D], the even one when two are equally
    near. *)
Definition rne (N D : Z) : Z :=
  let q := N / D in
  match (2 * (N mod D) ?= D) with
  | Lt => q
  | Eq => if Z.even q then q else q + 1
  | Gt => q + 1
  end.

(** The integer nearest to [N / D], the larger one when two are equally
    near. *)
Definition roundHalfUp (N D : Z) : Z := (2 * N + D) / (2 * D).

(** Where [N / D] lies between two consecutive integers. *)
Definition loc_of (N D : Z) : location :=
  if N mod D =? 0 then loc_Exact else loc_Inexact (2 * (N mod D) ?= D).

Definition record_ok (N D : Z) (r : shr_record) : Prop :=
  shr_m r = N / D /\ loc_of_shr_record r = loc_of N D.

(** The smallest positive binary64 value is [2 ^ -1074]; [U] of them
    make one. *)
Definition U : Z := 2 ^ 1074.

(** The value of a float, counted in units of [2 ^ -1074]: every finite
    binary64 value is a whole number of them. *)
Definition units (x : spec_float) : Z :=
  match x with
  | S754_finite s m e => (if s then Z.neg m else Z.pos m) * 2 ^ (e + 1074)
  | _ => 0
  end.

(** Zero, or a positive finite value whose exponent is at most [B]. *)
Inductive nonneg_finite (B : Z) : spec_float -> Prop :=
| nonneg_zero : nonneg_finite B (S754_zero false)
| nonneg_pos m e : -1074 <= e <= B -> nonneg_finite B (S754_finite false m e).

(** The float of mantissa [z], at most [2 ^ 53], and exponent [E]. *)
Definition canon (z E : Z) : spec_float :=
  match z with
  | Z0 => S754_zero false
  | Zpos p =>
      if z =? 9007199254740992 then S754_finite false 4503599627370496 (E + 1)
      else S754_finite false p E
  | Zneg _ => S754_nan
  end.

(** The canonical binary64 value of a count. *)
Definition canonical (n : nat) : spec_float :=
  binary_normalize prec emax (Z.of_nat n) 0 false.

(** [Math.round] of [z * g] units, when [W] units make one. *)
Definition rounded (W g z : Z) : Z := (2 * (z * g) + W) / (2 * W).

End Number.

Import Number.

(** ** The detector *)

Module MatchedSentence.
Record t : Type := {
  sentence : jsstring;
  similarity : Z;
  sourceFile : jsstring
}.
End MatchedSentence.

Module DetectionResult.
Record t : Type := {
  id : jsstring;
  fileName : jsstring;
  fileType : jsstring;
  content : jsstring;
  similarity : number;
  matches : list MatchedSentence.t;
  timestamp : Z;
  wordCount : nat;
  pageCount : option nat
}.
End DetectionResult.

Module PlagiarismDetector.

Definition MIN_SENTENCE_LENGTH : nat := 15.
Definition MIN_WORD_LENGTH : nat := 3.
Definition SIMILARITY_THRESHOLD : Z := 75.

Definition stopWords : JSSet :=
  Set_new (map str
    ["the"; "a"; "an"; "and"; "or"; "but"; "in"; "on"; "at"; "to"; "for"; "of"; "with"; "by";
     "is"; "are"; "was"; "were"; "be"; "been"; "being"; "have"; "has"; "had"; "do"; "does"; "did";
     "will"; "would"; "could"; "should"; "may"; "might"; "can"; "this"; "that"; "these"; "those"]%string).

Definition isStopWord (word : jsstring) : bool := Set_has stopWords word.

Arguments isStopWord : simpl never.

Definition getSignificantWords (text : jsstring) : list jsstring :=
  List.filter
    (fun word =>
       (MIN_WORD_LENGTH <=? length word)%nat &&
       negb (isStopWord word) &&
       testAlphabetic word)
    (split isWhiteSpace (toLowerCase text)).

Definition isSentenceDelimiter (c : ascii) : bool :=
  inRange 46 46 c || inRange 33 33 c || inRange 63 63 c.

Definition extractSentences (text : jsstring) : list jsstring :=
  List.filter
    (fun s => (MIN_SENTENCE_LENGTH <=? length s)%nat)
    (map trim (split isSentenceDelimiter text)).

Definition calculateSimilarity (text1 text2 : jsstring) : Z :=
  let words1 := getSignificantWords text1 in
  let words2 := getSignificantWords text2 in
  if (length words1 =? 0)%nat || (length words2 =? 0)%nat then 0%Z
  else
    let set1 := Set_new words1 in
    let set2 := Set_new words2 in
    let intersection := Set_new (List.filter (fun x => Set_has set2 x) (Set_values set1)) in
    let union := Set_new (Set_values set1 ++ Set_values set2) in
    Math_round (mul (div (ofNat (Set_size intersection)) (ofNat (Set_size union))) (ofNat 100)).

Definition calculateSentenceSimilarity (sentence1 sentence2 : jsstring) : Z :=
  let words1 := getSignificantWords sentence1 in
  let words2 := getSignificantWords sentence2 in
  if (length words1 =? 0)%nat || (length words2 =? 0)%nat then 0%Z
  else
    let commonWords := List.filter (fun word => includes words2 word) words1 in
    Math_round
      (mul (div (ofNat (length commonWords))
                (ofNat (Nat.max (length words1) (length words2))))
           (ofNat 100)).

(** The text a match shows for [sentence]. *)
Definition displayed (sentence : jsstring) : jsstring :=
  substring0 200 sentence ++ (if (200 <? length sentence)%nat then str "..." else str "").

(** The [matches] array of [findDetailedMatches] when the three nested
    [forEach] loops are over: each loop threads the array through its
    body, which pushes at the end. *)
Definition collectMatches (text : jsstring) (existingResults : list DetectionResult.t)
  : list MatchedSentence.t :=
  let sentences := extractSentences text in
  fold_left
    (fun matches result =>
       let existingSentences := extractSentences (DetectionResult.content result) in
       fold_left
         (fun matches sentence =>
            fold_left
              (fun matches existingSentence =>
                 let similarity := calculateSentenceSimilarity sentence existingSentence in
                 if (SIMILARITY_THRESHOLD <=? similarity)%Z
                 then matches ++
                        [ {| MatchedSentence.sentence := displayed sentence;
                             MatchedSentence.similarity := similarity;
                             MatchedSentence.sourceFile := DetectionResult.fileName result |} ]
                 else matches)
              existingSentences matches)
         sentences matches)
    existingResults [].

(** The comparator handed to [sort]. *)
Definition bySimilarity (a b : MatchedSentence.t) : Z :=
  (MatchedSentence.similarity b - MatchedSentence.similarity a)%Z.

Definition findDetailedMatches (text : jsstring) (existingResults : list DetectionResult.t)
  : list MatchedSentence.t :=
  slice0 5 (sort bySimilarity (collectMatches text existingResults)).

Definition getWordCount (text : jsstring) : nat :=
  length (List.filter (fun word => (0 <? length word)%nat) (split isWhiteSpace text)).

End PlagiarismDetector.

Import PlagiarismDetector.

(** ** The upload handler *)

Module App.

Inductive outcome : Type :=
| Rejected (message : jsstring)
| Accepted (results : list DetectionResult.t).

(** The similarity [handleFileUpload] attaches to a submission. *)
Definition submissionSimilarity (content : jsstring) (results : list DetectionResult.t)
  : number :=
  if (0 <? length results)%nat
  then Math_max
         (map (fun result => calculateSimilarity content (DetectionResult.content result))
              results)
  else Int 0.

(** [handleFileUpload] from the point where the text of the file has
    been extracted; [id] and [now] are read from the clock.  The state
    is the array of results; a new result goes in front. *)
Definition handleFileUpload (id name type content : jsstring) (pageCount : option nat)
           (now : Z) (results : list DetectionResult.t) : outcome :=
  if (length content <? 50)%nat
  then Rejected (str "File content is too short for meaningful plagiarism detection.")
  else
    let similarity := submissionSimilarity content results in
    let matches := findDetailedMatches content results in
    let wordCount := getWordCount content in
    let newResult :=
      {| DetectionResult.id := id;
         DetectionResult.fileName := name;
         DetectionResult.fileType := type;
         DetectionResult.content := content;
         DetectionResult.similarity := similarity;
         DetectionResult.matches := matches;
         DetectionResult.timestamp := now;
         DetectionResult.wordCount := wordCount;
         DetectionResult.pageCount := pageCount |} in
    Accepted (newResult :: results).

End App.

Import App.

(** ** The specification's own notions *)

Module Spec.

(** Splitting a text on one or more consecutive code units of a class:
    the text is the fragments with a non-empty run of the class between
    each two; no fragment holds a code unit of the class, and each run
    is as long as it can be. *)
Inductive SplitsInto (delim : ascii -> bool) : jsstring -> list jsstring -> Prop :=
| splits_last fragment :
    Forall (fun c => delim c = false) fragment ->
    SplitsInto delim fragment [fragment]
| splits_more fragment run rest fragments :
    Forall (fun c => delim c = false) fragment ->
    run <> [] ->
    Forall (fun c => delim c = true) run ->
    (forall c rest', rest = c :: rest' -> delim c = false) ->
    SplitsInto delim rest fragments ->
    SplitsInto delim (fragment ++ run ++ rest) (fragment :: fragments).

(** The set of the significant words of a text. *)
Definition wordSet (text : jsstring) : gset jsstring :=
  list_to_set (getSignificantWords text).

(** The Jaccard percentage of the specification:
    [round(100 * |A n B| / |A u B|)] over the two word sets, [0] when
    either is empty. *)
Definition jaccardPercent (textA textB : jsstring) : Z :=
  let A := wordSet textA in
  let B := wordSet textB in
  if bool_decide (A = ∅ \/ B = ∅) then 0%Z
  else roundHalfUp (100 * Z.of_nat (size (A ∩ B))) (Z.of_nat (size (A ∪ B))).

(** How many of the words of [wordsA], each counted as often as it
    occurs, appear in [wordsB]. *)
Definition sharedCount (wordsA wordsB : list jsstring) : nat :=
  length (filter (fun w => w ∈ wordsB) wordsA).

(** The containment percentage of the specification:
    [round(100 * shared / max(|words(A)|, |words(B)|))], [0] when either
    sentence has no significant word. *)
Definition containmentPercent (sentenceA sentenceB : jsstring) : Z :=
  let wordsA := getSignificantWords sentenceA in
  let wordsB := getSignificantWords sentenceB in
  if bool_decide (wordsA = [] \/ wordsB = []) then 0%Z
  else roundHalfUp (100 * Z.of_nat (sharedCount wordsA wordsB))
                   (Z.of_nat (Nat.max (length wordsA) (length wordsB))).

(** The match, if any, of a sentence of the new document with a
    sentence of a prior document. *)
Definition candidate (result : DetectionResult.t) (sentence existingSentence : jsstring)
  : list MatchedSentence.t :=
  let similarity := calculateSentenceSimilarity sentence existingSentence in
  if (SIMILARITY_THRESHOLD <=? similarity)%Z
  then [ {| MatchedSentence.sentence := displayed sentence;
            MatchedSentence.similarity := similarity;
            MatchedSentence.sourceFile := DetectionResult.fileName result |} ]
  else [].

(** The candidates by corpus order, then new-document sentence order,
    then prior-document sentence order. *)
Definition candidatesCorpusFirst (text : jsstring) (corpus : list DetectionResult.t)
  : list MatchedSentence.t :=
  flat_map
    (fun result =>
       flat_map
         (fun sentence =>
            flat_map (candidate result sentence)
                     (extractSentences (DetectionResult.content result)))
         (extractSentences text))
    corpus.

(** The candidates by new-document sentence order, then corpus order,
    then prior-document sentence order. *)
Definition candidatesSentenceFirst (text : jsstring) (corpus : list DetectionResult.t)
  : list MatchedSentence.t :=
  flat_map
    (fun sentence =>
       flat_map
         (fun result =>
            flat_map (candidate result sentence)
                     (extractSentences (DetectionResult.content result)))
         corpus)
    (extractSentences text).

(** The comparator of a descending sort by [key]. *)
Definition descendingBy {A : Type} (key : A -> Z) (a b : A) : Z := (key b - key a)%Z.

(** A list whose keys never increase. *)
Definition descending {A : Type} (key : A -> Z) (l : list A) : Prop :=
  StronglySorted (fun a b => (key b <= key a)%Z) l.

Definition nonIncreasing (l : list MatchedSentence.t) : Prop :=
  descending MatchedSentence.similarity l.

Definition withSimilarity (v : Z) (l : list MatchedSentence.t) : list MatchedSentence.t :=
  List.filter (fun m => (MatchedSentence.similarity m =? v)%Z) l.

(** [ranked] is [candidates] sorted by similarity, non-increasing, the
    candidates of equal similarity in the order they have in
    [candidates]. *)
Definition Ranked (candidates ranked : list MatchedSentence.t) : Prop :=
  Permutation ranked candidates /\
  nonIncreasing ranked /\
  forall v, withSimilarity v ranked = withSimilarity v candidates.

(** The result the specification describes: the first five of the
    candidates, met sentence first, in ranked order. *)
Definition topFiveSentenceFirst (text : jsstring) (corpus : list DetectionResult.t)
  : list MatchedSentence.t :=
  slice0 5 (sort bySimilarity (candidatesSentenceFirst text corpus)).

(** A string that neither starts nor ends with white space. *)
Definition Trimmed (s : jsstring) : Prop :=
  (forall c rest, s = c :: rest -> isWhiteSpace c = false) /\
  (forall c front, s = front ++ [c] -> isWhiteSpace c = false).

End Spec.

Import Spec.

(** ** Texts used as examples *)

Module Examples.

(** Forty distinct significant words, and the first twenty-three of
    them. *)
Definition fortyWords : jsstring :=
  str ("qaa qab qac qad qae qaf qag qah qai qaj qak qal qam qan qao qap qaq qar qas qat " ++
       "qau qav qaw qax qay qaz qba qbb qbc qbd qbe qbf qbg qbh qbi qbj qbk qbl qbm qbn").

Definition twentyThreeWords : jsstring :=
  str ("qaa qab qac qad qae qaf qag qah qai qaj qak qal qam qan qao qap qaq qar qas qat " ++
       "qau qav qaw").

(** A prior document, as [handleFileUpload] stores it. *)
Definition document (name content : jsstring) : DetectionResult.t :=
  {| DetectionResult.id := str "1";
     DetectionResult.fileName := name;
     DetectionResult.fileType := str "text/plain";
     DetectionResult.content := content;
     DetectionResult.similarity := Int 0;
     DetectionResult.matches := [];
     DetectionResult.timestamp := 1%Z;
     DetectionResult.wordCount := getWordCount content;
     DetectionResult.pageCount := None |}.

(** A new document of two sentences, and a corpus whose first document
    holds the second sentence and whose second document holds the
    first. *)
Definition twoSentences : jsstring :=
  str "alpha beta gamma delta. epsilon zeta theta kappa.".

Definition crossedCorpus : list DetectionResult.t :=
  [ document (str "first.txt") (str "epsilon zeta theta kappa.");
    document (str "second.txt") (str "alpha beta gamma delta.") ].

(** The text of the first scenario of the specification. *)
Definition climate : jsstring :=
  str "Climate change is a pressing global issue that requires immediate action.".

(** A sentence of 250 code units: forty-nine times "word " and then
    "words". *)
Definition longSentence : jsstring :=
  concat (repeat (str "word ") 49) ++ str "words".

Definition matchOf (sentence : string) (similarity : Z) (source : string)
  : MatchedSentence.t :=
  {| MatchedSentence.sentence := str sentence;
     MatchedSentence.similarity := similarity;
     MatchedSentence.sourceFile := str source |}.

End Examples.

Import Examples.

(** ** Texts of UTF-16 code units *)

(** What a file holds reaches the detector through
    [PDFExtractor.cleanText], whose patterns name code units up to
    U+FFFF.  The texts of the extractor are therefore sequences of
    code units of any value, as numbers; no pattern here has the [u]
    or the [i] flag, so each one is matched code unit by code unit. *)

Module Unicode.

Local Open Scope N_scope.

Definition ustring := list N.

Definition ustr (s : string) : ustring := map N_of_ascii (list_ascii_of_string s).

(** A text whose code units are all below 256, as a string of the
    detector, and back. *)
Definition narrow (s : ustring) : jsstring := map ascii_of_N s.
Definition widen (s : jsstring) : ustring := map N_of_ascii s.

Definition SPACE : N := 32.

Definition between (lo hi c : N) : bool := (lo <=? c) && (c <=? hi).

Definition oneOf (units : list N) (c : N) : bool := existsb (N.eqb c) units.

(** [\s]: the white space and line terminator code units of ECMAScript:
    TAB, LF, VT, FF, CR, SPACE, NO-BREAK SPACE, U+1680, U+2000-U+200A,
    U+2028, U+2029, U+202F, U+205F, U+3000 and U+FEFF. *)
Definition isWhiteSpaceUnit (c : N) : bool :=
  between 9 13 c || oneOf [32; 160; 5760] c || between 8192 8202 c ||
  oneOf [8232; 8233; 8239; 8287; 12288; 65279] c.

(** [\w]: [[A-Za-z0-9_]] *)
Definition isWordUnit (c : N) : bool :=
  between 65 90 c || between 97 122 c || between 48 57 c || oneOf [95] c.

(** [String.prototype.replace] with a pattern [/[class]+/g]: the first
    code unit of a run of the class is replaced, the rest of the run is
    skipped ([inRun]). *)
Fixpoint replaceRunsFrom (class : N -> bool) (replacement : ustring) (inRun : bool)
         (s : ustring) : ustring :=
  match s with
  | [] => []
  | c :: rest =>
      if class c
      then if inRun then replaceRunsFrom class replacement true rest
           else replacement ++ replaceRunsFrom class replacement true rest
      else c :: replaceRunsFrom class replacement false rest
  end.

Definition replaceRuns (class : N -> bool) (replacement s : ustring) : ustring :=
  replaceRunsFrom class replacement false s.

(** [String.prototype.replace] with a pattern [/[class]/g] *)
Definition replaceEach (class : N -> bool) (replacement s : ustring) : ustring :=
  flat_map (fun c => if class c then replacement else [c]) s.

Fixpoint skipWhile (p : N -> bool) (s : ustring) : ustring :=
  match s with
  | [] => []
  | c :: rest => if p c then skipWhile p rest else s
  end.

Definition trimStartUnits (s : ustring) : ustring := skipWhile isWhiteSpaceUnit s.
Definition trimEndUnits (s : ustring) : ustring := rev (skipWhile isWhiteSpaceUnit (rev s)).

(** [String.prototype.trim] *)
Definition trimUnits (s : ustring) : ustring := trimEndUnits (trimStartUnits s).

(** [Array.prototype.join] with a separator of one code unit *)
Definition join {A : Type} (separator : A) (l : list (list A)) : list A :=
  match l with
  | [] => []
  | first :: rest => first ++ flat_map (fun s => separator :: s) rest
  end.

Fixpoint startsWith (s prefix : ustring) : bool :=
  match prefix, s with
  | [], _ => true
  | _ :: _, [] => false
  | p :: prefix', c :: s' => (c =? p) && startsWith s' prefix'
  end.

(** [String.prototype.includes] *)
Fixpoint includesUnits (s search : ustring) : bool :=
  startsWith s search ||
  match s with
  | [] => false
  | _ :: rest => includesUnits rest search
  end.

End Unicode.

(** ** The text extractor *)

Module PDFExtractor.

Import Unicode.
Local Open Scope N_scope.

Definition MAX_FILE_SIZE : N := 20 * 1024 * 1024.
Definition MIN_TEXT_LENGTH : nat := 10%nat.

(** What the extractor and the upload handler throw: an [Error] with a
    message.  The message of [FileTooLarge] spells the size of the file
    in megabytes; it is kept as the size. *)
Inductive failure : Type :=
| FileTooLarge (size : N)
| Failure (message : ustring).

(** The classes of the six patterns of [cleanText] that are not [\s+],
    in the order they are applied. *)
Definition isControlUnit (c : N) : bool :=
  between 0 8 c || oneOf [11; 12] c || between 14 31 c || oneOf [127] c.

Definition isSpecialUnit (c : N) : bool := between 65520 65535 c.

Definition isArtifactUnit (c : N) : bool := between 0 31 c || between 127 159 c.

Definition isEncodingIssue (c : N) : bool :=
  negb (between 32 126 c || between 160 65535 c).

(** The marks listed in the last class: full stop, comma, exclamation
    mark, question mark, semicolon, colon, the two parentheses, double
    quote, apostrophe and hyphen. *)
Definition isListedMark (c : N) : bool :=
  oneOf [46; 44; 33; 63; 59; 58; 40; 41; 34; 39; 45] c.

Definition isExcessiveUnit (c : N) : bool :=
  negb (isWordUnit c || isWhiteSpaceUnit c || isListedMark c).

Definition cleanText (text : ustring) : ustring :=
  let t1 := replaceRuns isWhiteSpaceUnit (ustr " ") text in
  let t2 := replaceEach isControlUnit (ustr "") t1 in
  let t3 := replaceEach isSpecialUnit (ustr "") t2 in
  let t4 := replaceEach isArtifactUnit (ustr "") t3 in
  let t5 := replaceEach isEncodingIssue (ustr "") t4 in
  let t6 := replaceEach isExcessiveUnit (ustr " ") t5 in
  let t7 := replaceRuns isWhiteSpaceUnit (ustr " ") t6 in
  trimUnits t7.

(** [extractFromTXT] of a file of [size] bytes whose [file.text()] is
    [text]. *)
Definition extractFromTXT (size : N) (text : ustring) : failure + ustring :=
  if (MAX_FILE_SIZE <? size)%N then inl (FileTooLarge size)
  else
    let cleanedText := cleanText text in
    if (length cleanedText <? MIN_TEXT_LENGTH)%nat
    then inl (Failure (ustr "Text file is too short or contains no readable content."))
    else inr cleanedText.

(** What pdf.js answers for a file.  Loading the document either throws
    (an [Error] with a message, or another value) or gives the pages;
    getting a page or its text content either throws or gives the text
    items, each with or without a [str]; getting the operator list of
    the page either throws or gives its [fnArray]. *)
Inductive operatorList : Type :=
| OperatorListThrows
| OperatorList (fnArray : list N).

Inductive pdfPage : Type :=
| PageThrows
| Page (items : list (option ustring)) (operators : operatorList).

Inductive pdfDocument : Type :=
| LoadThrows (message : ustring)
| LoadThrowsOther
| Loaded (pages : list pdfPage).

Record ExtractedContent : Type := {
  text : ustring;
  pageCount : nat;
  hasImages : bool
}.

(** The text of the items of one page *)
Definition pageText (items : list (option ustring)) : ustring :=
  join SPACE
    (List.filter (fun text => (0 <? length (trimUnits text))%nat)
       (map (fun item => match item with
                         | Some (c :: s) => c :: s
                         | _ => []
                         end)
            items)).

(** One turn of the loop over the pages, on [fullText] and
    [hasImages]; [paintImageXObject] is the operator code
    [pdfjsLib.OPS.paintImageXObject]. *)
Definition readPage (paintImageXObject : N) (state : ustring * bool) (page : pdfPage)
  : ustring * bool :=
  match page with
  | PageThrows => state
  | Page items operators =>
      let fullText :=
        if (0 <? length (trimUnits (pageText items)))%nat
        then fst state ++ pageText items ++ ustr (String "010" EmptyString)
        else fst state in
      let hasImages :=
        match operators with
        | OperatorList fnArray =>
            if existsb (fun fn => (fn =? paintImageXObject)%N) fnArray then true
            else snd state
        | OperatorListThrows => snd state
        end in
      (fullText, hasImages)
  end.

(** The [catch] clause of [extractText], on an [Error] with [message] *)
Definition rethrow (message : ustring) : failure :=
  if includesUnits message (ustr "Invalid PDF structure")
  then Failure (ustr "Invalid PDF file. The file may be corrupted.")
  else if includesUnits message (ustr "Password")
  then Failure (ustr "This PDF is password-protected. Please provide an unlocked version.")
  else Failure message.

Definition extractText (paintImageXObject : N) (size : N) (pdf : pdfDocument)
  : failure + ExtractedContent :=
  if (MAX_FILE_SIZE <? size)%N then inl (FileTooLarge size)
  else
    match pdf with
    | LoadThrows message => inl (rethrow message)
    | LoadThrowsOther =>
        inl (Failure (ustr "Failed to process PDF. The file may be corrupted or in an unsupported format."))
    | Loaded pages =>
        let '(fullText, hasImages) := fold_left (readPage paintImageXObject) pages ([], false) in
        let pageCount := length pages in
        let cleanedText := cleanText fullText in
        if (length cleanedText <? MIN_TEXT_LENGTH)%nat && hasImages
        then inl (rethrow (ustr "This PDF appears to contain scanned images. Text extraction failed. The document may need OCR processing."))
        else if (length cleanedText <? MIN_TEXT_LENGTH)%nat
        then inl (rethrow (ustr "No readable text found in this PDF. The document may be corrupted or contain only images."))
        else inr {| text := cleanedText; pageCount := pageCount; hasImages := hasImages |}
    end.

End PDFExtractor.

(** ** The component *)

Module Component.

Import Unicode PDFExtractor.

(** A file of the input: its name, its MIME type, its size in bytes,
    what [file.text()] gives and what pdf.js answers for it. *)
Record File : Type := {
  name : jsstring;
  type : jsstring;
  size : N;
  text : ustring;
  pdf : pdfDocument
}.

(** The state of [App] *)
Record state : Type := {
  results : list DetectionResult.t;
  loading : bool;
  error : option failure
}.

Definition initial : state :=
  {| results := []; loading := false; error := None |}.

Definition extractTextFromFile (paintImageXObject : N) (file : File)
  : failure + (ustring * option nat) :=
  if jsstring_eqb (type file) (str "application/pdf")
  then match extractText paintImageXObject (size file) (pdf file) with
       | inl e => inl e
       | inr result => inr (PDFExtractor.text result, Some (PDFExtractor.pageCount result))
       end
  else if jsstring_eqb (type file) (str "text/plain")
  then match extractFromTXT (size file) (text file) with
       | inl e => inl e
       | inr text => inr (text, None)
       end
  else inl (Failure (ustr "Unsupported file type. Please upload a PDF or TXT file.")).

(** [handleFileUpload], from the change event to the state it leaves
    when its [finally] clause is over.  The text that was extracted is
    handed to the detector as a string of code units below 256: it is a
    cleaned text, which holds no other code unit ([cleanText_narrow]). *)
Definition handleFileUpload (paintImageXObject : N) (id : jsstring) (now : Z)
           (file : option File) (st : state) : state :=
  match file with
  | None => st
  | Some file =>
      match extractTextFromFile paintImageXObject file with
      | inl e => {| results := results st; loading := false; error := Some e |}
      | inr (content, pageCount) =>
          match App.handleFileUpload id (name file) (type file) (narrow content)
                                     pageCount now (results st) with
          | Rejected message =>
              {| results := results st; loading := false;
                 error := Some (Failure (widen message)) |}
          | Accepted results' =>
              {| results := results'; loading := false; error := None |}
          end
      end
  end.

(** [similarity < bound] *)
Definition lessThan (similarity : number) (bound : Z) : bool :=
  match similarity with
  | NegInfinity => true
  | Int z => (z <? bound)%Z
  end.

Definition getSimilarityColor (similarity : number) : jsstring :=
  if lessThan similarity 20 then str "text-green-600"
  else if lessThan similarity 50 then str "text-yellow-600"
  else str "text-red-600".

Definition getSimilarityBg (similarity : number) : jsstring :=
  if lessThan similarity 20 then str "bg-green-100 border-green-200"
  else if lessThan similarity 50 then str "bg-yellow-100 border-yellow-200"
  else str "bg-red-100 border-red-200".

(** The label the card of a result shows *)
Definition similarityLabel (similarity : number) : jsstring :=
  if lessThan similarity 20 then str "Low Similarity"
  else if lessThan similarity 50 then str "Medium Similarity"
  else str "High Similarity".

Definition deleteResult (id : jsstring) (st : state) : state :=
  {| results := List.filter (fun result => negb (jsstring_eqb (DetectionResult.id result) id))
                            (results st);
     loading := loading st;
     error := error st |}.

Definition clearAll (st : state) : state :=
  {| results := []; loading := loading st; error := error st |}.

(** What the user does, one event after the other: each upload is over
    before the next event. *)
Inductive event : Type :=
| Upload (id : jsstring) (now : Z) (file : File)
| Delete (id : jsstring)
| ClearAll.

Definition handle (paintImageXObject : N) (st : state) (e : event) : state :=
  match e with
  | Upload id now file => handleFileUpload paintImageXObject id now (Some file) st
  | Delete id => deleteResult id st
  | ClearAll => clearAll st
  end.

Definition run (paintImageXObject : N) (events : list event) : state :=
  fold_left (handle paintImageXObject) events initial.

End Component.

(** ** Reference notions for the extractor *)

Module Words.

Import Unicode.

Section Splitting.
Context {A : Type}.
Variable separator : A -> bool.

(** The words of a text: its longest runs of code units that are not
    separators, from left to right. *)
Fixpoint words (s : list A) : list (list A) :=
  match s with
  | [] => []
  | c :: rest =>
      if separator c then words rest
      else match rest with
           | [] => [[c]]
           | c' :: _ =>
               if separator c' then [c] :: words rest
               else match words rest with
                    | word :: others => (c :: word) :: others
                    | [] => [[c]]
                    end
           end
  end.

(** A word: not empty, and without a separator. *)
Definition IsWord (w : list A) : Prop :=
  w <> [] /\ Forall (fun c => separator c = false) w.

End Splitting.

Local Open Scope N_scope.

(** A code unit [cleanText] keeps as it is: [[A-Za-z0-9_]] or one of
    the listed marks. *)
Definition isCleanUnit (c : N) : bool := isWordUnit c || PDFExtractor.isListedMark c.

(** A code unit [cleanText] removes, when it is not white space: a
    control code, or U+FFF0 and above. *)
Definition isRemovedUnit (c : N) : bool :=
  between 0 31 c || between 127 159 c || (65520 <=? c)%N.

(** What becomes of one code unit: white space becomes a space, a
    removed code unit disappears, a clean one stays, any other one
    becomes a space. *)
Definition normalizeUnit (c : N) : ustring :=
  if isWhiteSpaceUnit c then [SPACE]
  else if isRemovedUnit c then []
  else if isCleanUnit c then [c]
  else [SPACE].

(** A code unit that separates words: white space, or a code unit
    that is neither removed nor kept. *)
Definition isSeparatingUnit (c : N) : bool :=
  isWhiteSpaceUnit c || negb (isRemovedUnit c || isCleanUnit c).

(** The six replacements of [cleanText] between its two [\s+] ones, on
    one code unit. *)
Definition stages (c : N) : ustring :=
  replaceEach PDFExtractor.isExcessiveUnit (ustr " ")
    (replaceEach PDFExtractor.isEncodingIssue (ustr "")
       (replaceEach PDFExtractor.isArtifactUnit (ustr "")
          (replaceEach PDFExtractor.isSpecialUnit (ustr "")
             (replaceEach PDFExtractor.isControlUnit (ustr "") [c])))).

Definition cleanWords (text : ustring) : list ustring :=
  words isWhiteSpaceUnit (flat_map normalizeUnit text).

(** A word of a clean text *)
Definition CleanWord (word : ustring) : Prop :=
  word <> [] /\ Forall (fun c => isCleanUnit c = true) word.

(** What the loop of [extractText] adds to the text for one page: the
    text of its items and a line feed, when the page could be read and
    its text is not blank. *)
Definition pageLines (page : PDFExtractor.pdfPage) : ustring :=
  match page with
  | PDFExtractor.PageThrows => []
  | PDFExtractor.Page items _ =>
      if (0 <? length (trimUnits (PDFExtractor.pageText items)))%nat
      then PDFExtractor.pageText items ++ [10]
      else []
  end.

(** The clean words of the text items of a page that could be read,
    and whether the operators of the page paint an image. *)
Definition pageWords (page : PDFExtractor.pdfPage) : list ustring :=
  match page with
  | PDFExtractor.PageThrows => []
  | PDFExtractor.Page items _ =>
      flat_map (fun item => match item with
                            | Some text => cleanWords text
                            | None => []
                            end)
               items
  end.

Definition paintsImage (paintImageXObject : N) (page : PDFExtractor.pdfPage) : bool :=
  match page with
  | PDFExtractor.Page _ (PDFExtractor.OperatorList fnArray) =>
      existsb (fun fn => fn =? paintImageXObject) fnArray
  | _ => false
  end.

(** The result [handleFileUpload] puts in front of the others. *)
Definition newResult (id : jsstring) (now : Z) (file : Component.File)
           (content : ustring) (pageCount : option nat)
           (results : list DetectionResult.t) : DetectionResult.t :=
  {| DetectionResult.id := id;
     DetectionResult.fileName := Component.name file;
     DetectionResult.fileType := Component.type file;
     DetectionResult.content := narrow content;
     DetectionResult.similarity := submissionSimilarity (narrow content) results;
     DetectionResult.matches := findDetailedMatches (narrow content) results;
     DetectionResult.timestamp := now;
     DetectionResult.wordCount := getWordCount (narrow content);
     DetectionResult.pageCount := pageCount |}.

(** What holds of every result the component keeps: its content is a
    sequence of clean words with one space between each two, of fifty
    code units or more; its word count is the number of these words; its
    similarity is an integer from 0 to 100; it has at most five matches,
    each of a similarity from 75 to 100; and it has a page count when it
    is a PDF file and none when it is a plain text file. *)
Definition Kept (r : DetectionResult.t) : Prop :=
  (exists words,
      Forall CleanWord words /\
      DetectionResult.content r = narrow (join SPACE words) /\
      DetectionResult.wordCount r = length words) /\
  (50 <= length (DetectionResult.content r))%nat /\
  (exists z, DetectionResult.similarity r = Int z /\ (0 <= z <= 100)%Z) /\
  (length (DetectionResult.matches r) <= 5)%nat /\
  Forall (fun m => (75 <= MatchedSentence.similarity m <= 100)%Z)
         (DetectionResult.matches r) /\
  ((DetectionResult.fileType r = str "application/pdf" /\
    exists n, DetectionResult.pageCount r = Some n) \/
   (DetectionResult.fileType r = str "text/plain" /\
    DetectionResult.pageCount r = None)).

End Words.

(** ** Files used as examples *)

Module Samples.

Import Unicode.

(** A document of three pages: the first has two text items, an item
    without text and a blank one, and paints an image; the second cannot
    be read; the third has one text item and no operator list. *)
Definition threePages : list PDFExtractor.pdfPage :=
  [ PDFExtractor.Page [Some (ustr "Plagiarism"); None; Some (ustr "  "); Some (ustr "detection")]
                      (PDFExtractor.OperatorList [1; 85; 31]%N);
    PDFExtractor.PageThrows;
    PDFExtractor.Page [Some (ustr "compares documents")] PDFExtractor.OperatorListThrows ].

(** A plain text file of sixty-four code units, two of them line
    feeds. *)
Definition note : Component.File :=
  {| Component.name := str "note.txt";
     Component.type := str "text/plain";
     Component.size := 64;
     Component.text :=
       ustr "Climate change is a pressing" ++ [10; 10]%N ++
       ustr "global issue that requires action.";
     Component.pdf := PDFExtractor.LoadThrows (ustr "Invalid PDF structure") |}.

End Samples.


(** * Proofs *)

(** ** binary64 rounding *)

Section Binary64.
Local Open Scope Z_scope.

Lemma digits2_pos_size p : digits2_pos p = Pos.size p.
Proof. induction p; simpl; congruence. Qed.

Lemma Zdigits2_upper z : 0 <= z -> z < 2 ^ Zdigits2 z.
Proof.
  intros Hz. destruct z as [|p|p]; try lia.
  - reflexivity.
  - simpl. rewrite digits2_pos_size.
    pose proof (Pos.size_gt p) as H.
    assert (H' : Z.pos p < Z.pos (2 ^ Pos.size p)) by lia.
    rewrite Pos2Z.inj_pow in H'. exact H'.
Qed.

Lemma Zdigits2_lower z : 0 < z -> 2 ^ (Zdigits2 z - 1) <= z.
Proof.
  intros Hz. destruct z as [|p|p]; try lia.
  simpl. rewrite digits2_pos_size.
  pose proof (Pos.size_le p) as H.
  assert (Hp : (2 ^ Z.pos (Pos.size p) <= 2 * Z.pos p)).
  { rewrite <- Pos2Z.inj_pow. lia. }
  replace (Z.pos (Pos.size p)) with (Z.succ (Z.pos (Pos.size p) - 1)) in Hp by lia.
  rewrite Z.pow_succ_r in Hp by lia. lia.
Qed.

Lemma Zdigits2_nonneg z : 0 <= Zdigits2 z.
Proof. destruct z; simpl; lia. Qed.

Lemma Zdigits2_le z k : 0 <= z -> 0 <= k -> z < 2 ^ k -> Zdigits2 z <= k.
Proof.
  intros Hz Hk Hlt.
  destruct (Z.eq_dec z 0) as [->|Hnz]; [simpl; lia|].
  pose proof (Zdigits2_lower z ltac:(lia)) as Hl.
  destruct (Z_le_gt_dec (Zdigits2 z) k) as [|Hgt]; [assumption|].
  exfalso.
  assert (2 ^ k <= 2 ^ (Zdigits2 z - 1)) by (apply Z.pow_le_mono_r; lia).
  lia.
Qed.

(** *** Properties of [rne] *)

Lemma rne_between N D : 0 < D -> N / D <= rne N D <= N / D + 1.
Proof.
  intros HD. unfold rne.
  destruct (2 * (N mod D) ?= D); [destruct (Z.even (N / D))|..]; lia.
Qed.

Lemma rne_nearest N D : 0 < D -> Z.abs (2 * (rne N D * D - N)) <= D.
Proof.
  intros HD. unfold rne.
  pose proof (Z.div_mod N D ltac:(lia)) as Hdm.
  pose proof (Z.mod_pos_bound N D HD) as Hb.
  destruct (Z.compare_spec (2 * (N mod D)) D) as [He|Hl|Hg];
    [destruct (Z.even (N / D))|..]; nia.
Qed.

Lemma rne_exact B D : 0 < D -> rne (B * D) D = B.
Proof.
  intros HD. unfold rne.
  rewrite Z.mod_mul, Z.div_mul by lia.
  destruct (Z.compare_spec (2 * 0) D); lia.
Qed.

Lemma rne_le N D B : 0 < D -> N <= B * D -> rne N D <= B.
Proof.
  intros HD HN.
  destruct (Z.eq_dec N (B * D)) as [->|Hne].
  - rewrite rne_exact; lia.
  - assert (N / D < B) by (apply Z.div_lt_upper_bound; lia).
    pose proof (rne_between N D HD). lia.
Qed.

Lemma rne_ge N D B : 0 < D -> B * D <= N -> B <= rne N D.
Proof.
  intros HD HN.
  assert (B <= N / D) by (apply Z.div_le_lower_bound; lia).
  pose proof (rne_between N D HD). lia.
Qed.

Lemma rne_scale a N D : 0 < a -> 0 < D -> rne (a * N) (a * D) = rne N D.
Proof.
  intros Ha HD. unfold rne.
  rewrite Z.div_mul_cancel_l by lia.
  rewrite Zmult_mod_distr_l.
  replace (2 * (a * (N mod D))) with (a * (2 * (N mod D))) by lia.
  rewrite <- (Zmult_compare_compat_l (2 * (N mod D)) D a) by lia.
  reflexivity.
Qed.

(** *** Shifting a mantissa right keeps track of the exact value *)

Lemma record_ok_of_loc N D :
  record_ok N D (shr_record_of_loc (N / D) (loc_of N D)).
Proof.
  unfold record_ok. destruct (loc_of N D) as [|[]]; simpl; auto.
Qed.

Lemma shr_1_fields m r s :
  0 <= m ->
  shr_1 (Build_shr_record m r s) = Build_shr_record (m / 2) (Z.odd m) (r || s).
Proof.
  intros Hm. destruct m as [|[p|p|]|]; try lia; try reflexivity.
  - replace (Z.pos p~1 / 2) with (Z.pos p); [reflexivity|].
    rewrite (Pos2Z.inj_xI p). apply Z.div_unique with 1; lia.
  - replace (Z.pos p~0 / 2) with (Z.pos p); [reflexivity|].
    rewrite (Pos2Z.inj_xO p). apply Z.div_unique with 0; lia.
Qed.

Lemma shr_1_ok N D r :
  0 <= N -> 0 < D -> record_ok N D r -> record_ok N (2 * D) (shr_1 r).
Proof.
  intros HN HD [Hm Hl].
  assert (Hq : 0 <= N / D) by (apply Z.div_pos; lia).
  assert (Hdiv : N / (2 * D) = (N / D) / 2).
  { rewrite (Z.mul_comm 2 D), Z.div_div by lia. reflexivity. }
  assert (Hmod : N mod (2 * D) = N mod D + D * ((N / D) mod 2)).
  { rewrite (Z.mul_comm 2 D). apply Z.rem_mul_r; lia. }
  pose proof (Z.mod_pos_bound N D HD) as Hb.
  destruct r as [m rb sb]. simpl in Hm, Hl. subst m.
  rewrite shr_1_fields by assumption.
  assert (Hs : orb rb sb = negb (N mod D =? 0)).
  { unfold loc_of in Hl. destruct (N mod D =? 0); destruct rb, sb; simpl in *; congruence. }
  rewrite Hs. clear Hl Hs.
  unfold record_ok, loc_of. rewrite Hdiv, Hmod, Zmod_odd. simpl shr_m.
  split; [reflexivity|]. unfold loc_of_shr_record.
  destruct (Z.odd (N / D)); destruct (Z.eqb_spec (N mod D) 0) as [E|E]; simpl negb; cbv iota.
  - destruct (Z.eqb_spec (N mod D + D * 1) 0); [lia|].
    destruct (Z.compare_spec (2 * (N mod D + D * 1)) (2 * D)); try lia. reflexivity.
  - destruct (Z.eqb_spec (N mod D + D * 1) 0); [lia|].
    destruct (Z.compare_spec (2 * (N mod D + D * 1)) (2 * D)); try lia. reflexivity.
  - destruct (Z.eqb_spec (N mod D + D * 0) 0); [|lia]. reflexivity.
  - destruct (Z.eqb_spec (N mod D + D * 0) 0); [lia|].
    destruct (Z.compare_spec (2 * (N mod D + D * 0)) (2 * D)); try lia. reflexivity.
Qed.

Lemma iter_pos_shr_1_ok N p : 0 <= N ->
  forall D r, 0 < D -> record_ok N D r ->
    record_ok N (2 ^ Z.pos p * D) (SpecFloat.iter_pos shr_1 p r).
Proof.
  intros HN. induction p as [p IH|p IH|]; intros D r HD Hr; simpl SpecFloat.iter_pos.
  - assert (H2p : 0 < 2 ^ Z.pos p) by (apply Z.pow_pos_nonneg; lia).
    replace (2 ^ Z.pos p~1 * D) with (2 ^ Z.pos p * (2 ^ Z.pos p * (2 * D))).
    + apply IH; [nia|]. apply IH; [lia|]. apply shr_1_ok; assumption.
    + rewrite (Pos2Z.inj_xI p), Z.pow_add_r, Z.pow_twice_r by lia.
      change (2 ^ 1) with 2. ring.
  - assert (H2p : 0 < 2 ^ Z.pos p) by (apply Z.pow_pos_nonneg; lia).
    replace (2 ^ Z.pos p~0 * D) with (2 ^ Z.pos p * (2 ^ Z.pos p * D)).
    + apply IH; [nia|]. apply IH; assumption.
    + rewrite (Pos2Z.inj_xO p), Z.pow_twice_r. ring.
  - change (2 ^ 1) with 2. apply shr_1_ok; assumption.
Qed.

Lemma shr_ok N D r e n :
  0 <= N -> 0 < D -> record_ok N D r ->
  snd (shr r e n) = e + Z.max 0 n /\
  record_ok N (2 ^ Z.max 0 n * D) (fst (shr r e n)).
Proof.
  intros HN HD Hr. destruct n as [|p|p]; simpl.
  - split; [lia|]. rewrite Z.mul_1_l. assumption.
  - split; [lia|]. apply iter_pos_shr_1_ok; assumption.
  - split; [lia|]. rewrite Z.mul_1_l. assumption.
Qed.

Lemma round_nearest_even_rne N D r :
  0 < D -> record_ok N D r ->
  round_nearest_even (shr_m r) (loc_of_shr_record r) = rne N D.
Proof.
  intros HD [Hm Hl]. rewrite Hm, Hl. unfold loc_of, rne, round_nearest_even.
  destruct (Z.eqb_spec (N mod D) 0) as [E|E].
  - rewrite E. destruct (Z.compare_spec (2 * 0) D); lia.
  - reflexivity.
Qed.

(** *** What [binary_round_aux] computes *)

Lemma fexp_eq k : fexp prec emax k = Z.max (k - 53) (-1074).
Proof. reflexivity. Qed.

Lemma binary_round_aux_canon m e N D :
  0 <= N -> 0 < D -> m = N / D ->
  e <= 970 -> Zdigits2 m + e <= 1023 ->
  let E := Z.max e (fexp prec emax (Zdigits2 m + e)) in
  let z := rne N (2 ^ (E - e) * D) in
  0 <= z <= 2 ^ 53 /\ -1074 <= E <= 970 /\
  binary_round_aux prec emax false m e (loc_of N D) = canon z E.
Proof.
  intros HN HD Hm He Hmag E z.
  assert (Hm0 : 0 <= m) by (subst m; apply Z.div_pos; lia).
  pose proof (Zdigits2_upper m Hm0) as Hdu.
  pose proof (Zdigits2_nonneg m) as Hd0.
  set (d := Zdigits2 m) in *.
  set (n1 := fexp prec emax (d + e) - e).
  assert (HE : E = e + Z.max 0 n1) by (unfold E, n1; lia).
  assert (HEn : E - e = Z.max 0 n1) by lia.
  assert (HElo : -1074 <= E) by (unfold E; rewrite fexp_eq; lia).
  assert (HEhi : E <= 970) by (unfold E; rewrite fexp_eq; lia).
  assert (H2n : 0 < 2 ^ Z.max 0 n1) by (apply Z.pow_pos_nonneg; lia).
  subst z. rewrite HEn.
  set (D1 := 2 ^ Z.max 0 n1 * D).
  assert (HD1 : 0 < D1) by (unfold D1; nia).
  destruct (shr_ok N D (shr_record_of_loc m (loc_of N D)) e n1 HN HD) as [He1 Hr1].
  { subst m. apply record_ok_of_loc. }
  fold D1 in Hr1.
  unfold binary_round_aux, shr_fexp. fold d. fold n1.
  destruct (shr (shr_record_of_loc m (loc_of N D)) e n1) as [r1 e1]. simpl in He1, Hr1.
  rewrite (round_nearest_even_rne N D1 r1 HD1 Hr1).
  assert (He1E : e1 = E) by lia. rewrite He1E. clear He1 He1E e1.
  set (z := rne N D1).
  assert (Hz : 0 <= z <= 2 ^ 53).
  { pose proof (rne_between N D1 HD1) as Hb. fold z in Hb.
    assert (0 <= N / D1) by (apply Z.div_pos; lia).
    assert (N / D1 < 2 ^ 53); [|lia].
    apply Z.div_lt_upper_bound; [lia|].
    assert (N < (m + 1) * D).
    { subst m. pose proof (Z.div_mod N D ltac:(lia)). pose proof (Z.mod_pos_bound N D HD). nia. }
    assert (m + 1 <= 2 ^ d) by lia.
    assert (2 ^ d <= 2 ^ (53 + Z.max 0 n1)).
    { apply Z.pow_le_mono_r; [lia|]. unfold n1. rewrite fexp_eq. lia. }
    rewrite Z.pow_add_r in * by lia. unfold D1. nia. }
  split; [exact Hz|]. split; [lia|].
  destruct (Z.eq_dec z (2 ^ 53)) as [Hz53|Hz53].
  - assert (Hzv : z = 9007199254740992) by (rewrite Hz53; reflexivity).
    rewrite Hzv. change (Zdigits2 9007199254740992) with 54.
    replace (fexp prec emax (54 + E) - E) with 1 by (rewrite fexp_eq; lia).
    change (shr (shr_record_of_loc 9007199254740992 loc_Exact) E 1)
      with (Build_shr_record 4503599627370496 false false, E + 1).
    cbv beta iota. unfold shr_m.
    replace (E + 1 <=? emax - prec) with true by (symmetry; apply Z.leb_le; unfold emax, prec; lia).
    reflexivity.
  - assert (Hdz : Zdigits2 z <= 53) by (apply Zdigits2_le; lia).
    pose proof (Zdigits2_nonneg z) as Hdz0.
    assert (Hn2 : fexp prec emax (Zdigits2 z + E) - E <= 0) by (rewrite fexp_eq; lia).
    assert (Hshr : shr (shr_record_of_loc z loc_Exact) E (fexp prec emax (Zdigits2 z + E) - E)
                   = (shr_record_of_loc z loc_Exact, E)).
    { destruct (fexp prec emax (Zdigits2 z + E) - E); try reflexivity. lia. }
    rewrite Hshr. simpl shr_m.
    change (2 ^ 53) with 9007199254740992 in Hz53.
    destruct z as [|p|p]; [| |lia].
    + reflexivity.
    + replace (E <=? emax - prec) with true by (symmetry; apply Z.leb_le; unfold emax, prec; lia).
      unfold canon. destruct (Z.eqb_spec (Z.pos p) 9007199254740992); [contradiction|reflexivity].
Qed.

Lemma canon_nonneg_finite z E :
  0 <= z -> -1074 <= E -> nonneg_finite (E + 1) (canon z E).
Proof.
  intros Hz HE. unfold canon. destruct z as [|p|p]; [constructor| |lia].
  destruct (Z.pos p =? 9007199254740992); constructor; lia.
Qed.

Lemma canon_units z E :
  0 <= z -> -1074 <= E -> units (canon z E) = z * 2 ^ (E + 1074).
Proof.
  intros Hz HE. unfold canon. destruct z as [|p|p]; [reflexivity| |lia].
  destruct (Z.eqb_spec (Z.pos p) 9007199254740992) as [->|_]; [|reflexivity].
  unfold units. rewrite (Z.add_comm E 1), <- Z.add_assoc, Z.pow_add_r by lia.
  change (2 ^ 1) with 2. lia.
Qed.

Lemma binary_round_aux_rne m e N D :
  0 <= N -> 0 < D -> m = N / D ->
  e <= 970 -> Zdigits2 m + e <= 1023 ->
  let E := Z.max e (fexp prec emax (Zdigits2 m + e)) in
  let x := binary_round_aux prec emax false m e (loc_of N D) in
  nonneg_finite (E + 1) x /\ units x = rne N (2 ^ (E - e) * D) * 2 ^ (E + 1074).
Proof.
  intros HN HD Hm He Hmag E x.
  destruct (binary_round_aux_canon m e N D HN HD Hm He Hmag) as (Hz & HE & Hx).
  fold E in Hz, HE, Hx. subst x. rewrite Hx. split.
  - apply canon_nonneg_finite; lia.
  - apply canon_units; lia.
Qed.

Lemma new_location_loc_of N D : 0 < D -> new_location D (N mod D) = loc_of N D.
Proof.
  intros HD. unfold new_location, new_location_even, new_location_odd, loc_of.
  pose proof (Z.mod_pos_bound N D HD) as Hb.
  destruct (Z.even D) eqn:Hev; [reflexivity|].
  destruct (Z.eqb_spec (N mod D) 0); [reflexivity|].
  assert (Hodd : Z.odd D = true) by (rewrite <- Z.negb_even, Hev; reflexivity).
  apply Z.odd_spec in Hodd. destruct Hodd as [k Hk].
  destruct (Z.compare_spec (2 * (N mod D) + 1) D);
    destruct (Z.compare_spec (2 * (N mod D)) D); try reflexivity; lia.
Qed.

Lemma loc_of_integer N : loc_of N 1 = loc_Exact.
Proof. unfold loc_of. rewrite Z.mod_1_r. reflexivity. Qed.

(** *** Division of a count by a larger count *)

Lemma div_ofNat_rne (c m : positive) :
  (c <= m)%positive ->
  exists E,
    -1074 <= E <= -52 /\ ((c < m)%positive -> E <= -53) /\
    nonneg_finite (E + 1) (div (S754_finite false c 0) (S754_finite false m 0)) /\
    units (div (S754_finite false c 0) (S754_finite false m 0))
      = rne (Z.pos c * 2 ^ (- E)) (Z.pos m) * 2 ^ (E + 1074).
Proof.
  intros Hcm. unfold div, SFdiv, SFdiv_core_binary. cbv zeta. simpl xorb.
  set (d1 := Zdigits2 (Z.pos c)). set (d2 := Zdigits2 (Z.pos m)).
  assert (Hd12 : d1 <= d2).
  { pose proof (Zdigits2_upper (Z.pos m) ltac:(lia)) as Hm2. fold d2 in Hm2.
    pose proof (Zdigits2_nonneg (Z.pos m)) as Hm0. fold d2 in Hm0.
    apply Zdigits2_le; lia. }
  assert (Hd1 : 1 <= d1) by (unfold d1; simpl; lia).
  set (e' := Z.min (fexp prec emax (d1 + 0 - (d2 + 0))) (0 - 0)).
  assert (He' : -1074 <= e' <= -53) by (unfold e'; rewrite fexp_eq; lia).
  replace (0 - 0 - e') with (- e') by lia.
  assert (Hs : 0 < - e') by lia.
  set (N := Z.shiftl (Z.pos c) (- e')).
  assert (HN : N = Z.pos c * 2 ^ (- e')) by (unfold N; apply Z.shiftl_mul_pow2; lia).
  assert (Hm' : match - e' with Z.pos _ => N | 0 => Z.pos c | Z.neg _ => 0 end = N).
  { destruct (- e'); first [lia | reflexivity]. }
  rewrite Hm'. clear Hm'.
  assert (H2s : 0 < 2 ^ (- e')) by (apply Z.pow_pos_nonneg; lia).
  assert (HN0 : 0 <= N) by nia.
  assert (Hde : Z.div_eucl N (Z.pos m) = (N / Z.pos m, N mod Z.pos m)).
  { unfold Z.div, Z.modulo. destruct (Z.div_eucl N (Z.pos m)); reflexivity. }
  rewrite Hde. clear Hde.
  set (q := N / Z.pos m).
  assert (Hq : q = N / Z.pos m) by reflexivity.
  rewrite new_location_loc_of by lia.
  assert (Hqle : q <= 2 ^ (- e')).
  { rewrite Hq. apply Z.div_le_upper_bound; [lia|]. rewrite HN. nia. }
  assert (Hq0 : 0 <= q) by (rewrite Hq; apply Z.div_pos; lia).
  assert (Hdq : Zdigits2 q <= - e' + 1).
  { apply Zdigits2_le; [lia|lia|]. rewrite Z.pow_add_r by lia. change (2 ^ 1) with 2. lia. }
  pose proof (Zdigits2_nonneg q) as Hdq0.
  destruct (binary_round_aux_rne q e' N (Z.pos m) HN0 ltac:(lia) Hq ltac:(lia) ltac:(lia)) as [Hnf Hu].
  set (E := Z.max e' (fexp prec emax (Zdigits2 q + e'))) in *.
  exists E.
  assert (HE : e' <= E <= -52) by (unfold E; rewrite fexp_eq; lia).
  split; [lia|]. split; [|split; [exact Hnf|]].
  - intros Hlt.
    assert (q < 2 ^ (- e')).
    { rewrite Hq. apply Z.div_lt_upper_bound; [lia|]. rewrite HN. nia. }
    assert (Zdigits2 q <= - e') by (apply Zdigits2_le; lia).
    unfold E. rewrite fexp_eq. lia.
  - rewrite Hu. f_equal.
    rewrite HN. replace (- e') with (- E + (E - e')) by lia.
    rewrite Z.pow_add_r by lia.
    rewrite <- (rne_scale (2 ^ (E - e')) (Z.pos c * 2 ^ (- E)) (Z.pos m)); [|apply Z.pow_pos_nonneg; lia|lia].
    f_equal. ring.
Qed.

(** *** Multiplication by one hundred *)

Lemma mul_hundred_rne mq eq :
  -1074 <= eq <= -46 ->
  units (S754_finite false mq eq) <= U ->
  exists E,
    -1074 <= E <= -46 /\
    nonneg_finite (E + 1) (mul (S754_finite false mq eq) (ofNat 100)) /\
    units (mul (S754_finite false mq eq) (ofNat 100))
      = rne (100 * units (S754_finite false mq eq)) (2 ^ (E + 1074)) * 2 ^ (E + 1074).
Proof.
  intros Heq Hu. unfold units in Hu |- * at 2.
  change (mul (S754_finite false mq eq) (ofNat 100))
    with (binary_round_aux prec emax false (Z.pos (mq * 100)) (eq + 0) loc_Exact).
  rewrite Z.add_0_r.
  set (N := Z.pos (mq * 100)).
  assert (H2e : 0 < 2 ^ (eq + 1074)) by (apply Z.pow_pos_nonneg; lia).
  assert (Hmq : Z.pos mq <= 2 ^ (- eq)).
  { assert (HU : U = 2 ^ (- eq) * 2 ^ (eq + 1074)).
    { unfold U. rewrite <- Z.pow_add_r by lia. f_equal. lia. }
    rewrite HU in Hu. nia. }
  assert (H2m : 0 < 2 ^ (- eq)) by (apply Z.pow_pos_nonneg; lia).
  assert (HdN : Zdigits2 N <= 7 - eq).
  { apply Zdigits2_le; [lia|lia|].
    replace (7 - eq) with (7 + - eq) by lia. rewrite Z.pow_add_r by lia.
    change (2 ^ 7) with 128. unfold N. rewrite Pos2Z.inj_mul. lia. }
  pose proof (Zdigits2_nonneg N) as HdN0.
  rewrite <- (loc_of_integer N).
  destruct (binary_round_aux_rne N eq N 1 ltac:(lia) ltac:(lia)
              ltac:(symmetry; apply Z.div_1_r) ltac:(lia) ltac:(lia)) as [Hnf Hval].
  set (E := Z.max eq (fexp prec emax (Zdigits2 N + eq))) in *.
  assert (HE : eq <= E <= -46) by (unfold E; rewrite fexp_eq; lia).
  exists E. split; [lia|]. split; [exact Hnf|].
  rewrite Hval. f_equal. rewrite Z.mul_1_r.
  replace (E + 1074) with ((E - eq) + (eq + 1074)) by lia.
  rewrite (Z.pow_add_r 2 (E - eq) (eq + 1074)) by lia.
  rewrite <- (rne_scale (2 ^ (eq + 1074)) N (2 ^ (E - eq))); [|lia|apply Z.pow_pos_nonneg; lia].
  f_equal; [|ring]. unfold N. rewrite Pos2Z.inj_mul. ring.
Qed.

Lemma Math_round_units B x :
  nonneg_finite B x -> Math_round x = (2 * units x + U) / (2 * U).
Proof.
  intros [|m e He]; [reflexivity|]. unfold Math_round, units.
  assert (HU0 : 0 < U) by (unfold U; apply Z.pow_pos_nonneg; lia).
  destruct (Z.leb_spec 0 e) as [H0|H0].
  - replace (2 ^ (e + 1074)) with (2 ^ e * U)
      by (unfold U; rewrite <- Z.pow_add_r by lia; reflexivity).
    replace (2 * (Z.pos m * (2 ^ e * U)) + U) with (Z.pos m * 2 ^ e * (2 * U) + U) by ring.
    rewrite Z.div_add_l by lia.
    rewrite (Z.div_small U (2 * U)) by lia. lia.
  - set (w := 2 ^ (e + 1074)).
    assert (Hw : 0 < w) by (apply Z.pow_pos_nonneg; lia).
    assert (HU : U = 2 ^ (- e) * w).
    { unfold U, w. rewrite <- Z.pow_add_r by lia. f_equal. lia. }
    rewrite HU.
    replace (2 * (Z.pos m * w) + 2 ^ (- e) * w) with ((2 * Z.pos m + 2 ^ (- e)) * w) by ring.
    replace (2 * (2 ^ (- e) * w)) with (2 ^ (- e + 1) * w)
      by (rewrite Z.pow_add_r by lia; change (2 ^ 1) with 2; ring).
    rewrite Z.div_mul_cancel_r; [reflexivity| |lia].
    apply Z.pow_nonzero; lia.
Qed.

(** *** The rounded percentage *)

Lemma U_pos : 0 < U.
Proof. unfold U. apply Z.pow_pos_nonneg; lia. Qed.

Lemma U_split E : -1074 <= E <= 0 -> U = 2 ^ (- E) * 2 ^ (E + 1074).
Proof. intros HE. unfold U. rewrite <- Z.pow_add_r by lia. f_equal. lia. Qed.

Lemma rne_0 D : 0 < D -> rne 0 D = 0.
Proof. intros HD. apply (rne_exact 0 D HD). Qed.

(** The computation of [percent] on positive counts, in units. *)
Lemma percent_units (c m : positive) :
  (c <= m)%positive ->
  exists E1 E2,
    (-1074 <= E1 <= -52) /\ ((c < m)%positive -> E1 <= -53) /\ (-1074 <= E2 <= -46) /\
    let ux := rne (Z.pos c * 2 ^ (- E1)) (Z.pos m) * 2 ^ (E1 + 1074) in
    let up := rne (100 * ux) (2 ^ (E2 + 1074)) * 2 ^ (E2 + 1074) in
    0 <= ux <= U /\
    Math_round (mul (div (S754_finite false c 0) (S754_finite false m 0)) (ofNat 100))
      = (2 * up + U) / (2 * U).
Proof.
  intros Hcm.
  destruct (div_ofNat_rne c m Hcm) as (E1 & HE1 & HE1' & Hnf & Hu).
  exists E1.
  assert (Hg1 : 0 < 2 ^ (E1 + 1074)) by (apply Z.pow_pos_nonneg; lia).
  assert (Hk1 : 0 < 2 ^ (- E1)) by (apply Z.pow_pos_nonneg; lia).
  pose proof (U_split E1 ltac:(lia)) as HU1.
  assert (Hux : 0 <= rne (Z.pos c * 2 ^ (- E1)) (Z.pos m) * 2 ^ (E1 + 1074) <= U).
  { assert (rne (Z.pos c * 2 ^ (- E1)) (Z.pos m) <= 2 ^ (- E1)) by (apply rne_le; nia).
    assert (0 <= rne (Z.pos c * 2 ^ (- E1)) (Z.pos m)) by (apply rne_ge; nia).
    rewrite HU1. nia. }
  rewrite <- Hu in Hux.
  destruct (div (S754_finite false c 0) (S754_finite false m 0)) as [s| | |s mq eq] eqn:Hdiv;
    inversion Hnf; subst.
  - (* the quotient underflows to zero *)
    exists (-46). split; [lia|]. split; [exact HE1'|]. split; [lia|].
    cbv zeta. rewrite <- Hu. change (units (S754_zero false)) with 0.
    rewrite (Z.mul_0_r 100), rne_0 by (apply Z.pow_pos_nonneg; lia).
    pose proof U_pos as HU.
    split; [lia|].
    rewrite Z.div_small by lia. reflexivity.
  - destruct (mul_hundred_rne mq eq ltac:(lia) ltac:(lia)) as (E2 & HE2 & Hnf2 & Hu2).
    exists E2. split; [lia|]. split; [exact HE1'|]. split; [lia|].
    cbv zeta. rewrite <- Hu, <- Hu2. split; [lia|].
    apply (Math_round_units (E2 + 1)). exact Hnf2.
Qed.

Section PercentArith.
Variables (W c m k1 g1 k2 g2 z1 z2 : Z).
Hypothesis HW : 0 < W.
Hypothesis Hc : 0 < c <= m.
Hypothesis Hg1 : 0 < g1.
Hypothesis Hg2 : 0 < g2.
Hypothesis HW1 : W = k1 * g1.
Hypothesis HW2 : W = k2 * g2.
Hypothesis Hz1 : z1 = rne (c * k1) m.
Hypothesis Hz2 : z2 = rne (100 * (z1 * g1)) g2.

Lemma percent_arith_k : 0 < k1 /\ 0 < k2.
Proof using All.
  split.
  - apply (Z.mul_pos_cancel_r k1 g1 Hg1). rewrite <- HW1. exact HW.
  - apply (Z.mul_pos_cancel_r k2 g2 Hg2). rewrite <- HW2. exact HW.
Qed.

Lemma percent_arith_quotient : 0 <= z1 * g1 <= W.
Proof using All.
  destruct percent_arith_k as [Hk1 _].
  assert (H1 : 0 <= z1 <= k1).
  { rewrite Hz1. split.
    - apply rne_ge; [lia|]. apply Z.mul_nonneg_nonneg; lia.
    - apply rne_le; [lia|]. rewrite (Z.mul_comm c k1). apply Z.mul_le_mono_nonneg_l; lia. }
  rewrite HW1. split.
  - apply Z.mul_nonneg_nonneg; lia.
  - apply Z.mul_le_mono_nonneg_r; lia.
Qed.

Lemma percent_arith_product : 0 <= z2 * g2 <= 100 * W.
Proof using All.
  destruct percent_arith_k as [_ Hk2].
  pose proof percent_arith_quotient as Hq.
  assert (H2 : 0 <= z2 <= 100 * k2).
  { rewrite Hz2. split.
    - apply rne_ge; lia.
    - apply rne_le; [lia|].
      replace (100 * k2 * g2) with (100 * W) by (rewrite HW2; ring). lia. }
  replace (100 * W) with (100 * k2 * g2) by (rewrite HW2; ring). split.
  - apply Z.mul_nonneg_nonneg; lia.
  - apply Z.mul_le_mono_nonneg_r; lia.
Qed.

Lemma percent_arith_range : 0 <= rounded W g2 z2 <= 100.
Proof using All.
  pose proof percent_arith_product as H3.
  unfold rounded. split.
  - apply Z.div_pos; lia.
  - assert ((2 * (z2 * g2) + W) / (2 * W) < 101); [|lia].
    apply Z.div_lt_upper_bound; lia.
Qed.

Lemma percent_arith_full : c = m -> rounded W g2 z2 = 100.
Proof using All.
  intros Hcm.
  assert (H1 : z1 = k1).
  { rewrite Hz1, Hcm, (Z.mul_comm m k1). apply rne_exact. lia. }
  assert (H2 : z2 = 100 * k2).
  { rewrite Hz2, H1, <- HW1, HW2, Z.mul_assoc. apply rne_exact. lia. }
  unfold rounded. rewrite H2. replace (100 * k2 * g2) with (100 * W) by (rewrite HW2; ring).
  replace (2 * (100 * W) + W) with (100 * (2 * W) + W) by ring.
  rewrite Z.div_add_l by lia. rewrite Z.div_small; lia.
Qed.

Lemma percent_arith_nearest :
  m < 2 ^ 32 -> 2 ^ 46 <= k2 -> (c < m -> 2 ^ 53 <= k1) ->
  Z.abs (2 * rounded W g2 z2 * m - 200 * c) <= m.
Proof using All.
  intros Hm Hk2 Hk1.
  destruct (Z.eq_dec c m) as [Hcm|Hcm].
  { rewrite (percent_arith_full Hcm). lia. }
  specialize (Hk1 ltac:(lia)).
  change (2 ^ 53) with 9007199254740992 in Hk1.
  change (2 ^ 46) with 70368744177664 in Hk2.
  change (2 ^ 32) with 4294967296 in Hm.
  pose proof (rne_nearest (c * k1) m ltac:(lia)) as Hn1. rewrite <- Hz1 in Hn1.
  pose proof (rne_nearest (100 * (z1 * g1)) g2 Hg2) as Hn2. rewrite <- Hz2 in Hn2.
  set (up := z2 * g2) in *. set (ux := z1 * g1) in *.
  (* error of the quotient, in units *)
  assert (He1 : Z.abs (2 * (ux * m - c * W)) <= g1 * m).
  { replace (2 * (ux * m - c * W)) with (g1 * (2 * (z1 * m - c * k1)))
      by (unfold ux; rewrite HW1; ring).
    rewrite Z.abs_mul, (Z.abs_eq g1) by lia.
    apply Z.mul_le_mono_nonneg_l; lia. }
  (* error of the product, times the divisor *)
  assert (He2 : Z.abs (2 * (up * m - 100 * ux * m)) <= g2 * m).
  { replace (2 * (up * m - 100 * ux * m)) with ((2 * (up - 100 * ux)) * m) by ring.
    rewrite Z.abs_mul, (Z.abs_eq m) by lia.
    apply Z.mul_le_mono_nonneg_r; lia. }
  set (delta := 2 * (up * m - 100 * c * W)).
  assert (Hd : Z.abs delta <= g2 * m + 100 * (g1 * m)).
  { replace delta with (2 * (up * m - 100 * ux * m) + 100 * (2 * (ux * m - c * W)))
      by (unfold delta; ring). lia. }
  assert (Hg1W : 9007199254740992 * g1 <= W).
  { rewrite HW1. apply Z.mul_le_mono_nonneg_r; lia. }
  assert (Hg2W : 70368744177664 * g2 <= W).
  { rewrite HW2. apply Z.mul_le_mono_nonneg_r; lia. }
  assert (Hsmall : 9007199254740992 * Z.abs delta < 9007199254740992 * W).
  { assert (Ha : 9007199254740992 * (g2 * m) <= 128 * W * m).
    { replace (9007199254740992 * (g2 * m)) with (128 * (70368744177664 * g2) * m) by ring.
      apply Z.mul_le_mono_nonneg_r; lia. }
    assert (Hb : 9007199254740992 * (100 * (g1 * m)) <= 100 * W * m).
    { replace (9007199254740992 * (100 * (g1 * m))) with (100 * (9007199254740992 * g1) * m) by ring.
      apply Z.mul_le_mono_nonneg_r; lia. }
    assert (Hc' : 228 * W * m < 9007199254740992 * W).
    { replace (228 * W * m) with ((228 * m) * W) by ring.
      apply Z.mul_lt_mono_pos_r; lia. }
    lia. }
  assert (Hsm : Z.abs delta < W) by lia.
  pose proof (Z.div_mod (2 * up + W) (2 * W) ltac:(lia)) as Hdm.
  pose proof (Z.mod_pos_bound (2 * up + W) (2 * W) ltac:(lia)) as Hmb.
  assert (Hr : rounded W g2 z2 = (2 * up + W) / (2 * W)) by reflexivity.
  rewrite <- Hr in Hdm. clear Hr. set (r := rounded W g2 z2) in *.
  set (rm := (2 * up + W) mod (2 * W)) in *.
  assert (Hm2 : (2 * up + W) * m = (2 * W * r + rm) * m) by (rewrite Hdm; reflexivity).
  assert (Hup : W * (2 * r * m - 200 * c - m) < W * 1).
  { replace (W * (2 * r * m - 200 * c - m)) with (delta - rm * m) by (unfold delta; lia).
    assert (0 <= rm * m) by (apply Z.mul_nonneg_nonneg; lia). lia. }
  assert (Hlo : W * (-1) < W * (2 * r * m - 200 * c + m)).
  { replace (W * (2 * r * m - 200 * c + m)) with (delta + (2 * W - rm) * m) by (unfold delta; lia).
    assert (0 <= (2 * W - rm) * m) by (apply Z.mul_nonneg_nonneg; lia). lia. }
  apply Z.mul_lt_mono_pos_l in Hup; [|lia].
  apply Z.mul_lt_mono_pos_l in Hlo; [|lia].
  lia.
Qed.
End PercentArith.

Lemma ofNat_pos n : (0 < n)%nat -> ofNat n = S754_finite false (Pos.of_nat n) 0.
Proof. destruct n; [lia|reflexivity]. Qed.

Lemma percent_zero b : (0 < b)%nat -> percent 0 b = 0.
Proof. intros Hb. unfold percent. rewrite (ofNat_pos b Hb). reflexivity. Qed.

(** The shape of [percent] on positive counts: the nearest-even roundings
    of the quotient and of the product, then the nearest integer. *)
Lemma percent_shape (a b : nat) :
  (0 < a <= b)%nat ->
  exists k1 g1 k2 g2,
    0 < g1 /\ 0 < g2 /\ U = k1 * g1 /\ U = k2 * g2 /\
    2 ^ 46 <= k2 /\ ((a < b)%nat -> 2 ^ 53 <= k1) /\
    percent a b =
      rounded U g2 (rne (100 * (rne (Z.of_nat a * k1) (Z.of_nat b) * g1)) g2).
Proof.
  intros Hab. unfold percent.
  rewrite (ofNat_pos a), (ofNat_pos b) by lia.
  destruct (percent_units (Pos.of_nat a) (Pos.of_nat b)) as (E1 & E2 & HE1 & HE1' & HE2 & _ & Hr).
  { apply Pos2Nat.inj_le. rewrite !Nat2Pos.id by lia. lia. }
  rewrite Hr. clear Hr.
  assert (Ha : Z.pos (Pos.of_nat a) = Z.of_nat a).
  { rewrite <- positive_nat_Z, Nat2Pos.id by lia. reflexivity. }
  assert (Hb : Z.pos (Pos.of_nat b) = Z.of_nat b).
  { rewrite <- positive_nat_Z, Nat2Pos.id by lia. reflexivity. }
  rewrite Ha, Hb.
  exists (2 ^ (- E1)), (2 ^ (E1 + 1074)), (2 ^ (- E2)), (2 ^ (E2 + 1074)).
  split; [apply Z.pow_pos_nonneg; lia|].
  split; [apply Z.pow_pos_nonneg; lia|].
  split; [apply U_split; lia|].
  split; [apply U_split; lia|].
  split; [apply Z.pow_le_mono_r; lia|].
  split; [|reflexivity].
  intros Hlt. apply Z.pow_le_mono_r; [lia|].
  assert (E1 <= -53); [|lia].
  apply HE1'. apply Pos2Nat.inj_lt. rewrite !Nat2Pos.id by lia. lia.
Qed.

Lemma nonneg_finite_le B B' x : B <= B' -> nonneg_finite B x -> nonneg_finite B' x.
Proof. intros H [|m e He]; constructor; lia. Qed.

(** The number that [percent] rounds is zero or a positive finite value:
    [Math_round] never meets NaN or an infinity there. *)
Lemma percent_argument_finite (a b : nat) :
  (0 < b)%nat -> (a <= b)%nat ->
  nonneg_finite (-45) (mul (div (ofNat a) (ofNat b)) (ofNat 100)).
Proof.
  intros Hb Hab. rewrite (ofNat_pos b Hb). destruct a as [|a'].
  - constructor.
  - rewrite (ofNat_pos (S a')) by lia.
    destruct (div_ofNat_rne (Pos.of_nat (S a')) (Pos.of_nat b)) as (E1 & HE1 & _ & Hnf & Hu).
    { apply Pos2Nat.inj_le. rewrite !Nat2Pos.id by lia. lia. }
    assert (Hux : units (div (S754_finite false (Pos.of_nat (S a')) 0)
                             (S754_finite false (Pos.of_nat b) 0)) <= U).
    { rewrite Hu, (U_split E1) by lia.
      assert (Hle : (Pos.of_nat (S a') <= Pos.of_nat b)%positive)
        by (apply Pos2Nat.inj_le; rewrite !Nat2Pos.id by lia; lia).
      assert (0 < 2 ^ (- E1)) by (apply Z.pow_pos_nonneg; lia).
      assert (0 < 2 ^ (E1 + 1074)) by (apply Z.pow_pos_nonneg; lia).
      apply Z.mul_le_mono_nonneg_r; [lia|]. apply rne_le; [lia|].
      rewrite Z.mul_comm. apply Z.mul_le_mono_nonneg_l; lia. }
    destruct (div (S754_finite false (Pos.of_nat (S a')) 0) (S754_finite false (Pos.of_nat b) 0))
      as [s| | |s mq eq]; inversion Hnf; subst.
    + constructor.
    + destruct (mul_hundred_rne mq eq ltac:(lia) Hux) as (E2 & HE2 & Hnf2 & _).
      apply (nonneg_finite_le (E2 + 1)); [lia|exact Hnf2].
Qed.

Lemma percent_range (a b : nat) :
  (0 < b)%nat -> (a <= b)%nat -> 0 <= percent a b <= 100.
Proof.
  intros Hb Hab. destruct a as [|a'].
  - rewrite percent_zero by assumption. lia.
  - destruct (percent_shape (S a') b ltac:(lia))
      as (k1 & g1 & k2 & g2 & Hg1 & Hg2 & HU1 & HU2 & _ & _ & ->).
    eapply (percent_arith_range U (Z.of_nat (S a')) (Z.of_nat b) k1 g1 k2 g2);
      eauto using U_pos; lia.
Qed.

Lemma percent_full (b : nat) : (0 < b)%nat -> percent b b = 100.
Proof.
  intros Hb.
  destruct (percent_shape b b ltac:(lia))
    as (k1 & g1 & k2 & g2 & Hg1 & Hg2 & HU1 & HU2 & _ & _ & ->).
  eapply (percent_arith_full U (Z.of_nat b) (Z.of_nat b) k1 g1 k2 g2);
    eauto using U_pos; lia.
Qed.

Lemma percent_nearest (a b : nat) :
  (0 < b)%nat -> (a <= b)%nat -> Z.of_nat b < 2 ^ 32 ->
  Z.abs (2 * percent a b * Z.of_nat b - 200 * Z.of_nat a) <= Z.of_nat b.
Proof.
  intros Hb Hab Hlt. destruct a as [|a'].
  - rewrite percent_zero by assumption. lia.
  - destruct (percent_shape (S a') b ltac:(lia))
      as (k1 & g1 & k2 & g2 & Hg1 & Hg2 & HU1 & HU2 & Hk2 & Hk1 & ->).
    eapply (percent_arith_nearest U (Z.of_nat (S a')) (Z.of_nat b) k1 g1 k2 g2);
      eauto using U_pos; lia.
Qed.

(** *** Counts as canonical binary64 values *)

Lemma Zdigits2_unique z d : 0 < z -> 2 ^ (d - 1) <= z < 2 ^ d -> Zdigits2 z = d.
Proof.
  intros Hz [Hlo Hhi].
  pose proof (Zdigits2_upper z ltac:(lia)) as Hu.
  pose proof (Zdigits2_lower z Hz) as Hl.
  pose proof (Zdigits2_nonneg z) as H0.
  assert (Hd : 0 < d).
  { destruct (Z_lt_le_dec 0 d) as [|Hle]; [assumption|].
    rewrite (Z.pow_neg_r 2 (d - 1)) in Hlo by lia.
    destruct (Z.eq_dec d 0) as [->|]; [simpl in Hhi; lia|].
    rewrite Z.pow_neg_r in Hhi by lia. lia. }
  destruct (Z.lt_trichotomy (Zdigits2 z) d) as [Hlt|[Heq|Hgt]]; [|exact Heq|].
  - assert (2 ^ Zdigits2 z <= 2 ^ (d - 1)) by (apply Z.pow_le_mono_r; lia). lia.
  - assert (2 ^ d <= 2 ^ (Zdigits2 z - 1)) by (apply Z.pow_le_mono_r; lia). lia.
Qed.

Lemma Zdigits2_shift z k : 0 < z -> 0 <= k -> Zdigits2 (z * 2 ^ k) = Zdigits2 z + k.
Proof.
  intros Hz Hk.
  pose proof (Zdigits2_upper z ltac:(lia)) as Hu.
  pose proof (Zdigits2_lower z Hz) as Hl.
  assert (Hd : 1 <= Zdigits2 z) by (destruct z; simpl; lia).
  assert (H2k : 0 < 2 ^ k) by (apply Z.pow_pos_nonneg; lia).
  apply Zdigits2_unique; [nia|].
  replace (Zdigits2 z + k - 1) with ((Zdigits2 z - 1) + k) by lia.
  rewrite !Z.pow_add_r by lia. nia.
Qed.

Lemma iter_xO p k : Z.pos (Pos.iter xO p k) = Z.pos p * 2 ^ Z.pos k.
Proof.
  induction k as [|k IH] using Pos.peano_ind.
  - simpl. lia.
  - rewrite Pos.iter_succ, Pos2Z.inj_xO, IH, Pos2Z.inj_succ, Z.pow_succ_r by lia. ring.
Qed.

(** The canonical binary64 value of a count below [2 ^ 53]. *)
Lemma canonical_pos (n : positive) :
  Z.pos n < 2 ^ 53 ->
  exists M,
    binary_normalize prec emax (Z.pos n) 0 false
      = S754_finite false M (Zdigits2 (Z.pos n) - 53) /\
    Z.pos M = Z.pos n * 2 ^ (53 - Zdigits2 (Z.pos n)).
Proof.
  intros Hn.
  assert (Hd : 1 <= Zdigits2 (Z.pos n) <= 53).
  { split; [simpl; lia|]. apply Zdigits2_le; lia. }
  unfold binary_normalize, binary_round.
  change (Z.pos (digits2_pos n)) with (Zdigits2 (Z.pos n)).
  set (d := Zdigits2 (Z.pos n)) in *.
  replace (fexp prec emax (d + 0)) with (d - 53) by (rewrite fexp_eq; lia).
  assert (Hal : exists M, shl_align n 0 (d - 53) = (M, d - 53) /\ Z.pos M = Z.pos n * 2 ^ (53 - d)).
  { unfold shl_align. rewrite Z.sub_0_r.
    destruct (d - 53) as [|q|q] eqn:Hq; [| lia |].
    - exists n. split; [reflexivity|]. replace (53 - d) with 0 by lia. lia.
    - exists (Pos.iter xO n q). split; [reflexivity|].
      rewrite iter_xO. f_equal. f_equal. lia. }
  destruct Hal as (M & -> & HM). exists M. split; [|exact HM].
  assert (HdM : Zdigits2 (Z.pos M) = 53).
  { rewrite HM, Zdigits2_shift by lia. fold d. lia. }
  rewrite <- (loc_of_integer (Z.pos M)).
  destruct (binary_round_aux_canon (Z.pos M) (d - 53) (Z.pos M) 1) as (Hz & HE & ->);
    try lia.
  - symmetry. apply Z.div_1_r.
  - rewrite HdM.
    replace (Z.max (d - 53) (fexp prec emax (53 + (d - 53)))) with (d - 53)
      by (rewrite fexp_eq; lia).
    rewrite Z.sub_diag, Z.mul_1_r. change (2 ^ 0) with 1.
    rewrite <- (Z.mul_1_r (Z.pos M)) at 1. rewrite rne_exact by lia.
    unfold canon.
    destruct (Z.eqb_spec (Z.pos M) 9007199254740992) as [E|_]; [|reflexivity].
    exfalso. pose proof (Zdigits2_upper (Z.pos M) ltac:(lia)) as Hu.
    rewrite HdM in Hu. change (2 ^ 53) with 9007199254740992 in Hu. lia.
Qed.

Lemma loc_of_scale a N D : 0 < a -> 0 < D -> loc_of (a * N) (a * D) = loc_of N D.
Proof.
  intros Ha HD. unfold loc_of. rewrite Zmult_mod_distr_l.
  replace (2 * (a * (N mod D))) with (a * (2 * (N mod D))) by lia.
  rewrite <- (Zmult_compare_compat_l (2 * (N mod D)) D a) by lia.
  pose proof (Z.mod_pos_bound N D HD).
  destruct (Z.eqb_spec (N mod D) 0) as [->|Hne].
  - rewrite Z.mul_0_r. reflexivity.
  - destruct (Z.eqb_spec (a * (N mod D)) 0); [nia|reflexivity].
Qed.

(** What [SFdiv] hands to [binary_round_aux]. *)
Lemma div_core (M1 M2 : positive) e1 e2 :
  let e' := Z.min (fexp prec emax (Zdigits2 (Z.pos M1) + e1 - (Zdigits2 (Z.pos M2) + e2)))
                  (e1 - e2) in
  let N := Z.pos M1 * 2 ^ (e1 - e2 - e') in
  div (S754_finite false M1 e1) (S754_finite false M2 e2)
  = binary_round_aux prec emax false (N / Z.pos M2) e' (loc_of N (Z.pos M2)).
Proof.
  intros e' N. unfold div, SFdiv, SFdiv_core_binary. cbv zeta. simpl xorb. fold e'.
  assert (Hs : 0 <= e1 - e2 - e') by (unfold e'; lia).
  assert (Hm' : match e1 - e2 - e' with
                | Z.pos _ => Z.shiftl (Z.pos M1) (e1 - e2 - e')
                | 0 => Z.pos M1
                | Z.neg _ => 0
                end = N).
  { unfold N. destruct (e1 - e2 - e') as [|s|s] eqn:Hse; [simpl; lia| |lia].
    apply Z.shiftl_mul_pow2. lia. }
  rewrite Hm'.
  assert (Hde : Z.div_eucl N (Z.pos M2) = (N / Z.pos M2, N mod Z.pos M2)).
  { unfold Z.div, Z.modulo. destruct (Z.div_eucl N (Z.pos M2)); reflexivity. }
  rewrite Hde, new_location_loc_of by lia. reflexivity.
Qed.

(** Division of two counts: the canonical values and the pairs of mantissa
    and exponent 0 give the same float. *)
Lemma div_canonical (n1 n2 M1 M2 : positive) :
  Z.pos n1 < 2 ^ 53 -> Z.pos n2 < 2 ^ 53 ->
  Z.pos M1 = Z.pos n1 * 2 ^ (53 - Zdigits2 (Z.pos n1)) ->
  Z.pos M2 = Z.pos n2 * 2 ^ (53 - Zdigits2 (Z.pos n2)) ->
  div (S754_finite false M1 (Zdigits2 (Z.pos n1) - 53))
      (S754_finite false M2 (Zdigits2 (Z.pos n2) - 53))
  = div (S754_finite false n1 0) (S754_finite false n2 0).
Proof.
  intros H1 H2 HM1 HM2.
  assert (Hd1 : 1 <= Zdigits2 (Z.pos n1) <= 53) by (split; [simpl; lia|apply Zdigits2_le; lia]).
  assert (Hd2 : 1 <= Zdigits2 (Z.pos n2) <= 53) by (split; [simpl; lia|apply Zdigits2_le; lia]).
  rewrite !div_core. cbv zeta.
  assert (HdM1 : Zdigits2 (Z.pos M1) = 53) by (rewrite HM1, Zdigits2_shift by lia; lia).
  assert (HdM2 : Zdigits2 (Z.pos M2) = 53) by (rewrite HM2, Zdigits2_shift by lia; lia).
  rewrite HdM1, HdM2.
  set (d1 := Zdigits2 (Z.pos n1)) in *. set (d2 := Zdigits2 (Z.pos n2)) in *.
  replace (Z.min (fexp prec emax (53 + (d1 - 53) - (53 + (d2 - 53)))) (d1 - 53 - (d2 - 53)))
    with (d1 - d2 - 53) by (rewrite fexp_eq; lia).
  replace (Z.min (fexp prec emax (d1 + 0 - (d2 + 0))) (0 - 0))
    with (d1 - d2 - 53) by (rewrite fexp_eq; lia).
  replace (d1 - 53 - (d2 - 53) - (d1 - d2 - 53)) with 53 by lia.
  replace (0 - 0 - (d1 - d2 - 53)) with (53 + d2 - d1) by lia.
  set (K := 2 ^ (53 - d2)).
  assert (HK : 0 < K) by (apply Z.pow_pos_nonneg; lia).
  assert (HN : Z.pos M1 * 2 ^ 53 = K * (Z.pos n1 * 2 ^ (53 + d2 - d1))).
  { rewrite HM1. unfold K. rewrite (Z.mul_comm (2 ^ (53 - d2))), <- !Z.mul_assoc.
    f_equal. rewrite <- !Z.pow_add_r by lia. f_equal. lia. }
  assert (HD : Z.pos M2 = K * Z.pos n2) by (rewrite HM2; unfold K; ring).
  rewrite HN, HD.
  rewrite Z.div_mul_cancel_l, loc_of_scale by lia. reflexivity.
Qed.

(** The quotient of a count by a larger count below [2 ^ 53] is a normal
    number: its mantissa has 53 bits. *)
Lemma div_ofNat_normal (c m : positive) :
  (c <= m)%positive -> Z.pos m < 2 ^ 53 ->
  exists mq eq,
    div (S754_finite false c 0) (S754_finite false m 0) = S754_finite false mq eq /\
    2 ^ 52 <= Z.pos mq < 2 ^ 53 /\ -1074 <= eq <= 0.
Proof.
  intros Hcm Hm. rewrite div_core. cbv zeta.
  set (d1 := Zdigits2 (Z.pos c)). set (d2 := Zdigits2 (Z.pos m)).
  pose proof (Zdigits2_upper (Z.pos c) ltac:(lia)) as Hc1. fold d1 in Hc1.
  pose proof (Zdigits2_lower (Z.pos c) ltac:(lia)) as Hc0. fold d1 in Hc0.
  pose proof (Zdigits2_upper (Z.pos m) ltac:(lia)) as Hm1. fold d2 in Hm1.
  assert (Hd1 : 1 <= d1) by (unfold d1; simpl; lia).
  assert (Hd2 : d2 <= 53) by (apply Zdigits2_le; lia).
  assert (Hd12 : d1 <= d2).
  { pose proof (Zdigits2_nonneg (Z.pos m)) as Hn. fold d2 in Hn.
    apply Zdigits2_le; lia. }
  replace (Z.min (fexp prec emax (d1 + 0 - (d2 + 0))) (0 - 0))
    with (d1 - d2 - 53) by (rewrite fexp_eq; lia).
  replace (0 - 0 - (d1 - d2 - 53)) with (53 + d2 - d1) by lia.
  set (e' := d1 - d2 - 53).
  set (N := Z.pos c * 2 ^ (53 + d2 - d1)).
  set (q := N / Z.pos m).
  assert (H2s : 0 < 2 ^ (53 + d2 - d1)) by (apply Z.pow_pos_nonneg; lia).
  assert (HNlo : 2 ^ 52 * Z.pos m <= N).
  { unfold N.
    assert (2 ^ 52 * 2 ^ d2 = 2 ^ (d1 - 1) * 2 ^ (53 + d2 - d1)).
    { rewrite <- !Z.pow_add_r by lia. f_equal. lia. }
    assert (0 < 2 ^ 52) by (apply Z.pow_pos_nonneg; lia).
    nia. }
  assert (HNhi : N <= 2 ^ (53 + d2 - d1) * Z.pos m) by (unfold N; nia).
  assert (Hqlo : 2 ^ 52 <= q) by (apply Z.div_le_lower_bound; lia).
  assert (Hqhi : q <= 2 ^ (53 + d2 - d1)).
  { apply Z.div_le_upper_bound; [lia|]. rewrite Z.mul_comm. exact HNhi. }
  pose proof (Zdigits2_upper q ltac:(lia)) as Hq1.
  pose proof (Zdigits2_lower q ltac:(lia)) as Hq0.
  assert (Hdq : 53 <= Zdigits2 q <= 54 + d2 - d1).
  { split.
    - destruct (Z_lt_le_dec (Zdigits2 q) 53) as [Hlt|]; [|assumption].
      assert (2 ^ Zdigits2 q <= 2 ^ 52) by (apply Z.pow_le_mono_r; lia). lia.
    - apply Zdigits2_le; [lia|lia|].
      replace (54 + d2 - d1) with (53 + d2 - d1 + 1) by lia.
      rewrite Z.pow_add_r by lia. change (2 ^ 1) with 2. lia. }
  destruct (binary_round_aux_canon q e' N (Z.pos m)) as (Hz & HE & ->);
    try (unfold e'; lia); try reflexivity.
  set (E := Z.max e' (fexp prec emax (Zdigits2 q + e'))) in *.
  assert (HEq : E - e' = Zdigits2 q - 53) by (unfold E, e'; rewrite fexp_eq; lia).
  rewrite HEq in *.
  set (z := rne N (2 ^ (Zdigits2 q - 53) * Z.pos m)) in *.
  assert (H2n : 0 < 2 ^ (Zdigits2 q - 53)) by (apply Z.pow_pos_nonneg; lia).
  assert (Hzlo : 2 ^ 52 <= z).
  { apply rne_ge; [nia|].
    assert (2 ^ 52 * 2 ^ (Zdigits2 q - 53) = 2 ^ (Zdigits2 q - 1)).
    { rewrite <- Z.pow_add_r by lia. f_equal. lia. }
    assert (q * Z.pos m <= N).
    { unfold q. rewrite Z.mul_comm. apply Z.mul_div_le. lia. }
    nia. }
  change (2 ^ 52) with 4503599627370496 in *.
  change (2 ^ 53) with 9007199254740992 in *.
  unfold canon. destruct z as [|p|p] eqn:Hzp; [lia| |lia].
  assert (HEle : E <= 0) by (unfold E, e'; rewrite fexp_eq; lia).
  destruct (Z.eqb_spec (Z.pos p) 9007199254740992) as [Ez|Ez].
  - exists 4503599627370496%positive, (E + 1). split; [reflexivity|]. split; [lia|].
    (* the quotient rounds up to a power of two only below the bound *)
    assert (E <= -1); [|lia].
    unfold E, e'. rewrite fexp_eq.
    assert (Zdigits2 q <= 53 + d2 - d1); [|lia].
    destruct (Z.eq_dec (Zdigits2 q) (54 + d2 - d1)) as [Hd|]; [|lia]. exfalso.
    assert (Hq2 : q = 2 ^ (53 + d2 - d1)).
    { replace (Zdigits2 q - 1) with (53 + d2 - d1) in Hq0 by lia. lia. }
    assert (Hzle : z <= 2 ^ 52).
    { apply rne_le; [nia|]. rewrite Hd.
      replace (54 + d2 - d1 - 53) with (1 + d2 - d1) by lia.
      assert (2 ^ 52 * 2 ^ (1 + d2 - d1) = 2 ^ (53 + d2 - d1)).
      { rewrite <- Z.pow_add_r by lia. f_equal. lia. }
      nia. }
    change (2 ^ 52) with 4503599627370496 in Hzle. lia.
  - exists p, E. split; [reflexivity|]. lia.
Qed.

(** Multiplication of a normal number by one hundred: the canonical 100
    and the pair of mantissa 100 and exponent 0 give the same float. *)
Lemma mul_canonical (mq : positive) eq :
  2 ^ 52 <= Z.pos mq < 2 ^ 53 -> -1074 <= eq <= 0 ->
  mul (S754_finite false mq eq) (S754_finite false 7036874417766400 (-46))
  = mul (S754_finite false mq eq) (S754_finite false 100 0).
Proof.
  intros Hmq Heq.
  change (mul (S754_finite false mq eq) (S754_finite false 7036874417766400 (-46)))
    with (binary_round_aux prec emax false (Z.pos (mq * 7036874417766400)) (eq + -46) loc_Exact).
  change (mul (S754_finite false mq eq) (S754_finite false 100 0))
    with (binary_round_aux prec emax false (Z.pos (mq * 100)) (eq + 0) loc_Exact).
  rewrite Z.add_0_r.
  set (N := Z.pos (mq * 100)).
  assert (HN : Z.pos (mq * 7036874417766400) = N * 2 ^ 46).
  { unfold N. rewrite !Pos2Z.inj_mul. change (2 ^ 46) with 70368744177664. lia. }
  rewrite HN.
  change (2 ^ 52) with 4503599627370496 in Hmq.
  change (2 ^ 53) with 9007199254740992 in Hmq.
  assert (HNb : 2 ^ 58 <= N < 2 ^ 60).
  { unfold N. rewrite Pos2Z.inj_mul.
    change (2 ^ 58) with 288230376151711744. change (2 ^ 60) with 1152921504606846976. lia. }
  assert (HdN : 59 <= Zdigits2 N <= 60).
  { pose proof (Zdigits2_upper N ltac:(lia)) as Hu. split.
    - destruct (Z_lt_le_dec (Zdigits2 N) 59) as [Hlt|]; [|assumption].
      assert (2 ^ Zdigits2 N <= 2 ^ 58)
        by (apply Z.pow_le_mono_r; [lia|]; pose proof (Zdigits2_nonneg N); lia).
      lia.
    - apply Zdigits2_le; lia. }
  rewrite <- (loc_of_integer (N * 2 ^ 46)) at 1. rewrite <- (loc_of_integer N).
  destruct (binary_round_aux_canon (N * 2 ^ 46) (eq + -46) (N * 2 ^ 46) 1) as (_ & _ & ->);
    try lia; try (symmetry; apply Z.div_1_r).
  { rewrite Zdigits2_shift by lia. lia. }
  destruct (binary_round_aux_canon N eq N 1) as (_ & _ & ->);
    try lia; try (symmetry; apply Z.div_1_r).
  rewrite Zdigits2_shift by lia.
  replace (Zdigits2 N + 46 + (eq + -46)) with (Zdigits2 N + eq) by lia.
  set (F := fexp prec emax (Zdigits2 N + eq)).
  assert (HF : eq <= F) by (unfold F; rewrite fexp_eq; lia).
  rewrite !Z.max_r by lia.
  f_equal. rewrite !Z.mul_1_r.
  replace (F - (eq + -46)) with (46 + (F - eq)) by lia.
  rewrite Z.pow_add_r by lia.
  rewrite (Z.mul_comm N). apply rne_scale; [lia|apply Z.pow_pos_nonneg; lia].
Qed.

(** On counts below [2 ^ 53], [percent] is the computation on the
    canonical binary64 values of the counts and of 100. *)
Theorem percent_canonical (a b : nat) :
  (0 < b)%nat -> (a <= b)%nat -> Z.of_nat b < 2 ^ 53 ->
  Math_round (mul (div (canonical a) (canonical b)) (canonical 100)) = percent a b.
Proof.
  intros Hb Hab Hlt. unfold percent, canonical.
  change (binary_normalize prec emax (Z.of_nat 100) 0 false)
    with (S754_finite false 7036874417766400 (-46)).
  change (ofNat 100) with (S754_finite false 100 0).
  rewrite (ofNat_pos b Hb).
  assert (HB : Z.of_nat b = Z.pos (Pos.of_nat b)).
  { rewrite <- positive_nat_Z, Nat2Pos.id by lia. reflexivity. }
  rewrite HB in *.
  destruct (canonical_pos (Pos.of_nat b) Hlt) as (M2 & -> & HM2).
  destruct a as [|a'].
  - reflexivity.
  - rewrite (ofNat_pos (S a')) by lia.
    assert (HA : Z.of_nat (S a') = Z.pos (Pos.of_nat (S a'))).
    { rewrite <- positive_nat_Z, Nat2Pos.id by lia. reflexivity. }
    rewrite HA.
    assert (Hle : (Pos.of_nat (S a') <= Pos.of_nat b)%positive).
    { apply Pos2Nat.inj_le. rewrite !Nat2Pos.id by lia. lia. }
    assert (Hlt' : Z.pos (Pos.of_nat (S a')) < 2 ^ 53) by lia.
    destruct (canonical_pos (Pos.of_nat (S a')) Hlt') as (M1 & -> & HM1).
    rewrite (div_canonical _ _ M1 M2 Hlt' Hlt HM1 HM2).
    destruct (div_ofNat_normal _ _ Hle Hlt) as (mq & eq & -> & Hmq & Heq).
    rewrite mul_canonical by assumption. reflexivity.
Qed.

End Binary64.

(** ** Code units *)

Section CodeUnits.

Ltac by_cases_on c :=
  destruct c as [[|] [|] [|] [|] [|] [|] [|] [|]]; vm_compute; try reflexivity; try congruence.

Lemma toLowerUnit_whitespace c : isWhiteSpace (toLowerUnit c) = isWhiteSpace c.
Proof. by_cases_on c. Qed.

(** No code unit is mapped to a capital ASCII letter. *)
Lemma toLowerUnit_letter c :
  isAsciiLetter (toLowerUnit c) = true -> isLowerAsciiLetter (toLowerUnit c) = true.
Proof. by_cases_on c. Qed.

Lemma toLowerUnit_lower c : isLowerAsciiLetter c = true -> toLowerUnit c = c.
Proof. by_cases_on c. Qed.

Lemma lower_letter_plain c :
  isLowerAsciiLetter c = true ->
  isAsciiLetter c = true /\ isDigit c = false /\ isPunctuation c = false /\
  isWhiteSpace c = false.
Proof. by_cases_on c; auto. Qed.

End CodeUnits.

(** ** Splitting and trimming *)

Section Strings.

Variable delim : ascii -> bool.

Lemma splitRuns_map (f : ascii -> ascii) :
  (forall c, delim (f c) = delim c) ->
  forall s inRun tok,
    splitRuns delim inRun (map f tok) (map f s)
    = map (map f) (splitRuns delim inRun tok s).
Proof.
  intros Hf. induction s as [|c rest IH]; intros inRun tok; simpl.
  - reflexivity.
  - rewrite Hf. destruct (delim c).
    + destruct inRun; simpl; rewrite <- (IH true []); reflexivity.
    + rewrite <- IH, map_app. reflexivity.
Qed.

(** The scan yields the fragments of the specification: from a token
    under construction, and from inside a run. *)
Lemma splitRuns_SplitsInto s :
  (forall tok, Forall (fun c => delim c = false) tok ->
               SplitsInto delim (tok ++ s) (splitRuns delim false tok s)) /\
  (exists run rest,
      s = run ++ rest /\ Forall (fun c => delim c = true) run /\
      (forall c rest', rest = c :: rest' -> delim c = false) /\
      SplitsInto delim rest (splitRuns delim true [] s)).
Proof.
  induction s as [|c s' [IH1 IH2]].
  - split.
    + intros tok Htok. rewrite app_nil_r. simpl. constructor. exact Htok.
    + exists [], []. repeat split; auto.
      * intros c rest' H. discriminate.
      * simpl. constructor. constructor.
  - destruct (delim c) eqn:Hc.
    + destruct IH2 as (run & rest & Hs & Hrun & Hrest & Hsplit).
      split.
      * intros tok Htok. simpl. rewrite Hc.
        replace (tok ++ c :: s') with (tok ++ (c :: run) ++ rest) by (rewrite Hs; reflexivity).
        apply splits_more; auto; discriminate.
      * exists (c :: run), rest. simpl. rewrite Hc.
        repeat split; auto. rewrite Hs. reflexivity.
    + split.
      * intros tok Htok. simpl. rewrite Hc.
        replace (tok ++ c :: s') with ((tok ++ [c]) ++ s') by (rewrite <- app_assoc; reflexivity).
        apply IH1. apply Forall_app. split; auto.
      * exists [], (c :: s'). simpl. rewrite Hc.
        repeat split; auto.
        -- intros c0 rest' H. inversion H; subst. exact Hc.
        -- apply (IH1 [c]). auto.
Qed.

Lemma split_SplitsInto s : SplitsInto delim s (split delim s).
Proof. apply (proj1 (splitRuns_SplitsInto s) []). constructor. Qed.

Lemma SplitsInto_clean s fragments :
  SplitsInto delim s fragments ->
  Forall (Forall (fun c => delim c = false)) fragments.
Proof. induction 1; constructor; auto. Qed.

(** The fragments of a text are fixed by the specification. *)
Lemma SplitsInto_unique s fragments1 :
  SplitsInto delim s fragments1 ->
  forall fragments2, SplitsInto delim s fragments2 -> fragments1 = fragments2.
Proof.
  assert (Hprefix : forall (f1 f2 r1 r2 : jsstring),
             Forall (fun c => delim c = false) f1 ->
             Forall (fun c => delim c = false) f2 ->
             (forall c r, r1 = c :: r -> delim c = true) ->
             (forall c r, r2 = c :: r -> delim c = true) ->
             f1 ++ r1 = f2 ++ r2 -> f1 = f2 /\ r1 = r2).
  { induction f1 as [|a f1 IH]; intros f2 r1 r2 H1 H2 Hr1 Hr2 E.
    - destruct f2 as [|b f2]; [auto|]. simpl in E.
      apply Forall_cons in H2. destruct H2 as [Hb _].
      rewrite (Hr1 b (f2 ++ r2) E) in Hb. discriminate.
    - destruct f2 as [|b f2]; simpl in E.
      + apply Forall_cons in H1. destruct H1 as [Ha _].
        rewrite (Hr2 a (f1 ++ r1) (eq_sym E)) in Ha. discriminate.
      + injection E as -> E. apply Forall_cons in H1, H2.
        destruct H1 as [_ H1], H2 as [_ H2].
        destruct (IH f2 r1 r2 H1 H2 Hr1 Hr2 E) as [-> ->]. auto. }
  assert (Hrun : forall (u1 u2 r1 r2 : jsstring),
             Forall (fun c => delim c = true) u1 ->
             Forall (fun c => delim c = true) u2 ->
             (forall c r, r1 = c :: r -> delim c = false) ->
             (forall c r, r2 = c :: r -> delim c = false) ->
             u1 ++ r1 = u2 ++ r2 -> u1 = u2 /\ r1 = r2).
  { induction u1 as [|a u1 IH]; intros u2 r1 r2 H1 H2 Hr1 Hr2 E.
    - destruct u2 as [|b u2]; [auto|]. simpl in E.
      apply Forall_cons in H2. destruct H2 as [Hb _].
      rewrite (Hr1 b (u2 ++ r2) E) in Hb. discriminate.
    - destruct u2 as [|b u2]; simpl in E.
      + apply Forall_cons in H1. destruct H1 as [Ha _].
        rewrite (Hr2 a (u1 ++ r1) (eq_sym E)) in Ha. discriminate.
      + injection E as -> E. apply Forall_cons in H1, H2.
        destruct H1 as [_ H1], H2 as [_ H2].
        destruct (IH u2 r1 r2 H1 H2 Hr1 Hr2 E) as [-> ->]. auto. }
  induction 1 as [f Hf|f run rest frags Hf Hne Hrun1 Hrest _ IH]; intros fragments2 H2.
  - inversion H2 as [f2 Hf2 E1 E2|f2 run2 rest2 frags2 Hf2 Hne2 Hrun2 Hrest2 Hsp2 E1 E2]; subst.
    + reflexivity.
    + exfalso. destruct run2 as [|b run2]; [congruence|].
      apply Forall_cons in Hrun2. destruct Hrun2 as [Hb _].
      assert (Hin : In b (f2 ++ (b :: run2) ++ rest2)).
      { apply in_or_app. right. left. reflexivity. }
      rewrite Forall_forall in Hf. rewrite (Hf b) in Hb; [discriminate|].
      apply list_elem_of_In. exact Hin.
  - inversion H2 as [f2 Hf2 E1 E2|f2 run2 rest2 frags2 Hf2 Hne2 Hrun2 Hrest2 Hsp2 E1 E2]; subst.
    + exfalso. destruct run as [|b run]; [congruence|].
      apply Forall_cons in Hrun1. destruct Hrun1 as [Hb _].
      assert (Hin : In b (f ++ (b :: run) ++ rest)).
      { apply in_or_app. right. left. reflexivity. }
      rewrite Forall_forall in Hf2. rewrite (Hf2 b) in Hb; [discriminate|].
      apply list_elem_of_In. exact Hin.
    + destruct (Hprefix f f2 (run ++ rest) (run2 ++ rest2)) as [-> E]; auto.
      * intros c r Hr. destruct run as [|b run]; [congruence|].
        apply Forall_cons in Hrun1. destruct Hrun1 as [Hb _].
        simpl in Hr. injection Hr as <- _. exact Hb.
      * intros c r Hr. destruct run2 as [|b run2]; [congruence|].
        apply Forall_cons in Hrun2. destruct Hrun2 as [Hb _].
        simpl in Hr. injection Hr as <- _. exact Hb.
      * destruct (Hrun run run2 rest rest2) as [-> ->]; auto.
        f_equal. apply IH. exact Hsp2.
Qed.

End Strings.

Section Trimming.

Variable p : ascii -> bool.

Lemma dropWhile_split s :
  exists dropped, s = dropped ++ dropWhile p s /\ Forall (fun c => p c = true) dropped.
Proof.
  induction s as [|c rest (dropped & E & H)]; simpl.
  - exists []. auto.
  - destruct (p c) eqn:Hc.
    + exists (c :: dropped). split; [simpl; congruence|auto].
    + exists []. auto.
Qed.

Lemma dropWhile_head s c rest : dropWhile p s = c :: rest -> p c = false.
Proof.
  induction s as [|a s' IH]; simpl; [discriminate|].
  destruct (p a) eqn:Ha; [exact IH|]. intros E. injection E as <- _. exact Ha.
Qed.

End Trimming.

Lemma trim_split s :
  exists front back,
    s = front ++ trim s ++ back /\
    Forall (fun c => isWhiteSpace c = true) front /\
    Forall (fun c => isWhiteSpace c = true) back.
Proof.
  unfold trim, trimEnd, trimStart.
  destruct (dropWhile_split isWhiteSpace s) as (front & E1 & H1).
  destruct (dropWhile_split isWhiteSpace (rev (dropWhile isWhiteSpace s))) as (back & E2 & H2).
  exists front, (rev back). split; [|split; [exact H1|]].
  - rewrite <- rev_app_distr, <- E2, rev_involutive. exact E1.
  - apply Forall_rev. exact H2.
Qed.

Lemma trim_Trimmed s : Trimmed (trim s).
Proof.
  split.
  - intros c rest E.
    destruct (trim_split (trimStart s)) as (front & back & E' & Hf & _).
    assert (Htt : trim (trimStart s) = trim s).
    { unfold trim, trimStart.
      destruct (dropWhile isWhiteSpace s) as [|a t] eqn:Hd; [reflexivity|].
      simpl. rewrite (dropWhile_head _ _ _ _ Hd). reflexivity. }
    rewrite Htt, E in E'. unfold trimStart in E'.
    destruct front as [|b front].
    + simpl in E'. apply (dropWhile_head _ _ _ _ E').
    + apply Forall_cons in Hf. destruct Hf as [Hb _].
      simpl in E'. rewrite (dropWhile_head _ _ _ _ E') in Hb. discriminate.
  - intros c front E. unfold trim, trimEnd in E.
    apply (f_equal (@rev ascii)) in E.
    rewrite rev_involutive, rev_app_distr in E. simpl in E.
    apply (dropWhile_head _ _ _ _ E).
Qed.

Lemma trim_Forall (P : ascii -> Prop) s : Forall P s -> Forall P (trim s).
Proof.
  intros H. destruct (trim_split s) as (front & back & E & _ & _).
  rewrite E in H. apply Forall_app in H. destruct H as [_ H].
  apply Forall_app in H. destruct H as [H _]. exact H.
Qed.

(** ** The tokenizer *)

Lemma includes_In l x : includes l x = true <-> In x l.
Proof.
  unfold includes, jsstring_eqb. rewrite existsb_exists. split.
  - intros (y & Hy & E). apply bool_decide_eq_true in E. subst. exact Hy.
  - intros H. exists x. split; [exact H|]. apply bool_decide_eq_true. reflexivity.
Qed.

Lemma stopWords_lower stop : In stop stopWords -> toLowerCase stop = stop.
Proof.
  assert (H : forallb (fun s => jsstring_eqb (toLowerCase s) s) stopWords = true)
    by (vm_compute; reflexivity).
  rewrite forallb_forall in H. intros Hin.
  specialize (H stop Hin). unfold jsstring_eqb in H.
  apply bool_decide_eq_true in H. exact H.
Qed.

Lemma split_toLowerCase text :
  split isWhiteSpace (toLowerCase text) = map toLowerCase (split isWhiteSpace text).
Proof.
  unfold split, toLowerCase.
  apply (splitRuns_map isWhiteSpace toLowerUnit toLowerUnit_whitespace text false []).
Qed.

Lemma getSignificantWords_In text word :
  In word (getSignificantWords text) <->
  In word (split isWhiteSpace (toLowerCase text)) /\
  (MIN_WORD_LENGTH <= length word)%nat /\
  isStopWord word = false /\
  testAlphabetic word = true.
Proof.
  unfold getSignificantWords. rewrite filter_In, !andb_true_iff, negb_true_iff, Nat.leb_le.
  tauto.
Qed.

(** Every code unit of a lower-cased token is lower-cased. *)
Lemma token_lowered text token :
  In token (split isWhiteSpace (toLowerCase text)) ->
  exists raw, token = toLowerCase raw.
Proof.
  rewrite split_toLowerCase, in_map_iff. intros (raw & E & _). exists raw. auto.
Qed.

Lemma significant_word_lower text word :
  In word (getSignificantWords text) ->
  Forall (fun c => isLowerAsciiLetter c = true) word.
Proof.
  rewrite getSignificantWords_In. intros (Htok & _ & _ & Halpha).
  destruct (token_lowered _ _ Htok) as (raw & ->).
  unfold testAlphabetic in Halpha. apply andb_true_iff in Halpha.
  destruct Halpha as [_ Hall]. rewrite forallb_forall in Hall.
  apply Forall_forall. intros c Hc. apply list_elem_of_In in Hc.
  specialize (Hall c Hc). unfold toLowerCase in Hc. apply in_map_iff in Hc.
  destruct Hc as (c0 & <- & _). apply toLowerUnit_letter. exact Hall.
Qed.

Lemma toLowerCase_lower word :
  Forall (fun c => isLowerAsciiLetter c = true) word -> toLowerCase word = word.
Proof.
  unfold toLowerCase. induction 1 as [|c w Hc _ IH]; [reflexivity|].
  simpl. rewrite IH, toLowerUnit_lower by assumption. reflexivity.
Qed.

(** C2, as amended: every token that [getSignificantWords] returns is one
    of the white-space separated tokens of the lower-cased text, unchanged;
    it has at least three code units, all of them letters a-z, so that it
    holds no digit and no punctuation mark; and it matches no stop word,
    whatever the case.  A token that holds a digit or a punctuation mark is
    dropped as a whole.  [getSignificantWords("The Quick fox runs.")] is
    [["quick"; "fox"]]: the token "runs." ends with a full stop and is
    dropped. *)
Theorem getSignificantWords_tokens :
  (forall text word,
      In word (getSignificantWords text) ->
      In word (split isWhiteSpace (toLowerCase text)) /\
      (3 <= length word)%nat /\
      Forall (fun c => isLowerAsciiLetter c = true /\
                       isDigit c = false /\ isPunctuation c = false) word /\
      (forall stop, In stop stopWords -> toLowerCase word <> toLowerCase stop)) /\
  (forall text token,
      Exists (fun c => isDigit c = true \/ isPunctuation c = true) token ->
      ~ In token (getSignificantWords text)) /\
  getSignificantWords (str "The Quick fox runs.") = [str "quick"; str "fox"].
Proof.
  split; [|split].
  - intros text word Hin.
    pose proof (significant_word_lower text word Hin) as Hlow.
    apply getSignificantWords_In in Hin. destruct Hin as (Htok & Hlen & Hstop & _).
    split; [exact Htok|]. split; [exact Hlen|]. split.
    + eapply Forall_impl; [exact Hlow|]. intros c Hc.
      destruct (lower_letter_plain c Hc) as (_ & Hd & Hp & _). auto.
    + intros stop Hs E.
      rewrite (toLowerCase_lower word Hlow) in E.
      rewrite (stopWords_lower stop Hs) in E. subst stop.
      apply includes_In in Hs. unfold isStopWord, Set_has in Hstop. congruence.
  - intros text token Hex Hin.
    pose proof (significant_word_lower text token Hin) as Hlow.
    apply Exists_exists in Hex. destruct Hex as (c & Hc & Hbad).
    rewrite Forall_forall in Hlow. specialize (Hlow c Hc).
    destruct (lower_letter_plain c Hlow) as (_ & Hd & Hp & _).
    destruct Hbad; congruence.
  - vm_compute. reflexivity.
Qed.

Lemma getSignificantWords_tokens_witness :
  In (str "fox") (split isWhiteSpace (toLowerCase (str "The Quick fox runs."))) /\
  (3 <= length (str "fox"))%nat /\
  Forall (fun c => isLowerAsciiLetter c = true /\
                   isDigit c = false /\ isPunctuation c = false) (str "fox") /\
  (forall stop, In stop stopWords -> toLowerCase (str "fox") <> toLowerCase stop).
Proof.
  apply (proj1 getSignificantWords_tokens (str "The Quick fox runs.") (str "fox")).
  vm_compute. auto.
Defined.

(** C2, as the specification states it, is false on its own example: the code
    returns two words, not three. *)
Lemma getSignificantWords_example_differs :
  getSignificantWords (str "The Quick fox runs.") = [str "quick"; str "fox"] /\
  getSignificantWords (str "The Quick fox runs.") <> [str "quick"; str "fox"; str "runs"].
Proof. split; vm_compute; [reflexivity|discriminate]. Qed.

Lemma filter_map_length_le {A B : Type} (f : A -> B) (P : B -> bool) (Q : A -> bool) l :
  (forall x, P (f x) = true -> Q x = true) ->
  (length (List.filter P (map f l)) <= length (List.filter Q l))%nat.
Proof.
  intros H. induction l as [|x l IH]; [reflexivity|].
  cbn [map List.filter]. destruct (P (f x)) eqn:HP.
  - rewrite (H x HP). cbn [length]. lia.
  - destruct (Q x); cbn [length]; lia.
Qed.

(** C10: [getSignificantWords] never returns more tokens than
    [getWordCount] counts. *)
Theorem significant_words_le_wordCount text :
  (length (getSignificantWords text) <= getWordCount text)%nat.
Proof.
  unfold getSignificantWords, getWordCount. rewrite split_toLowerCase.
  apply filter_map_length_le. intros token H.
  rewrite !andb_true_iff in H. destruct H as [[Hlen _] _].
  apply Nat.leb_le in Hlen. apply Nat.ltb_lt.
  unfold toLowerCase, MIN_WORD_LENGTH in Hlen. rewrite length_map in Hlen. lia.
Qed.

(** ** Sentences *)

(** C9: [extractSentences] splits the text on the runs of '.', '!' and
    '?' (the fragments are those of [SplitsInto], which are unique), trims
    each fragment, and keeps, in their order, exactly the trimmed
    fragments of length 15 or more.  A returned sentence is a fragment
    less the white space at its two ends: it neither starts nor ends with
    white space, has 15 code units or more, and holds none of the three
    delimiters. *)
Theorem extractSentences_fragments text :
  exists fragments,
    SplitsInto isSentenceDelimiter text fragments /\
    (forall other, SplitsInto isSentenceDelimiter text other -> other = fragments) /\
    extractSentences text
      = List.filter (fun s => (15 <=? length s)%nat) (map trim fragments) /\
    Forall (fun s =>
              (exists fragment front back,
                  In fragment fragments /\
                  fragment = front ++ s ++ back /\
                  Forall (fun c => isWhiteSpace c = true) front /\
                  Forall (fun c => isWhiteSpace c = true) back) /\
              Trimmed s /\
              (15 <= length s)%nat /\
              Forall (fun c => isSentenceDelimiter c = false) s)
           (extractSentences text).
Proof.
  exists (split isSentenceDelimiter text).
  pose proof (split_SplitsInto isSentenceDelimiter text) as Hsplit.
  split; [exact Hsplit|]. split; [|split; [reflexivity|]].
  - intros other Hother. apply (SplitsInto_unique _ _ _ Hother _ Hsplit).
  - apply Forall_forall. intros s Hs. apply list_elem_of_In in Hs.
    unfold extractSentences in Hs. apply filter_In in Hs. destruct Hs as [Hs Hlen].
    apply Nat.leb_le in Hlen. apply in_map_iff in Hs. destruct Hs as (fragment & <- & Hf).
    split; [|split; [apply trim_Trimmed|split; [exact Hlen|]]].
    + destruct (trim_split fragment) as (front & back & E & Hfront & Hback).
      exists fragment, front, back. auto.
    + apply trim_Forall.
      pose proof (SplitsInto_clean _ _ _ Hsplit) as Hclean.
      rewrite Forall_forall in Hclean. apply Hclean. apply list_elem_of_In. exact Hf.
Qed.

(** ** Sets of words *)

Lemma Set_has_In (s : JSSet) x : Set_has s x = true <-> In x s.
Proof. apply includes_In. Qed.

Lemma Set_has_elem_of (s : JSSet) x : Set_has s x = true <-> x ∈ s.
Proof. rewrite Set_has_In, list_elem_of_In. reflexivity. Qed.

Lemma Set_add_fold l :
  forall acc : JSSet,
    NoDup acc ->
    NoDup (fold_left Set_add l acc) /\
    (forall x, x ∈ fold_left Set_add l acc <-> x ∈ acc \/ x ∈ l).
Proof.
  induction l as [|y l IH]; intros acc Hacc; simpl.
  - split; [exact Hacc|]. intros x. rewrite elem_of_nil. tauto.
  - assert (Hadd : NoDup (Set_add acc y) /\ forall x, x ∈ Set_add acc y <-> x ∈ acc \/ x = y).
    { unfold Set_add. destruct (Set_has acc y) eqn:Hy.
      - split; [exact Hacc|]. intros x. apply Set_has_elem_of in Hy. split; [tauto|].
        intros [H| ->]; assumption.
      - assert (Hny : y ∉ acc).
        { intros H. apply Set_has_elem_of in H. congruence. }
        split.
        + apply NoDup_app. split; [exact Hacc|]. split; [|apply NoDup_singleton].
          intros x Hx Hx'. apply list_elem_of_singleton in Hx'. subst. contradiction.
        + intros x. rewrite elem_of_app, list_elem_of_singleton. reflexivity. }
    destruct Hadd as [Hnd Hel]. destruct (IH _ Hnd) as [IH1 IH2].
    split; [exact IH1|]. intros x. rewrite IH2, Hel, elem_of_cons. tauto.
Qed.

Lemma Set_new_NoDup l : NoDup (Set_new l).
Proof. apply (Set_add_fold l []). constructor. Qed.

Lemma Set_new_elem_of l x : x ∈ Set_new l <-> x ∈ l.
Proof.
  unfold Set_new. rewrite (proj2 (Set_add_fold l [] (NoDup_nil_2 (A:=jsstring)))), elem_of_nil. tauto.
Qed.

(** The size of a [Set] built from a list is the number of distinct
    members of the list. *)
Lemma Set_size_new l : Set_size (Set_new l) = size (list_to_set l : gset jsstring).
Proof.
  unfold Set_size. rewrite <- (size_list_to_set (C := gset jsstring)) by apply Set_new_NoDup.
  f_equal. apply set_eq. intros x. rewrite !elem_of_list_to_set. apply Set_new_elem_of.
Qed.

Lemma intersection_size words1 words2 :
  Set_size (Set_new (List.filter (fun x => Set_has (Set_new words2) x)
                                 (Set_values (Set_new words1))))
  = size ((list_to_set words1 : gset jsstring) ∩ list_to_set words2).
Proof.
  rewrite Set_size_new. f_equal. apply set_eq. intros x.
  rewrite elem_of_intersection, !elem_of_list_to_set, list_elem_of_In, filter_In.
  rewrite Set_has_elem_of, <- list_elem_of_In. unfold Set_values.
  rewrite !Set_new_elem_of. reflexivity.
Qed.

Lemma union_size words1 words2 :
  Set_size (Set_new (Set_values (Set_new words1) ++ Set_values (Set_new words2)))
  = size ((list_to_set words1 : gset jsstring) ∪ list_to_set words2).
Proof.
  rewrite Set_size_new. f_equal. apply set_eq. intros x.
  rewrite elem_of_union, !elem_of_list_to_set, elem_of_app. unfold Set_values.
  rewrite !Set_new_elem_of. reflexivity.
Qed.

Lemma wordSet_empty text : wordSet text = ∅ <-> getSignificantWords text = [].
Proof.
  unfold wordSet. split.
  - intros H. destruct (getSignificantWords text) as [|w l]; [reflexivity|].
    exfalso. assert (Hw : w ∈ (list_to_set (w :: l) : gset jsstring)).
    { apply elem_of_list_to_set. left. }
    rewrite H in Hw. apply (not_elem_of_empty (C := gset jsstring) w Hw).
  - intros ->. reflexivity.
Qed.

Lemma length_zero_nil {A : Type} (l : list A) : (length l =? 0)%nat = true <-> l = [].
Proof. rewrite Nat.eqb_eq. destruct l; simpl; split; intros; congruence || lia. Qed.

(** ** Similarity of two texts *)

Lemma percent_fold a b :
  Math_round (mul (div (ofNat a) (ofNat b)) (ofNat 100)) = percent a b.
Proof. reflexivity. Qed.

(** [calculateSimilarity] on the sets of significant words. *)
Lemma calculateSimilarity_sets text1 text2 :
  calculateSimilarity text1 text2 =
  if bool_decide (wordSet text1 = ∅ \/ wordSet text2 = ∅) then 0%Z
  else percent (size (wordSet text1 ∩ wordSet text2))
               (size (wordSet text1 ∪ wordSet text2)).
Proof.
  unfold calculateSimilarity. cbv zeta.
  rewrite percent_fold, intersection_size, union_size.
  destruct (length (getSignificantWords text1) =? 0)%nat eqn:H1.
  - apply length_zero_nil, wordSet_empty in H1.
    rewrite bool_decide_eq_true_2 by auto. reflexivity.
  - destruct (length (getSignificantWords text2) =? 0)%nat eqn:H2.
    + apply length_zero_nil, wordSet_empty in H2.
      rewrite bool_decide_eq_true_2 by auto. reflexivity.
    + rewrite bool_decide_eq_false_2; [reflexivity|].
      intros [H|H]; apply wordSet_empty, length_zero_nil in H; congruence.
Qed.

Lemma union_size_pos (A B : gset jsstring) : A <> ∅ -> (0 < size (A ∪ B))%nat.
Proof.
  intros HA. destruct (size (A ∪ B)) eqn:Hs; [|lia].
  apply size_empty_inv in Hs. apply empty_union in Hs. destruct Hs as [Hs _].
  exfalso. apply HA. apply leibniz_equiv. exact Hs.
Qed.

Lemma intersection_le_union (A B : gset jsstring) : (size (A ∩ B) <= size (A ∪ B))%nat.
Proof.
  apply subseteq_size. intros x Hx. apply elem_of_intersection in Hx.
  apply elem_of_union. tauto.
Qed.

(** C7: [calculateSimilarity] is symmetric, and a text with at least one
    significant word is 100 percent similar to itself. *)
Theorem calculateSimilarity_symmetric_reflexive :
  (forall textA textB,
      calculateSimilarity textA textB = calculateSimilarity textB textA) /\
  (forall textA,
      getSignificantWords textA <> [] -> calculateSimilarity textA textA = 100%Z).
Proof.
  split.
  - intros textA textB. rewrite !calculateSimilarity_sets.
    rewrite (comm_L (∩) (wordSet textA)), (comm_L (∪) (wordSet textA)).
    destruct (bool_decide (wordSet textA = ∅ \/ wordSet textB = ∅)) eqn:H.
    + apply bool_decide_eq_true in H. rewrite bool_decide_eq_true_2 by tauto. reflexivity.
    + apply bool_decide_eq_false in H. rewrite bool_decide_eq_false_2 by tauto. reflexivity.
  - intros textA Hne. rewrite calculateSimilarity_sets.
    assert (Hs : wordSet textA <> ∅) by (rewrite wordSet_empty; exact Hne).
    rewrite bool_decide_eq_false_2 by tauto.
    rewrite (idemp_L (∩)), (idemp_L (∪)).
    apply percent_full. pose proof (union_size_pos (wordSet textA) (wordSet textA) Hs) as H.
    rewrite (idemp_L (∪)) in H. exact H.
Qed.

Lemma calculateSimilarity_symmetric_reflexive_witness :
  calculateSimilarity (str "quick brown foxes") (str "quick brown foxes") = 100%Z.
Proof.
  apply (proj2 calculateSimilarity_symmetric_reflexive (str "quick brown foxes")).
  vm_compute. discriminate.
Defined.

(** ** Similarity of two sentences *)

Lemma filter_includes (wordsB wordsA : list jsstring) :
  List.filter (fun word => includes wordsB word) wordsA = filter (fun w => w ∈ wordsB) wordsA.
Proof.
  induction wordsA as [|w l IH]; [reflexivity|].
  rewrite filter_cons. cbn [List.filter]. rewrite IH.
  destruct (includes wordsB w) eqn:Hw.
  - rewrite decide_True; [reflexivity|]. apply list_elem_of_In, includes_In. exact Hw.
  - rewrite decide_False; [reflexivity|].
    intros H. apply list_elem_of_In, includes_In in H. congruence.
Qed.

(** [calculateSentenceSimilarity] on the lists of significant words. *)
Lemma calculateSentenceSimilarity_words sentence1 sentence2 :
  calculateSentenceSimilarity sentence1 sentence2 =
  let words1 := getSignificantWords sentence1 in
  let words2 := getSignificantWords sentence2 in
  if bool_decide (words1 = [] \/ words2 = []) then 0%Z
  else percent (sharedCount words1 words2) (Nat.max (length words1) (length words2)).
Proof.
  unfold calculateSentenceSimilarity, sharedCount. cbv zeta.
  rewrite percent_fold, filter_includes.
  destruct (length (getSignificantWords sentence1) =? 0)%nat eqn:H1.
  - apply length_zero_nil in H1. rewrite bool_decide_eq_true_2 by auto. reflexivity.
  - destruct (length (getSignificantWords sentence2) =? 0)%nat eqn:H2.
    + apply length_zero_nil in H2. rewrite bool_decide_eq_true_2 by auto. reflexivity.
    + rewrite bool_decide_eq_false_2; [reflexivity|].
      intros [H|H]; apply length_zero_nil in H; congruence.
Qed.

Lemma sharedCount_le wordsA wordsB : (sharedCount wordsA wordsB <= length wordsA)%nat.
Proof. unfold sharedCount. apply length_filter. Qed.

(** C8: both similarities are integers between 0 and 100, and both are 0
    when either text has no significant word. *)
Theorem similarities_in_range :
  (forall textA textB,
      (0 <= calculateSimilarity textA textB <= 100)%Z /\
      (0 <= calculateSentenceSimilarity textA textB <= 100)%Z) /\
  (forall textA textB,
      getSignificantWords textA = [] \/ getSignificantWords textB = [] ->
      calculateSimilarity textA textB = 0%Z /\
      calculateSentenceSimilarity textA textB = 0%Z).
Proof.
  split.
  - intros textA textB. split.
    + rewrite calculateSimilarity_sets.
      destruct (bool_decide (wordSet textA = ∅ \/ wordSet textB = ∅)) eqn:H; [lia|].
      apply bool_decide_eq_false in H.
      apply percent_range.
      * apply union_size_pos. tauto.
      * apply intersection_le_union.
    + rewrite calculateSentenceSimilarity_words. cbv zeta.
      destruct (bool_decide (getSignificantWords textA = [] \/ getSignificantWords textB = []))
        eqn:H; [lia|].
      apply bool_decide_eq_false in H.
      pose proof (sharedCount_le (getSignificantWords textA) (getSignificantWords textB)).
      apply percent_range; [|lia].
      destruct (getSignificantWords textA); [tauto|]. simpl. lia.
  - intros textA textB H. split.
    + rewrite calculateSimilarity_sets, bool_decide_eq_true_2; [reflexivity|].
      rewrite !wordSet_empty. exact H.
    + rewrite calculateSentenceSimilarity_words. cbv zeta.
      rewrite bool_decide_eq_true_2; [reflexivity|exact H].
Qed.

Lemma similarities_in_range_witness :
  calculateSimilarity (str "the and") (str "quick brown foxes") = 0%Z /\
  calculateSentenceSimilarity (str "the and") (str "quick brown foxes") = 0%Z.
Proof.
  apply (proj2 similarities_in_range (str "the and") (str "quick brown foxes")).
  left. vm_compute. reflexivity.
Defined.

(** ** The rounded percentage against the exact one *)

Section ExactPercentage.
Local Open Scope Z_scope.

(** An integer within one half of [N / D] is [roundHalfUp N D], or the
    integer below it when [N / D] lies halfway between the two. *)
Lemma nearest_roundHalfUp (r N D : Z) :
  (0 < D)%Z -> (Z.abs (2 * r * D - 2 * N) <= D)%Z ->
  r = roundHalfUp N D \/
  (((2 * N + D) mod (2 * D) = 0)%Z /\ r = (roundHalfUp N D - 1)%Z).
Proof.
  intros HD Hn. unfold roundHalfUp.
  pose proof (Z.div_mod (2 * N + D) (2 * D) ltac:(lia)) as Hdm.
  pose proof (Z.mod_pos_bound (2 * N + D) (2 * D) ltac:(lia)) as Hb.
  set (R := ((2 * N + D) / (2 * D))%Z) in *.
  set (rem := ((2 * N + D) mod (2 * D))%Z) in *.
  assert (Hhi : (r <= R)%Z) by nia.
  assert (Hlo : (R - 1 <= r)%Z) by nia.
  destruct (Z.eq_dec rem 0%Z) as [E|E].
  - destruct (Z.eq_dec r R); [left; assumption|right; split; [assumption|lia]].
  - left. assert (R <= r)%Z by nia. lia.
Qed.

(** [percent] is a nearest integer to the exact percentage. *)
Lemma percent_roundHalfUp (a b : nat) :
  (0 < b)%nat -> (a <= b)%nat -> (Z.of_nat b < 2 ^ 32)%Z ->
  percent a b = roundHalfUp (100 * Z.of_nat a) (Z.of_nat b) \/
  (((200 * Z.of_nat a + Z.of_nat b) mod (2 * Z.of_nat b) = 0)%Z /\
   percent a b = (roundHalfUp (100 * Z.of_nat a) (Z.of_nat b) - 1)%Z).
Proof.
  intros Hb Hab Hlt.
  pose proof (percent_nearest a b Hb Hab Hlt) as Hn.
  destruct (nearest_roundHalfUp (percent a b) (100 * Z.of_nat a) (Z.of_nat b)) as [H|[H1 H2]].
  - lia.
  - replace (2 * (100 * Z.of_nat a))%Z with (200 * Z.of_nat a)%Z by ring. exact Hn.
  - left. exact H.
  - right. split; [|exact H2].
    replace (200 * Z.of_nat a)%Z with (2 * (100 * Z.of_nat a))%Z by ring. exact H1.
Qed.

Example percent_23_40 : percent 23 40 = 57%Z /\ roundHalfUp (100 * 23) 40 = 58%Z.
Proof. split; vm_compute; reflexivity. Qed.

End ExactPercentage.

(** ** The two similarity formulas *)

Section Formulas.
Local Open Scope Z_scope.

(** C3, as amended: [calculateSentenceSimilarity(A, B)] is 0 when either
    sentence has no significant word.  Otherwise, with [shared] the number
    of significant words of A, counted with multiplicity, that appear
    among those of B, and [larger] the larger of the two word counts, it
    is [Math.round] of the binary64 product [(shared / larger) * 100].
    That value is a nearest integer to [100 * shared / larger]: it is
    [round(100 * shared / larger)], except that when the exact percentage
    lies halfway between two integers it may be the lower of the two. *)
Theorem calculateSentenceSimilarity_containment sentenceA sentenceB :
  (getSignificantWords sentenceA = [] \/ getSignificantWords sentenceB = [] ->
   calculateSentenceSimilarity sentenceA sentenceB = 0) /\
  (getSignificantWords sentenceA <> [] -> getSignificantWords sentenceB <> [] ->
   let shared := sharedCount (getSignificantWords sentenceA) (getSignificantWords sentenceB) in
   let larger := Nat.max (length (getSignificantWords sentenceA))
                         (length (getSignificantWords sentenceB)) in
   calculateSentenceSimilarity sentenceA sentenceB = percent shared larger /\
   (Z.of_nat larger < 2 ^ 32 ->
    calculateSentenceSimilarity sentenceA sentenceB
      = roundHalfUp (100 * Z.of_nat shared) (Z.of_nat larger) \/
    ((200 * Z.of_nat shared + Z.of_nat larger) mod (2 * Z.of_nat larger) = 0 /\
     calculateSentenceSimilarity sentenceA sentenceB
       = roundHalfUp (100 * Z.of_nat shared) (Z.of_nat larger) - 1))).
Proof.
  split.
  - intros H. rewrite calculateSentenceSimilarity_words. cbv zeta.
    rewrite bool_decide_eq_true_2; [reflexivity|exact H].
  - intros HA HB shared larger.
    assert (E : calculateSentenceSimilarity sentenceA sentenceB = percent shared larger).
    { rewrite calculateSentenceSimilarity_words. cbv zeta.
      rewrite bool_decide_eq_false_2 by tauto. reflexivity. }
    split; [exact E|]. intros Hlt. rewrite E.
    pose proof (sharedCount_le (getSignificantWords sentenceA) (getSignificantWords sentenceB)).
    apply percent_roundHalfUp; [|unfold shared, larger; lia|exact Hlt].
    unfold larger. destruct (getSignificantWords sentenceA); [congruence|]. simpl. lia.
Qed.

Lemma calculateSentenceSimilarity_containment_witness :
  calculateSentenceSimilarity (str "quick brown foxes jump") (str "quick brown foxes sleep")
    = roundHalfUp (100 * 3) 4 \/
  ((200 * 3 + 4) mod (2 * 4) = 0 /\
   calculateSentenceSimilarity (str "quick brown foxes jump") (str "quick brown foxes sleep")
     = roundHalfUp (100 * 3) 4 - 1).
Proof.
  refine (proj2 (proj2 (calculateSentenceSimilarity_containment
                          (str "quick brown foxes jump") (str "quick brown foxes sleep")) _ _) _);
    vm_compute; (discriminate || reflexivity).
Defined.

(** C3, as the specification states it, fails where the exact percentage lies
    halfway between two integers and the binary64 product falls below it:
    23 shared words out of 40 give 57, not [round(57.5) = 58]. *)
Lemma calculateSentenceSimilarity_not_exact :
  calculateSentenceSimilarity fortyWords twentyThreeWords = 57 /\
  containmentPercent fortyWords twentyThreeWords = 58 /\
  calculateSentenceSimilarity fortyWords twentyThreeWords
    <> containmentPercent fortyWords twentyThreeWords.
Proof. split; [|split]; vm_compute; [reflexivity|reflexivity|discriminate]. Qed.

(** C4, as amended: [calculateSimilarity(A, B)] is 0 when either set of
    significant words is empty.  Otherwise it is [Math.round] of the
    binary64 product [(|A n B| / |A u B|) * 100] over the two sets.  That
    value is a nearest integer to [100 * |A n B| / |A u B|]: it is
    [round(100 * |A n B| / |A u B|)], except that when the exact percentage
    lies halfway between two integers it may be the lower of the two. *)
Theorem calculateSimilarity_jaccard textA textB :
  (wordSet textA = ∅ \/ wordSet textB = ∅ -> calculateSimilarity textA textB = 0) /\
  (wordSet textA <> ∅ -> wordSet textB <> ∅ ->
   let common := size (wordSet textA ∩ wordSet textB) in
   let all := size (wordSet textA ∪ wordSet textB) in
   calculateSimilarity textA textB = percent common all /\
   (Z.of_nat all < 2 ^ 32 ->
    calculateSimilarity textA textB
      = roundHalfUp (100 * Z.of_nat common) (Z.of_nat all) \/
    ((200 * Z.of_nat common + Z.of_nat all) mod (2 * Z.of_nat all) = 0 /\
     calculateSimilarity textA textB
       = roundHalfUp (100 * Z.of_nat common) (Z.of_nat all) - 1))).
Proof.
  split.
  - intros H. rewrite calculateSimilarity_sets, bool_decide_eq_true_2; [reflexivity|exact H].
  - intros HA HB common all.
    assert (E : calculateSimilarity textA textB = percent common all).
    { rewrite calculateSimilarity_sets, bool_decide_eq_false_2 by tauto. reflexivity. }
    split; [exact E|]. intros Hlt. rewrite E.
    apply percent_roundHalfUp; [|apply intersection_le_union|exact Hlt].
    apply union_size_pos. exact HA.
Qed.

Lemma calculateSimilarity_jaccard_witness :
  calculateSimilarity (str "quick brown foxes jump") (str "quick brown foxes sleep")
    = roundHalfUp (100 * 3) 5 \/
  ((200 * 3 + 5) mod (2 * 5) = 0 /\
   calculateSimilarity (str "quick brown foxes jump") (str "quick brown foxes sleep")
     = roundHalfUp (100 * 3) 5 - 1).
Proof.
  refine (proj2 (proj2 (calculateSimilarity_jaccard
                          (str "quick brown foxes jump") (str "quick brown foxes sleep")) _ _) _);
    [rewrite wordSet_empty; vm_compute; discriminate
    |rewrite wordSet_empty; vm_compute; discriminate
    |vm_compute; reflexivity].
Defined.

(** C4, as the specification states it, fails in the same way: 23 common words
    out of 40 in all give 57, not [round(57.5) = 58]. *)
Lemma calculateSimilarity_not_exact :
  calculateSimilarity fortyWords twentyThreeWords = 57 /\
  jaccardPercent fortyWords twentyThreeWords = 58 /\
  calculateSimilarity fortyWords twentyThreeWords
    <> jaccardPercent fortyWords twentyThreeWords.
Proof. split; [|split]; vm_compute; [reflexivity|reflexivity|discriminate]. Qed.

End Formulas.

(** ** Sorting *)

Section Sorting.

Local Open Scope Z_scope.

Context {A : Type} (key : A -> Z).

Local Abbreviation cmp := (descendingBy key).
Local Abbreviation descending := (descending key).

Lemma insertSorted_Permutation x l : Permutation (insertSorted cmp x l) (x :: l).
Proof.
  induction l as [|y l IH]; simpl; [reflexivity|].
  destruct (0 <? cmp x y); [|reflexivity].
  rewrite IH. apply perm_swap.
Qed.

Lemma sort_Permutation l : Permutation (sort cmp l) l.
Proof.
  induction l as [|x l IH]; simpl; [reflexivity|].
  rewrite insertSorted_Permutation, IH. reflexivity.
Qed.

Lemma insertSorted_descending x l : descending l -> descending (insertSorted cmp x l).
Proof.
  unfold descending. induction 1 as [|y l Hl IH Hy]; simpl.
  - constructor; constructor.
  - destruct (Z.ltb_spec 0 (cmp x y)) as [Hlt|Hge]; unfold cmp in *.
    + constructor; [exact IH|].
      apply Forall_forall. intros z Hz. apply list_elem_of_In in Hz.
      apply (Permutation_in _ (insertSorted_Permutation x l)) in Hz.
      destruct Hz as [<-|Hz]; [lia|].
      rewrite Forall_forall in Hy. apply Hy. apply list_elem_of_In. exact Hz.
    + constructor; [constructor; assumption|].
      constructor; [lia|].
      eapply Forall_impl; [exact Hy|]. intros z Hz. simpl in Hz. lia.
Qed.

Lemma sort_descending l : descending (sort cmp l).
Proof.
  induction l as [|x l IH]; simpl; [constructor|].
  apply insertSorted_descending. exact IH.
Qed.

(** Insertion passes only over elements of another key. *)
Lemma insertSorted_stable v x l :
  List.filter (fun a => key a =? v) (insertSorted cmp x l)
  = List.filter (fun a => key a =? v) (x :: l).
Proof.
  induction l as [|y l IH]; [reflexivity|].
  cbn [insertSorted]. destruct (Z.ltb_spec 0 (cmp x y)) as [Hlt|Hge]; [|reflexivity].
  unfold cmp in Hlt. cbn [List.filter] in *. rewrite IH.
  destruct (Z.eqb_spec (key x) v), (Z.eqb_spec (key y) v); try reflexivity. lia.
Qed.

Lemma sort_stable v l :
  List.filter (fun a => key a =? v) (sort cmp l) = List.filter (fun a => key a =? v) l.
Proof.
  induction l as [|x l IH]; [reflexivity|].
  cbn [sort fold_right]. fold (sort cmp l). rewrite insertSorted_stable.
  cbn [List.filter]. rewrite IH. reflexivity.
Qed.

Lemma descending_firstn n l : descending l -> descending (firstn n l).
Proof.
  unfold descending. intros H. revert n. induction H as [|x l Hl IH Hx]; intros [|n]; simpl;
    try constructor.
  - apply IH.
  - rewrite Forall_forall in *. intros z Hz. apply Hx.
    apply list_elem_of_In. apply list_elem_of_In in Hz.
    rewrite <- (firstn_skipn n l). apply in_or_app. left. exact Hz.
Qed.

(** A descending order that keeps the elements of each key in a given
    order is unique. *)
Lemma descending_stable_unique l1 :
  forall l2,
    descending l1 -> descending l2 ->
    (forall v, List.filter (fun a => key a =? v) l1 = List.filter (fun a => key a =? v) l2) ->
    l1 = l2.
Proof.
  unfold descending.
  induction l1 as [|x l1 IH]; intros l2 H1 H2 Hf.
  - destruct l2 as [|y l2]; [reflexivity|].
    specialize (Hf (key y)). cbn [List.filter] in Hf. rewrite Z.eqb_refl in Hf. discriminate.
  - destruct l2 as [|y l2].
    { specialize (Hf (key x)). cbn [List.filter] in Hf. rewrite Z.eqb_refl in Hf. discriminate. }
    apply StronglySorted_inv in H1, H2. destruct H1 as [H1 Hx], H2 as [H2 Hy].
    rewrite Forall_forall in Hx, Hy.
    assert (Hxy : key x = key y).
    { assert (Hle1 : key x <= key y).
      { pose proof (Hf (key x)) as E. cbn [List.filter] in E. rewrite Z.eqb_refl in E.
        destruct (Z.eqb_spec (key y) (key x)) as [->|Hne]; [lia|].
        assert (Hix : In x (List.filter (fun a => key a =? key x) l2)).
        { rewrite <- E. left. reflexivity. }
        apply filter_In in Hix. destruct Hix as [Hix _].
        apply Hy. apply list_elem_of_In. exact Hix. }
      assert (Hle2 : key y <= key x).
      { pose proof (Hf (key y)) as E. cbn [List.filter] in E. rewrite Z.eqb_refl in E.
        destruct (Z.eqb_spec (key x) (key y)) as [->|Hne]; [lia|].
        assert (Hiy : In y (List.filter (fun a => key a =? key y) l1)).
        { rewrite E. left. reflexivity. }
        apply filter_In in Hiy. destruct Hiy as [Hiy _].
        apply Hx. apply list_elem_of_In. exact Hiy. }
      lia. }
    assert (Exy : x = y).
    { pose proof (Hf (key x)) as E. cbn [List.filter] in E.
      rewrite <- Hxy, Z.eqb_refl in E. congruence. }
    subst y. f_equal. apply IH; [exact H1|exact H2|].
    intros v. specialize (Hf v). cbn [List.filter] in Hf.
    destruct (key x =? v); congruence.
Qed.

End Sorting.

(** ** Detailed matches *)

(** A loop that pushes onto an array it threads through its body. *)
Lemma fold_left_push {A B : Type} (f : B -> list A) (step : list A -> B -> list A) l :
  (forall acc x, step acc x = acc ++ f x) ->
  forall acc, fold_left step l acc = acc ++ flat_map f l.
Proof.
  intros Hstep. induction l as [|x l IH]; intros acc; simpl.
  - rewrite app_nil_r. reflexivity.
  - rewrite IH, Hstep, app_assoc. reflexivity.
Qed.

(** The [matches] array holds the candidates in the order of the loops:
    corpus, then sentence of the new document, then sentence of the prior
    document. *)
Lemma collectMatches_candidates text corpus :
  collectMatches text corpus = candidatesCorpusFirst text corpus.
Proof.
  unfold collectMatches, candidatesCorpusFirst. cbv zeta.
  rewrite (fold_left_push
             (fun result =>
                flat_map
                  (fun sentence =>
                     flat_map (candidate result sentence)
                              (extractSentences (DetectionResult.content result)))
                  (extractSentences text))); [reflexivity|].
  intros acc result.
  apply (fold_left_push
           (fun sentence =>
              flat_map (candidate result sentence)
                       (extractSentences (DetectionResult.content result)))).
  intros acc' sentence.
  apply (fold_left_push (candidate result sentence)).
  intros acc'' existing. unfold candidate. cbv zeta.
  destruct (SIMILARITY_THRESHOLD <=? _)%Z; [reflexivity|].
  rewrite app_nil_r. reflexivity.
Qed.

Lemma sort_Ranked candidates : Ranked candidates (sort bySimilarity candidates).
Proof.
  split; [|split].
  - apply (sort_Permutation MatchedSentence.similarity).
  - apply (sort_descending MatchedSentence.similarity).
  - intros v. apply (sort_stable MatchedSentence.similarity).
Qed.

Lemma Ranked_unique candidates ranked1 ranked2 :
  Ranked candidates ranked1 -> Ranked candidates ranked2 -> ranked1 = ranked2.
Proof.
  intros (_ & H1 & F1) (_ & H2 & F2).
  apply (descending_stable_unique MatchedSentence.similarity); try assumption.
  intros v. transitivity (withSimilarity v candidates); [apply F1|symmetry; apply F2].
Qed.

(** C1, as amended: [findDetailedMatches] returns at most 5 entries,
    sorted by similarity, non-increasing; they are the first five of the
    ranking of the candidates, in which candidates of equal similarity
    keep the order the loops met them in: corpus order first, then
    new-document sentence order, then prior-document sentence order.  That
    ranking is unique. *)
Theorem findDetailedMatches_ranked text corpus :
  (length (findDetailedMatches text corpus) <= 5)%nat /\
  nonIncreasing (findDetailedMatches text corpus) /\
  exists ranked,
    Ranked (candidatesCorpusFirst text corpus) ranked /\
    (forall other, Ranked (candidatesCorpusFirst text corpus) other -> other = ranked) /\
    findDetailedMatches text corpus = firstn 5 ranked.
Proof.
  unfold findDetailedMatches, slice0. rewrite collectMatches_candidates.
  split; [apply firstn_le_length|]. split.
  - apply (descending_firstn MatchedSentence.similarity).
    apply (sort_descending MatchedSentence.similarity).
  - exists (sort bySimilarity (candidatesCorpusFirst text corpus)).
    split; [apply sort_Ranked|]. split; [|reflexivity].
    intros other Hother. apply (Ranked_unique _ _ _ Hother (sort_Ranked _)).
Qed.

(** C1, as the specification states it, puts the new-document sentence order
    first; the code puts the corpus order first.  Two matches of equal
    similarity come out in corpus order, the match of the second sentence
    before the match of the first. *)
Lemma findDetailedMatches_corpus_order_first :
  findDetailedMatches twoSentences crossedCorpus
    = [ matchOf "epsilon zeta theta kappa" 100 "first.txt";
        matchOf "alpha beta gamma delta" 100 "second.txt" ] /\
  topFiveSentenceFirst twoSentences crossedCorpus
    = [ matchOf "alpha beta gamma delta" 100 "second.txt";
        matchOf "epsilon zeta theta kappa" 100 "first.txt" ] /\
  findDetailedMatches twoSentences crossedCorpus
    <> topFiveSentenceFirst twoSentences crossedCorpus.
Proof. split; [|split]; vm_compute; [reflexivity|reflexivity|discriminate]. Qed.

Lemma candidate_In result sentence existing m :
  In m (candidate result sentence existing) <->
  (SIMILARITY_THRESHOLD <= calculateSentenceSimilarity sentence existing)%Z /\
  m = {| MatchedSentence.sentence := displayed sentence;
         MatchedSentence.similarity := calculateSentenceSimilarity sentence existing;
         MatchedSentence.sourceFile := DetectionResult.fileName result |}.
Proof.
  unfold candidate. cbv zeta.
  destruct (Z.leb_spec SIMILARITY_THRESHOLD (calculateSentenceSimilarity sentence existing)).
  - simpl. split; [intros [<-|[]]; auto|intros [_ ->]; auto].
  - simpl. split; [tauto|lia].
Qed.

Lemma displayed_short sentence :
  (length sentence <= 200)%nat -> displayed sentence = sentence.
Proof.
  intros H. unfold displayed, substring0.
  rewrite firstn_all2 by exact H.
  destruct (Nat.ltb_spec 200 (length sentence)); [lia|]. apply app_nil_r.
Qed.

Lemma displayed_long sentence :
  (200 < length sentence)%nat ->
  displayed sentence = firstn 200 sentence ++ str "..." /\
  length (displayed sentence) = 203%nat.
Proof.
  intros H. unfold displayed, substring0.
  destruct (Nat.ltb_spec 200 (length sentence)); [|lia].
  split; [reflexivity|]. rewrite length_app, length_firstn.
  change (length (str "...")) with 3%nat. lia.
Qed.

Lemma collectMatches_In text corpus m :
  In m (collectMatches text corpus) <->
  exists result sentence existing,
    In result corpus /\
    In sentence (extractSentences text) /\
    In existing (extractSentences (DetectionResult.content result)) /\
    (75 <= calculateSentenceSimilarity sentence existing)%Z /\
    m = {| MatchedSentence.sentence := displayed sentence;
           MatchedSentence.similarity := calculateSentenceSimilarity sentence existing;
           MatchedSentence.sourceFile := DetectionResult.fileName result |}.
Proof.
  rewrite collectMatches_candidates. unfold candidatesCorpusFirst.
  rewrite in_flat_map. split.
  - intros (result & Hr & H). apply in_flat_map in H. destruct H as (sentence & Hs & H).
    apply in_flat_map in H. destruct H as (existing & He & H).
    apply candidate_In in H. destruct H as [Hsim ->].
    exists result, sentence, existing. auto.
  - intros (result & sentence & existing & Hr & Hs & He & Hsim & ->).
    exists result. split; [exact Hr|]. apply in_flat_map.
    exists sentence. split; [exact Hs|]. apply in_flat_map.
    exists existing. split; [exact He|]. apply candidate_In. auto.
Qed.

Lemma findDetailedMatches_collected text corpus m :
  In m (findDetailedMatches text corpus) -> In m (collectMatches text corpus).
Proof.
  intros Hm. unfold findDetailedMatches, slice0 in Hm.
  apply (Permutation_in m (sort_Permutation MatchedSentence.similarity _)).
  rewrite <- (firstn_skipn 5 (sort _ _)). apply in_or_app. left. exact Hm.
Qed.

Lemma displayed_cases sentence :
  displayed sentence
  = if (200 <? length sentence)%nat then firstn 200 sentence ++ str "..." else sentence.
Proof.
  destruct (Nat.ltb_spec 200 (length sentence)) as [H|H].
  - apply (displayed_long sentence H).
  - apply (displayed_short sentence H).
Qed.

(** C5: every entry that [findDetailedMatches] returns comes from a
    sentence of the new document and a sentence of a prior document of the
    corpus; its similarity is that of the whole sentence, and is 75 or
    more; its text is the sentence itself when the sentence has at most
    200 code units, and its first 200 code units followed by the marker
    "..." otherwise.  While the matches are collected, before they are
    ranked and cut to five, the candidate of a pair of sentences is
    retained if and only if its similarity is 75 or more. *)
Theorem findDetailedMatches_entries text corpus :
  (forall m,
      In m (findDetailedMatches text corpus) ->
      exists result sentence existing,
        In result corpus /\
        In sentence (extractSentences text) /\
        In existing (extractSentences (DetectionResult.content result)) /\
        MatchedSentence.similarity m = calculateSentenceSimilarity sentence existing /\
        (75 <= MatchedSentence.similarity m)%Z /\
        MatchedSentence.sourceFile m = DetectionResult.fileName result /\
        MatchedSentence.sentence m
        = if (200 <? length sentence)%nat then firstn 200 sentence ++ str "..."
          else sentence) /\
  (forall result sentence existing,
      In result corpus ->
      In sentence (extractSentences text) ->
      In existing (extractSentences (DetectionResult.content result)) ->
      (In {| MatchedSentence.sentence := displayed sentence;
             MatchedSentence.similarity := calculateSentenceSimilarity sentence existing;
             MatchedSentence.sourceFile := DetectionResult.fileName result |}
          (collectMatches text corpus)
       <-> (75 <= calculateSentenceSimilarity sentence existing)%Z)).
Proof.
  split.
  - intros m Hm. apply findDetailedMatches_collected, collectMatches_In in Hm.
    destruct Hm as (result & sentence & existing & Hr & Hs & He & Hsim & ->).
    exists result, sentence, existing. cbn [MatchedSentence.similarity
      MatchedSentence.sentence MatchedSentence.sourceFile].
    repeat (split; [assumption || reflexivity|]). apply displayed_cases.
  - intros result sentence existing Hr Hs He. rewrite collectMatches_In. split.
    + intros (result' & sentence' & existing' & _ & _ & _ & Hsim & E).
      injection E as _ E _. rewrite E. exact Hsim.
    + intros Hsim. exists result, sentence, existing. auto.
Qed.

Lemma findDetailedMatches_entries_witness :
  In (matchOf "alpha beta gamma delta" 100 "second.txt")
     (collectMatches twoSentences crossedCorpus)
  <-> (75 <= calculateSentenceSimilarity (str "alpha beta gamma delta")
                                         (str "alpha beta gamma delta"))%Z.
Proof.
  apply (proj2 (findDetailedMatches_entries twoSentences crossedCorpus)
               (document (str "second.txt") (str "alpha beta gamma delta."))
               (str "alpha beta gamma delta") (str "alpha beta gamma delta"));
    vm_compute; auto.
Defined.

(** ** The similarity of a submission *)

Section Submission.

Local Open Scope Z_scope.

Lemma Math_max_Int values a :
  fold_left
    (fun acc v => match acc with
                  | NegInfinity => Int v
                  | Int a => Int (Z.max a v)
                  end)
    values (Int a)
  = Int (fold_left Z.max values a).
Proof.
  revert a. induction values as [|v values IH]; intros a; simpl; [reflexivity|].
  apply IH.
Qed.

Lemma fold_left_max_bound values :
  forall a,
    a <= fold_left Z.max values a /\
    (forall v, In v values -> v <= fold_left Z.max values a) /\
    (fold_left Z.max values a = a \/ In (fold_left Z.max values a) values).
Proof.
  induction values as [|v values IH]; intros a; simpl.
  - split; [lia|]. split; [tauto|auto].
  - destruct (IH (Z.max a v)) as (H1 & H2 & H3). split; [lia|]. split.
    + intros w [<-|Hw]; [lia|auto].
    + destruct H3 as [H3|H3]; [|auto].
      rewrite H3. destruct (Z.max_spec a v) as [[_ ->]|[_ ->]]; auto.
Qed.

(** [Math.max] of a non-empty list is its greatest member. *)
Lemma Math_max_greatest v values :
  exists best,
    Math_max (v :: values) = Int best /\
    In best (v :: values) /\
    forall w, In w (v :: values) -> w <= best.
Proof.
  unfold Math_max. simpl. rewrite Math_max_Int.
  destruct (fold_left_max_bound values v) as (H1 & H2 & H3).
  exists (fold_left Z.max values v). split; [reflexivity|]. split.
  - destruct H3 as [->|H3]; [left; reflexivity|right; exact H3].
  - intros w [<-|Hw]; auto.
Qed.

(** C6: the similarity attached to a new submission is 0 when the
    corpus is empty, and otherwise the greatest of [calculateSimilarity]
    of the new text against the documents of the corpus; it is the
    similarity of the result that [handleFileUpload] puts in front of
    the corpus. *)
Theorem submission_similarity_max content :
  submissionSimilarity content [] = Int 0 /\
  (forall result results,
      exists best,
        submissionSimilarity content (result :: results) = Int best /\
        (exists r, In r (result :: results) /\
                   best = calculateSimilarity content (DetectionResult.content r)) /\
        (forall r, In r (result :: results) ->
                   calculateSimilarity content (DetectionResult.content r) <= best)) /\
  (forall id name type pageCount now results,
      (50 <= length content)%nat ->
      exists newResult,
        handleFileUpload id name type content pageCount now results
          = Accepted (newResult :: results) /\
        DetectionResult.similarity newResult = submissionSimilarity content results).
Proof.
  split; [reflexivity|]. split.
  - intros result results. unfold submissionSimilarity.
    change (0 <? length (result :: results))%nat with true. cbv iota.
    cbn [map].
    destruct (Math_max_greatest
                (calculateSimilarity content (DetectionResult.content result))
                (map (fun r => calculateSimilarity content (DetectionResult.content r)) results))
      as (best & E & Hin & Hmax).
    exists best. split; [exact E|]. split.
    + change (In best (map (fun r => calculateSimilarity content (DetectionResult.content r))
                           (result :: results))) in Hin.
      apply in_map_iff in Hin. destruct Hin as (r & <- & Hr). exists r. auto.
    + intros r Hr. apply Hmax.
      change (In (calculateSimilarity content (DetectionResult.content r))
                 (map (fun r => calculateSimilarity content (DetectionResult.content r))
                      (result :: results))).
      apply (in_map (fun r => calculateSimilarity content (DetectionResult.content r))).
      exact Hr.
  - intros id name type pageCount now results Hlen. unfold handleFileUpload.
    destruct (Nat.ltb_spec (length content) 50); [lia|].
    eexists. split; reflexivity.
Qed.

End Submission.

Lemma submission_similarity_max_witness :
  exists newResult,
    handleFileUpload (str "1") (str "new.txt") (str "text/plain") climate None 1%Z []
    = Accepted [newResult] /\
    DetectionResult.similarity newResult = Int 0.
Proof.
  apply (proj2 (proj2 (submission_similarity_max climate))
               (str "1") (str "new.txt") (str "text/plain") None 1%Z []).
  vm_compute. lia.
Defined.

(** ** The scenarios of the specification *)

(** A new text identical to the only document of the corpus. *)
Example scenario_identical :
  submissionSimilarity climate [document (str "doc1") climate] = Int 100 /\
  findDetailedMatches climate [document (str "doc1") climate]
  = [ matchOf "Climate change is a pressing global issue that requires immediate action"
              100 "doc1" ].
Proof. split; vm_compute; reflexivity. Qed.

(** A new text that shares no significant word with the corpus. *)
Example scenario_disjoint :
  submissionSimilarity (str "Quantum computers factor large integers quickly.")
                       [document (str "doc1") climate] = Int 0 /\
  findDetailedMatches (str "Quantum computers factor large integers quickly.")
                      [document (str "doc1") climate] = [].
Proof. split; vm_compute; reflexivity. Qed.

(** A sentence of 250 code units is shown by its first 200 and the
    marker; its similarity is that of the whole sentence. *)
Example scenario_truncated :
  length longSentence = 250 /\
  findDetailedMatches longSentence [document (str "doc1") longSentence]
  = [ {| MatchedSentence.sentence := firstn 200 longSentence ++ str "...";
         MatchedSentence.similarity := 100;
         MatchedSentence.sourceFile := str "doc1" |} ] /\
  calculateSentenceSimilarity longSentence longSentence = 100%Z.
Proof. split; [|split]; vm_compute; reflexivity. Qed.


(** * The extractor and the component *)

Import Unicode Words Samples.

(** ** Words of a text *)

Section WordsOfText.
Context {A : Type}.
Variable separator : A -> bool.

Local Abbreviation words := (Words.words separator).

Local Abbreviation IsWord := (Words.IsWord separator).

Lemma words_cons_eq c s :
  words (c :: s) =
  if separator c then words s
  else match s with
       | [] => [[c]]
       | c' :: _ =>
           if separator c' then [c] :: words s
           else match words s with
                | word :: others => (c :: word) :: others
                | [] => [[c]]
                end
       end.
Proof. destruct s; reflexivity. Qed.

Lemma words_cons_separator c s : separator c = true -> words (c :: s) = words s.
Proof. intros H. rewrite words_cons_eq. now rewrite H. Qed.

Lemma words_cons_head c s :
  separator c = false ->
  exists word others, words (c :: s) = (c :: word) :: others.
Proof.
  revert c. induction s as [|c' rest IH]; intros c Hc; rewrite words_cons_eq, Hc.
  - now exists [], [].
  - destruct (separator c') eqn:Hc'.
    + now exists [], (words (c' :: rest)).
    + destruct (IH c' Hc') as (word & others & E). rewrite E.
      now exists (c' :: word), others.
Qed.

Lemma words_IsWord s : Forall IsWord (words s).
Proof.
  assert (Hone : forall c, separator c = false -> IsWord [c]).
  { intros c Hc. split; [discriminate|]. now repeat constructor. }
  induction s as [|c rest IH]; [constructor|].
  rewrite words_cons_eq. destruct (separator c) eqn:Hc; [exact IH|].
  destruct rest as [|c' rest'].
  - constructor; [now apply Hone | constructor].
  - destruct (separator c') eqn:Hc'.
    + constructor; [now apply Hone | exact IH].
    + destruct (words (c' :: rest')) as [|word others] eqn:E.
      * constructor; [now apply Hone | constructor].
      * inversion IH as [|? ? [_ Hw] Ho]; subst.
        constructor; [|exact Ho]. split; [discriminate|]. now constructor.
Qed.

Lemma words_app_separator a c b :
  separator c = true -> words (a ++ c :: b) = words a ++ words b.
Proof.
  intros Hc. induction a as [|x a' IH].
  - now apply words_cons_separator.
  - change ((x :: a') ++ c :: b) with (x :: (a' ++ c :: b)).
    rewrite !(words_cons_eq x). destruct (separator x) eqn:Hx; [exact IH|].
    destruct a' as [|y a''].
    + change ([] ++ c :: b) with (c :: b) in *. cbv iota. rewrite Hc, IH. reflexivity.
    + change ((y :: a'') ++ c :: b) with (y :: (a'' ++ c :: b)) in *. cbv iota.
      destruct (separator y) eqn:Hy.
      * rewrite IH. reflexivity.
      * rewrite IH.
        destruct (words_cons_head y a'' Hy) as (word & others & E).
        rewrite E. reflexivity.
Qed.

Lemma words_all_separators s :
  Forall (fun c => separator c = true) s -> words s = [].
Proof.
  induction 1 as [|c rest Hc _ IH]; [reflexivity|].
  now rewrite words_cons_separator.
Qed.

Lemma words_app_separators a run b :
  run <> [] -> Forall (fun c => separator c = true) run ->
  words (a ++ run ++ b) = words a ++ words b.
Proof.
  intros Hne Hrun. destruct run as [|c run']; [congruence|].
  inversion Hrun as [|? ? Hc Hrun']; subst.
  change ((c :: run') ++ b) with (c :: (run' ++ b)).
  rewrite (words_app_separator a c _ Hc). f_equal.
  clear Hrun Hne. induction Hrun' as [|d run'' Hd _ IH]; [reflexivity|].
  simpl app. now rewrite words_cons_separator.
Qed.

Lemma words_word w : IsWord w -> words w = [w].
Proof.
  intros [Hne Hw]. induction Hw as [|c rest Hc Hrest IH]; [congruence|].
  rewrite words_cons_eq, Hc. destruct rest as [|c' rest']; [reflexivity|].
  inversion Hrest as [|? ? Hc' _]; subst. cbv iota. rewrite Hc'.
  rewrite IH by discriminate. reflexivity.
Qed.

Lemma join_cons (sp : A) w w' rest :
  join sp (w :: w' :: rest) = w ++ sp :: join sp (w' :: rest).
Proof. reflexivity. Qed.

Lemma words_join (sp : A) l :
  separator sp = true -> Forall IsWord l -> words (join sp l) = l.
Proof.
  intros Hsp. induction 1 as [|w rest Hw Hrest IH]; [reflexivity|].
  destruct rest as [|w' rest'].
  - simpl. rewrite app_nil_r. now apply words_word.
  - rewrite join_cons, (words_app_separator _ _ _ Hsp), IH.
    now rewrite (words_word _ Hw).
Qed.

Lemma join_nil_words (sp : A) l : Forall IsWord l -> join sp l = [] -> l = [].
Proof.
  intros Hl E. destruct l as [|w rest]; [reflexivity|].
  inversion Hl as [|? ? [Hne _] _]; subst.
  simpl in E. apply app_eq_nil in E as [E _]. congruence.
Qed.

(** The words of a text whose first code unit is given. *)
Lemma words_same_head c s s' :
  separator c = false ->
  hd_error s = hd_error s' -> words s = words s' ->
  words (c :: s) = words (c :: s').
Proof.
  intros Hc Hh Hw. rewrite !words_cons_eq, Hc.
  destruct s as [|x r], s' as [|x' r']; try discriminate; [reflexivity|].
  simpl in Hh. injection Hh as ->. cbv iota.
  destruct (separator x'); now rewrite Hw.
Qed.

End WordsOfText.

(** ** Classes of code units *)

Section UnitClasses.
Local Open Scope N_scope.

Ltac unfold_classes :=
  cbv [Words.normalizeUnit Words.isCleanUnit Words.isRemovedUnit
       PDFExtractor.isControlUnit PDFExtractor.isSpecialUnit PDFExtractor.isArtifactUnit
       PDFExtractor.isEncodingIssue PDFExtractor.isListedMark PDFExtractor.isExcessiveUnit
       isWhiteSpaceUnit isWordUnit between oneOf existsb SPACE] in *.

Ltac split_comparisons :=
  repeat match goal with
         | H : context [(?a <=? ?b)] |- _ =>
             destruct (N.leb_spec a b); try (exfalso; lia)
         | H : context [(?a =? ?b)] |- _ =>
             destruct (N.eqb_spec a b); try (exfalso; lia)
         | |- context [(?a <=? ?b)] =>
             destruct (N.leb_spec a b); try (exfalso; lia)
         | |- context [(?a =? ?b)] =>
             destruct (N.eqb_spec a b); try (exfalso; lia)
         end.

Ltac by_unit_cases :=
  unfold_classes; split_comparisons; cbn in *; try discriminate; try reflexivity;
  try (f_equal; lia).

Lemma isWhiteSpaceUnit_SPACE : isWhiteSpaceUnit SPACE = true.
Proof. reflexivity. Qed.

Lemma isCleanUnit_bounds c : isCleanUnit c = true -> 33 <= c <= 122.
Proof. intros H. by_unit_cases; lia. Qed.

Lemma isCleanUnit_not_white c : isCleanUnit c = true -> isWhiteSpaceUnit c = false.
Proof.
  intros H. apply isCleanUnit_bounds in H.
  by_unit_cases.
Qed.

Lemma isCleanUnit_not_removed c : isCleanUnit c = true -> isRemovedUnit c = false.
Proof.
  intros H. apply isCleanUnit_bounds in H.
  by_unit_cases.
Qed.

Lemma normalizeUnit_clean c : isCleanUnit c = true -> normalizeUnit c = [c].
Proof.
  intros H. unfold normalizeUnit.
  now rewrite (isCleanUnit_not_white c H), (isCleanUnit_not_removed c H), H.
Qed.

Lemma stages_SPACE : stages SPACE = [SPACE].
Proof. reflexivity. Qed.

Lemma removed_stages c :
  isRemovedUnit c =
  PDFExtractor.isControlUnit c || PDFExtractor.isSpecialUnit c ||
  PDFExtractor.isArtifactUnit c || PDFExtractor.isEncodingIssue c.
Proof. by_unit_cases. Qed.

Lemma stages_normalizeUnit c :
  isWhiteSpaceUnit c = false -> stages c = normalizeUnit c.
Proof.
  intros H. unfold normalizeUnit. rewrite H, removed_stages.
  unfold stages, replaceEach.
  change (ustr " ") with [32]. change (ustr "") with (@nil N).
  cbn [flat_map app].
  destruct (PDFExtractor.isControlUnit c); [reflexivity|]. cbn [flat_map app orb].
  destruct (PDFExtractor.isSpecialUnit c); [reflexivity|]. cbn [flat_map app orb].
  destruct (PDFExtractor.isArtifactUnit c); [reflexivity|]. cbn [flat_map app orb].
  destruct (PDFExtractor.isEncodingIssue c); [reflexivity|]. cbn [flat_map app orb].
  unfold PDFExtractor.isExcessiveUnit, isCleanUnit. rewrite H.
  rewrite orb_false_r.
  destruct (isWordUnit c || PDFExtractor.isListedMark c); reflexivity.
Qed.

End UnitClasses.

(** ** Replacing runs of white space, and trimming *)

Section Squeezing.

Local Abbreviation white := isWhiteSpaceUnit.
Local Abbreviation squeezeFrom := (replaceRunsFrom isWhiteSpaceUnit [SPACE]).
Local Abbreviation wordsOf := (Words.words isWhiteSpaceUnit).

Lemma skipWhile_app p a b :
  skipWhile p (a ++ b) =
  match skipWhile p a with
  | [] => skipWhile p b
  | c :: rest => (c :: rest) ++ b
  end.
Proof.
  induction a as [|x a' IH]; [reflexivity|].
  simpl. destruct (p x); [exact IH | reflexivity].
Qed.

Lemma skipWhile_length p s : (length (skipWhile p s) <= length s)%nat.
Proof.
  induction s as [|c rest IH]; simpl; [lia|].
  destruct (p c); simpl; lia.
Qed.

Lemma skipWhile_Forall (P : N -> Prop) p s : Forall P s -> Forall P (skipWhile p s).
Proof.
  induction 1 as [|c rest Hc Hrest IH]; simpl; [constructor|].
  destruct (p c); [exact IH | now constructor].
Qed.

Lemma trimEndUnits_cons c s :
  trimEndUnits (c :: s) =
  match trimEndUnits s with
  | [] => if white c then [] else [c]
  | d :: rest => c :: d :: rest
  end.
Proof.
  unfold trimEndUnits. simpl rev. rewrite skipWhile_app.
  destruct (skipWhile white (rev s)) as [|x l] eqn:E.
  - simpl. destruct (white c); reflexivity.
  - rewrite rev_app_distr. change (rev [c]) with [c].
    change ([c] ++ rev (x :: l)) with (c :: rev (x :: l)).
    destruct (rev (x :: l)) as [|d rest] eqn:R; [|reflexivity].
    apply (f_equal (@length N)) in R. rewrite length_rev in R. discriminate.
Qed.

Lemma trimEndUnits_nil : trimEndUnits [] = [].
Proof. reflexivity. Qed.

Lemma trimUnits_length s : (length (trimUnits s) <= length s)%nat.
Proof.
  unfold trimUnits, trimEndUnits, trimStartUnits.
  rewrite length_rev.
  etransitivity; [apply skipWhile_length|]. rewrite length_rev.
  apply skipWhile_length.
Qed.

Lemma squeezeFrom_not_in_run c rest r :
  white c = false -> squeezeFrom r (c :: rest) = c :: squeezeFrom false rest.
Proof. intros H. simpl. now rewrite H. Qed.

Lemma squeezeFrom_in_run c rest :
  white c = true -> squeezeFrom true (c :: rest) = squeezeFrom true rest.
Proof. intros H. simpl. now rewrite H. Qed.

Lemma squeezeFrom_start_run c rest :
  white c = true -> squeezeFrom false (c :: rest) = SPACE :: squeezeFrom true rest.
Proof. intros H. simpl. now rewrite H. Qed.

Lemma skipWhile_squeezeFrom_true s :
  skipWhile white (squeezeFrom true s) = squeezeFrom true s.
Proof.
  induction s as [|c rest IH]; [reflexivity|].
  destruct (white c) eqn:Hc.
  - now rewrite squeezeFrom_in_run.
  - rewrite squeezeFrom_not_in_run by exact Hc. simpl. now rewrite Hc.
Qed.

Lemma trimStartUnits_squeeze s :
  trimStartUnits (squeezeFrom false s) = squeezeFrom true s.
Proof.
  unfold trimStartUnits. destruct s as [|c rest]; [reflexivity|].
  destruct (white c) eqn:Hc.
  - rewrite squeezeFrom_start_run, squeezeFrom_in_run by exact Hc.
    change (skipWhile white (SPACE :: squeezeFrom true rest))
      with (skipWhile white (squeezeFrom true rest)).
    apply skipWhile_squeezeFrom_true.
  - rewrite !squeezeFrom_not_in_run by exact Hc. simpl. now rewrite Hc.
Qed.

Lemma join_words_nil s : join SPACE (wordsOf s) = [] -> wordsOf s = [].
Proof. apply (join_nil_words isWhiteSpaceUnit), words_IsWord. Qed.

Lemma trimEndUnits_squeezeFrom s :
  trimEndUnits (squeezeFrom true s) = join SPACE (wordsOf s) /\
  trimEndUnits (squeezeFrom false s) =
    match s with
    | [] => []
    | c :: _ =>
        if white c
        then match wordsOf s with
             | [] => []
             | _ :: _ => SPACE :: join SPACE (wordsOf s)
             end
        else join SPACE (wordsOf s)
    end.
Proof.
  induction s as [|c rest [IHt IHf]]; [split; reflexivity|].
  destruct (white c) eqn:Hc.
  - rewrite squeezeFrom_in_run, squeezeFrom_start_run by exact Hc.
    rewrite (words_cons_separator _ _ _ Hc). split; [exact IHt|].
    rewrite trimEndUnits_cons, IHt, isWhiteSpaceUnit_SPACE.
    destruct (wordsOf rest) as [|w others] eqn:E; [reflexivity|].
    destruct (join SPACE (w :: others)) as [|d l] eqn:J; [|reflexivity].
    rewrite <- E in J. apply join_words_nil in J. congruence.
  - rewrite !squeezeFrom_not_in_run by exact Hc.
    assert (E : trimEndUnits (c :: squeezeFrom false rest) = join SPACE (wordsOf (c :: rest))).
    { rewrite trimEndUnits_cons, IHf, Hc, words_cons_eq, Hc. clear IHt IHf.
      destruct rest as [|c' rest']; [reflexivity|].
      destruct (white c') eqn:Hc'.
      - destruct (wordsOf (c' :: rest')) as [|w others]; reflexivity.
      - destruct (words_cons_head isWhiteSpaceUnit c' rest' Hc') as (word & others & E).
        rewrite E. reflexivity. }
    split; exact E.
Qed.

(** Replacing each run of white space by one space and trimming leaves
    the words, one space between each two. *)
Lemma squeeze_words s :
  trimUnits (replaceRuns isWhiteSpaceUnit [SPACE] s) = join SPACE (wordsOf s).
Proof.
  unfold trimUnits, replaceRuns.
  rewrite trimStartUnits_squeeze. apply trimEndUnits_squeezeFrom.
Qed.

Lemma squeezeFrom_length r s : (length (squeezeFrom r s) <= length s)%nat.
Proof.
  revert r. induction s as [|c rest IH]; intros r; simpl; [lia|].
  pose proof (IH true). pose proof (IH false).
  destruct (white c), r; simpl; lia.
Qed.

End Squeezing.

(** ** [cleanText] *)

Section CleanText.

Local Abbreviation white := isWhiteSpaceUnit.
Local Abbreviation squeezeFrom := (replaceRunsFrom isWhiteSpaceUnit [SPACE]).
Local Abbreviation wordsOf := (Words.words isWhiteSpaceUnit).
Local Abbreviation normalize := (flat_map normalizeUnit).

Lemma replaceEach_app class replacement a b :
  replaceEach class replacement (a ++ b)
  = replaceEach class replacement a ++ replaceEach class replacement b.
Proof. apply flat_map_app. Qed.

Lemma replaceEach_length class replacement s :
  (length replacement <= 1)%nat ->
  (length (replaceEach class replacement s) <= length s)%nat.
Proof.
  intros H. induction s as [|c rest IH]; simpl; [lia|].
  rewrite length_app. destruct (class c); simpl; lia.
Qed.

(** The six replacements act on each code unit by itself. *)
Lemma replacements_stages s :
  replaceEach PDFExtractor.isExcessiveUnit (ustr " ")
    (replaceEach PDFExtractor.isEncodingIssue (ustr "")
       (replaceEach PDFExtractor.isArtifactUnit (ustr "")
          (replaceEach PDFExtractor.isSpecialUnit (ustr "")
             (replaceEach PDFExtractor.isControlUnit (ustr "") s))))
  = flat_map stages s.
Proof.
  induction s as [|c rest IH]; [reflexivity|].
  change (c :: rest) with ([c] ++ rest).
  rewrite !replaceEach_app, IH. reflexivity.
Qed.

Lemma hd_error_app {A : Type} (u x : list A) :
  hd_error (u ++ x) = match u with [] => hd_error x | a :: _ => Some a end.
Proof. destruct u; reflexivity. Qed.

Lemma normalizeUnit_white c : white c = true -> normalizeUnit c = [SPACE].
Proof. intros H. unfold normalizeUnit. now rewrite H. Qed.

Lemma normalizeUnit_cases c :
  white c = false ->
  normalizeUnit c = [] \/ normalizeUnit c = [SPACE] \/
  (normalizeUnit c = [c] /\ isCleanUnit c = true).
Proof.
  intros H. unfold normalizeUnit. rewrite H.
  destruct (isRemovedUnit c); [now left|].
  destruct (isCleanUnit c); [right; right; now split | right; now left].
Qed.

Lemma normalize_units s :
  Forall (fun c => c = SPACE \/ isCleanUnit c = true) (normalize s).
Proof.
  induction s as [|c rest IH]; [constructor|].
  cbn [flat_map]. rewrite Forall_app. split; [|exact IH].
  destruct (white c) eqn:Hc.
  - rewrite normalizeUnit_white by exact Hc. constructor; [now left | constructor].
  - destruct (normalizeUnit_cases c Hc) as [-> | [-> | [-> Hk]]].
    + constructor.
    + constructor; [now left | constructor].
    + constructor; [now right | constructor].
Qed.

Lemma stages_squeeze_head s :
  hd_error (flat_map stages (squeezeFrom false s)) = hd_error (normalize s).
Proof.
  induction s as [|c rest IH]; [reflexivity|].
  destruct (white c) eqn:Hc.
  - rewrite squeezeFrom_start_run by exact Hc.
    cbn [flat_map]. rewrite stages_SPACE, normalizeUnit_white by exact Hc. reflexivity.
  - rewrite squeezeFrom_not_in_run by exact Hc.
    cbn [flat_map]. rewrite stages_normalizeUnit by exact Hc.
    rewrite !hd_error_app. destruct (normalizeUnit c); [exact IH | reflexivity].
Qed.

Lemma stages_squeeze_words s :
  forall r, wordsOf (flat_map stages (squeezeFrom r s)) = wordsOf (normalize s).
Proof.
  induction s as [|c rest IH]; intros r; [reflexivity|].
  destruct (white c) eqn:Hc.
  - cbn [flat_map]. rewrite normalizeUnit_white by exact Hc.
    change ([SPACE] ++ normalize rest) with (SPACE :: normalize rest).
    rewrite (words_cons_separator _ _ _ isWhiteSpaceUnit_SPACE).
    destruct r.
    + rewrite squeezeFrom_in_run by exact Hc. apply IH.
    + rewrite squeezeFrom_start_run by exact Hc.
      cbn [flat_map]. rewrite stages_SPACE.
      change ([SPACE] ++ ?x) with (SPACE :: x).
      rewrite (words_cons_separator _ _ _ isWhiteSpaceUnit_SPACE). apply IH.
  - rewrite squeezeFrom_not_in_run by exact Hc.
    cbn [flat_map]. rewrite stages_normalizeUnit by exact Hc.
    destruct (normalizeUnit_cases c Hc) as [-> | [-> | [-> Hk]]].
    + apply IH.
    + change ([SPACE] ++ ?x) with (SPACE :: x).
      rewrite !(words_cons_separator _ _ _ isWhiteSpaceUnit_SPACE). apply IH.
    + change ([c] ++ ?x) with (c :: x).
      apply words_same_head; [exact Hc | apply stages_squeeze_head | apply IH].
Qed.

Lemma words_Forall {A : Type} (separator : A -> bool) (P : A -> Prop) s :
  Forall P s -> Forall (Forall P) (Words.words separator s).
Proof.
  induction 1 as [|c rest Hc Hrest IH]; [constructor|].
  rewrite words_cons_eq. destruct (separator c); [exact IH|].
  destruct rest as [|c' rest']; [repeat constructor; exact Hc|].
  destruct (separator c').
  - constructor; [repeat constructor; exact Hc | exact IH].
  - destruct (Words.words separator (c' :: rest')) as [|word others].
    + repeat constructor; exact Hc.
    + inversion IH; subst. constructor; [now constructor | assumption].
Qed.

Lemma cleanWords_CleanWord text : Forall CleanWord (cleanWords text).
Proof.
  unfold cleanWords.
  pose proof (words_IsWord isWhiteSpaceUnit (normalize text)) as Hw.
  pose proof (words_Forall isWhiteSpaceUnit _ _ (normalize_units text)) as Hu.
  induction Hw as [|w others [Hne Hnw] _ IH]; [constructor|].
  inversion Hu as [|? ? Hwu Hothers]; subst.
  constructor; [|now apply IH].
  split; [exact Hne|].
  clear -Hnw Hwu. induction Hnw as [|c rest Hc _ IH]; [constructor|].
  inversion Hwu as [|? ? [-> | Hk] Hrest]; subst.
  - discriminate.
  - constructor; [exact Hk | now apply IH].
Qed.

Lemma cleanText_cleanWords text :
  PDFExtractor.cleanText text = join SPACE (cleanWords text).
Proof.
  unfold PDFExtractor.cleanText. cbv zeta.
  rewrite replacements_stages.
  change (ustr " ") with [SPACE].
  rewrite squeeze_words. unfold replaceRuns, cleanWords.
  now rewrite stages_squeeze_words.
Qed.

Lemma CleanWord_IsWord w : CleanWord w -> Words.IsWord isWhiteSpaceUnit w.
Proof.
  intros [Hne Hu]. split; [exact Hne|].
  eapply Forall_impl; [exact Hu|]. apply isCleanUnit_not_white.
Qed.

Lemma normalize_join l :
  Forall CleanWord l -> normalize (join SPACE l) = join SPACE l.
Proof.
  intros Hl.
  assert (Hw : forall w, CleanWord w -> normalize w = w).
  { intros w [_ Hu]. induction Hu as [|c rest Hc _ IH]; [reflexivity|].
    cbn [flat_map]. now rewrite normalizeUnit_clean, IH. }
  induction Hl as [|w rest Hcw Hrest IH]; [reflexivity|].
  destruct rest as [|w' rest'].
  - simpl. rewrite app_nil_r. now apply Hw.
  - change (join SPACE (w :: w' :: rest')) with (w ++ SPACE :: join SPACE (w' :: rest')).
    rewrite flat_map_app. change (SPACE :: ?x) with ([SPACE] ++ x).
    rewrite flat_map_app, IH, (Hw w Hcw). reflexivity.
Qed.

Lemma cleanWords_join l : Forall CleanWord l -> cleanWords (join SPACE l) = l.
Proof.
  intros Hl. unfold cleanWords. rewrite normalize_join by exact Hl.
  apply words_join; [reflexivity|].
  eapply Forall_impl; [exact Hl|]. apply CleanWord_IsWord.
Qed.

Lemma normalizeUnit_separating c :
  isSeparatingUnit c = true -> normalizeUnit c = [SPACE].
Proof.
  unfold isSeparatingUnit, normalizeUnit. intros H.
  destruct (white c); [reflexivity|].
  destruct (isRemovedUnit c); [discriminate|].
  destruct (isCleanUnit c); [discriminate | reflexivity].
Qed.

Lemma normalizeUnit_removed c :
  white c = false -> isRemovedUnit c = true -> normalizeUnit c = [].
Proof. intros Hw Hr. unfold normalizeUnit. now rewrite Hw, Hr. Qed.

Lemma cleanWords_app_separating a c b :
  isSeparatingUnit c = true -> cleanWords (a ++ c :: b) = cleanWords a ++ cleanWords b.
Proof.
  intros Hc. unfold cleanWords.
  rewrite flat_map_app. cbn [flat_map]. rewrite normalizeUnit_separating by exact Hc.
  change ([SPACE] ++ ?x) with (SPACE :: x).
  apply words_app_separator. reflexivity.
Qed.

Lemma cleanWords_app_white a c b :
  white c = true -> cleanWords (a ++ c :: b) = cleanWords a ++ cleanWords b.
Proof.
  intros Hc. apply cleanWords_app_separating. unfold isSeparatingUnit. now rewrite Hc.
Qed.

Lemma cleanWords_app_removed a c b :
  white c = false -> isRemovedUnit c = true ->
  cleanWords (a ++ c :: b) = cleanWords (a ++ b).
Proof.
  intros Hw Hr. unfold cleanWords.
  rewrite !flat_map_app. cbn [flat_map]. now rewrite normalizeUnit_removed.
Qed.

Lemma cleanText_length text : (length (PDFExtractor.cleanText text) <= length text)%nat.
Proof.
  unfold PDFExtractor.cleanText. cbv zeta.
  etransitivity; [apply trimUnits_length|].
  change (ustr " ") with [SPACE]. change (ustr "") with (@nil N).
  unfold replaceRuns.
  etransitivity; [apply squeezeFrom_length|].
  repeat (etransitivity; [apply replaceEach_length; simpl; lia|]).
  apply squeezeFrom_length.
Qed.

End CleanText.

(** ** The tokens of the detector are words *)

Section SplitWords.
Variable delim : ascii -> bool.

Lemma splitRuns_words s :
  forall inRun tok,
    Forall (fun c => delim c = false) tok ->
    (inRun = true -> tok = []) ->
    List.filter (fun w => (0 <? length w)%nat) (splitRuns delim inRun tok s)
    = Words.words delim (tok ++ s).
Proof.
  induction s as [|c rest IH]; intros inRun tok Hclean Hrun.
  - rewrite app_nil_r. destruct tok as [|t tok']; [reflexivity|].
    rewrite (words_word delim (t :: tok')); [reflexivity|].
    split; [discriminate | exact Hclean].
  - cbn [splitRuns]. destruct (delim c) eqn:Hc.
    + rewrite (words_app_separator delim tok c rest Hc).
      pose proof (IH true [] ltac:(constructor) (fun _ => eq_refl)) as IH'.
      destruct inRun.
      * rewrite (Hrun eq_refl). exact IH'.
      * destruct tok as [|t tok'].
        -- exact IH'.
        -- rewrite (words_word delim (t :: tok')) by (split; [discriminate | exact Hclean]).
           cbn [List.filter length Nat.ltb Nat.leb app]. f_equal. exact IH'.
    + replace (tok ++ c :: rest) with ((tok ++ [c]) ++ rest)
        by (now rewrite <- app_assoc).
      apply IH.
      * apply Forall_app. split; [exact Hclean | repeat constructor; exact Hc].
      * discriminate.
Qed.

Lemma split_words s :
  List.filter (fun w => (0 <? length w)%nat) (split delim s) = Words.words delim s.
Proof. apply (splitRuns_words s false []); [constructor | discriminate]. Qed.

End SplitWords.

Lemma filter_map_filter {A B : Type} (f : A -> B) (P : B -> bool) (Q : A -> bool) l :
  (forall x, Q x = false -> P (f x) = false) ->
  List.filter P (map f l) = List.filter P (map f (List.filter Q l)).
Proof.
  intros H. induction l as [|x rest IH]; [reflexivity|].
  cbn [map List.filter]. destruct (Q x) eqn:Hq.
  - cbn [map List.filter]. now rewrite IH.
  - now rewrite (H x Hq).
Qed.

Lemma getWordCount_words text :
  getWordCount text = length (Words.words isWhiteSpace text).
Proof. unfold getWordCount. now rewrite split_words. Qed.

Lemma getSignificantWords_words text :
  getSignificantWords text =
  List.filter
    (fun word =>
       (MIN_WORD_LENGTH <=? length word)%nat && negb (isStopWord word) && testAlphabetic word)
    (map toLowerCase (Words.words isWhiteSpace text)).
Proof.
  unfold getSignificantWords. rewrite split_toLowerCase.
  rewrite <- split_words.
  apply filter_map_filter.
  intros w Hw. unfold toLowerCase. rewrite length_map.
  destruct w; [reflexivity | discriminate].
Qed.

Lemma trim_nil : trim [] = [].
Proof. reflexivity. Qed.

Lemma extractSentences_words text :
  extractSentences text =
  List.filter (fun s => (MIN_SENTENCE_LENGTH <=? length s)%nat)
              (map trim (Words.words isSentenceDelimiter text)).
Proof.
  unfold extractSentences. rewrite <- split_words.
  apply filter_map_filter.
  intros w Hw. destruct w; [reflexivity | discriminate].
Qed.

(** ** Clean text as a string of the detector *)

Section Narrowing.
Local Open Scope N_scope.

Lemma narrow_length s : length (narrow s) = length s.
Proof. apply length_map. Qed.

Lemma narrow_app a b : narrow (a ++ b) = narrow a ++ narrow b.
Proof. apply map_app. Qed.

Lemma narrow_join l :
  narrow (join SPACE l) = join " "%char (map narrow l).
Proof.
  destruct l as [|w rest]; [reflexivity|].
  cbn [join map]. rewrite narrow_app. f_equal.
  induction rest as [|w' rest' IH]; [reflexivity|].
  cbn [flat_map map]. unfold narrow at 1. rewrite map_app. cbn [map].
  f_equal. f_equal. exact IH.
Qed.

Lemma widen_narrow s : Forall (fun c => c < 256) s -> widen (narrow s) = s.
Proof.
  induction 1 as [|c rest Hc _ IH]; [reflexivity|].
  unfold widen, narrow in *. cbn [map]. now rewrite N_ascii_embedding, IH.
Qed.

Lemma isWhiteSpace_ascii c :
  c < 256 -> isWhiteSpace (ascii_of_N c) = isWhiteSpaceUnit c.
Proof.
  intros H. unfold isWhiteSpace, inRange, code. rewrite N_ascii_embedding by exact H.
  cbv [isWhiteSpaceUnit between oneOf existsb].
  repeat match goal with
         | |- context [(?a <=? ?b)] => destruct (N.leb_spec a b); try (exfalso; lia)
         | |- context [(?a =? ?b)] => destruct (N.eqb_spec a b); try (exfalso; lia)
         end; reflexivity.
Qed.

Lemma CleanWord_narrow w : CleanWord w -> Words.IsWord isWhiteSpace (narrow w).
Proof.
  intros [Hne Hu]. split.
  - destruct w; [congruence | discriminate].
  - unfold narrow. apply Forall_map.
    eapply Forall_impl; [exact Hu|]. intros c Hc. cbn beta.
    pose proof (isCleanUnit_bounds c Hc).
    rewrite isWhiteSpace_ascii by lia. now apply isCleanUnit_not_white.
Qed.

Lemma words_narrow_join l :
  Forall CleanWord l ->
  Words.words isWhiteSpace (narrow (join SPACE l)) = map narrow l.
Proof.
  intros Hl. rewrite narrow_join. apply words_join; [reflexivity|].
  apply Forall_map. eapply Forall_impl; [exact Hl|]. apply CleanWord_narrow.
Qed.

Lemma join_units {A : Type} (P : A -> Prop) sp (l : list (list A)) :
  P sp -> Forall (Forall P) l -> Forall P (join sp l).
Proof.
  intros Hsp Hl. destruct Hl as [|w rest Hw Hrest]; [constructor|].
  cbn [join]. apply Forall_app. split; [exact Hw|].
  induction Hrest as [|w' rest' Hw' _ IH]; [constructor|].
  cbn [flat_map]. apply Forall_app. split; [now constructor | exact IH].
Qed.

End Narrowing.

(** ** How the detector composes *)

Lemma toLowerUnit_idempotent c : toLowerUnit (toLowerUnit c) = toLowerUnit c.
Proof.
  destruct c as [[|] [|] [|] [|] [|] [|] [|] [|]]; vm_compute; reflexivity.
Qed.

Lemma toLowerCase_idempotent s : toLowerCase (toLowerCase s) = toLowerCase s.
Proof.
  unfold toLowerCase. rewrite map_map. apply map_ext. apply toLowerUnit_idempotent.
Qed.

Lemma getSignificantWords_toLowerCase text :
  getSignificantWords (toLowerCase text) = getSignificantWords text.
Proof. unfold getSignificantWords. now rewrite toLowerCase_idempotent. Qed.

Lemma calculateSimilarity_range text1 text2 :
  (0 <= calculateSimilarity text1 text2 <= 100)%Z.
Proof.
  rewrite calculateSimilarity_sets.
  destruct (bool_decide (wordSet text1 = ∅ \/ wordSet text2 = ∅)) eqn:H; [lia|].
  apply bool_decide_eq_false in H.
  apply percent_range.
  - apply union_size_pos. tauto.
  - apply intersection_le_union.
Qed.

Lemma calculateSentenceSimilarity_range sentence1 sentence2 :
  (0 <= calculateSentenceSimilarity sentence1 sentence2 <= 100)%Z.
Proof.
  rewrite calculateSentenceSimilarity_words. cbv zeta.
  destruct (bool_decide (getSignificantWords sentence1 = [] \/
                         getSignificantWords sentence2 = [])) eqn:H; [lia|].
  apply bool_decide_eq_false in H.
  pose proof (sharedCount_le (getSignificantWords sentence1) (getSignificantWords sentence2)).
  apply percent_range; [|lia].
  destruct (getSignificantWords sentence1); [tauto|]. simpl. lia.
Qed.

Lemma filter_all_true {A : Type} (P : A -> Prop) `{forall x, Decision (P x)} (l : list A) :
  Forall P l -> filter P l = l.
Proof.
  induction 1 as [|x rest Hx _ IH]; [reflexivity|].
  rewrite filter_cons_True by exact Hx. now rewrite IH.
Qed.

Lemma sharedCount_self words : sharedCount words words = length words.
Proof.
  unfold sharedCount. rewrite filter_all_true; [reflexivity|].
  apply Forall_forall. intros w Hw. exact Hw.
Qed.

Lemma calculateSentenceSimilarity_self sentence :
  getSignificantWords sentence <> [] ->
  calculateSentenceSimilarity sentence sentence = 100%Z.
Proof.
  intros H. rewrite calculateSentenceSimilarity_words. cbv zeta.
  rewrite bool_decide_eq_false_2 by tauto.
  rewrite sharedCount_self, Nat.max_id.
  apply percent_full. destruct (getSignificantWords sentence); [congruence|simpl; lia].
Qed.

Lemma calculateSimilarity_self text :
  getSignificantWords text <> [] -> calculateSimilarity text text = 100%Z.
Proof.
  intros H. rewrite calculateSimilarity_sets.
  assert (Hne : wordSet text <> ∅) by (now rewrite wordSet_empty).
  rewrite bool_decide_eq_false_2 by tauto.
  rewrite (idemp_L (∩)), (idemp_L (∪)).
  apply percent_full.
  destruct (decide (size (wordSet text) = 0%nat)) as [E|E]; [|lia].
  apply size_empty_inv in E. apply leibniz_equiv in E. contradiction.
Qed.

(** ** What [cleanText] returns *)

(** X1: [cleanText] returns the clean words of the text with one space
    between each two.  The clean words are read off the text code unit by
    code unit: white space separates words, control codes and the code
    units from U+FFF0 are dropped, letters, digits, the underscore and the
    eleven listed marks are kept, and every other code unit separates
    words as a space does.  No word is empty, and each one holds kept code
    units only. *)
Theorem cleanText_clean_words text :
  PDFExtractor.cleanText text = join SPACE (cleanWords text) /\
  Forall CleanWord (cleanWords text).
Proof. split; [apply cleanText_cleanWords | apply cleanWords_CleanWord]. Qed.

Lemma CleanWord_units w : CleanWord w -> Forall (fun c => (32 <= c <= 122)%N) w.
Proof.
  intros [_ Hu]. eapply Forall_impl; [exact Hu|].
  intros c Hc. pose proof (isCleanUnit_bounds c Hc). lia.
Qed.

Lemma cleanText_units text :
  Forall (fun c => (32 <= c <= 122)%N) (PDFExtractor.cleanText text).
Proof.
  rewrite cleanText_cleanWords. apply join_units; [unfold SPACE; lia|].
  eapply Forall_impl; [apply cleanWords_CleanWord|]. apply CleanWord_units.
Qed.

(** X2: every code unit of a cleaned text lies between U+0020 and
    U+007A, so the text is a string of the detector as it stands:
    narrowing it to code units below 256 loses nothing. *)
Theorem cleanText_narrow text :
  Forall (fun c => (32 <= c <= 122)%N) (PDFExtractor.cleanText text) /\
  widen (narrow (PDFExtractor.cleanText text)) = PDFExtractor.cleanText text.
Proof.
  split; [apply cleanText_units|].
  apply widen_narrow. eapply Forall_impl; [apply cleanText_units|].
  intros c Hc. cbn beta in Hc. lia.
Qed.

Lemma cleanText_join l :
  Forall CleanWord l -> PDFExtractor.cleanText (join SPACE l) = join SPACE l.
Proof. intros Hl. now rewrite cleanText_cleanWords, cleanWords_join. Qed.

(** X3: cleaning a cleaned text changes nothing. *)
Theorem cleanText_idempotent text :
  PDFExtractor.cleanText (PDFExtractor.cleanText text) = PDFExtractor.cleanText text.
Proof.
  rewrite (cleanText_cleanWords text).
  apply cleanText_join, cleanWords_CleanWord.
Qed.

(** X4: the texts [cleanText] leaves as they are are the sequences of
    clean words with one space between each two. *)
Theorem cleanText_fixed_points text :
  PDFExtractor.cleanText text = text <->
  exists words, Forall CleanWord words /\ text = join SPACE words.
Proof.
  split.
  - intros E. exists (cleanWords text). split; [apply cleanWords_CleanWord|].
    rewrite <- E at 1. apply cleanText_cleanWords.
  - intros (words & Hw & ->). now apply cleanText_join.
Qed.

(** X5: a cleaned text is never longer than the text. *)
Theorem cleanText_never_longer text :
  (length (PDFExtractor.cleanText text) <= length text)%nat.
Proof. apply cleanText_length. Qed.

(** X6: two texts with separating code units between them are
    cleaned word by word: the clean words of the whole are those of the
    first text, then those of the second.  White space separates, and so
    does every code unit that is neither removed nor kept, an accented
    letter for one. *)
Theorem cleanText_concatenation a run b :
  run <> [] -> Forall (fun c => isSeparatingUnit c = true) run ->
  PDFExtractor.cleanText (a ++ run ++ b) = join SPACE (cleanWords a ++ cleanWords b).
Proof.
  intros Hne Hrun. rewrite cleanText_cleanWords. f_equal.
  destruct run as [|c run']; [congruence|].
  inversion Hrun as [|? ? Hc Hrun']; subst.
  change ((c :: run') ++ b) with (c :: (run' ++ b)).
  rewrite (cleanWords_app_separating a c _ Hc). f_equal.
  clear Hne Hrun. induction Hrun' as [|d run'' Hd _ IH]; [reflexivity|].
  change ((d :: run'') ++ b) with ([] ++ d :: (run'' ++ b)).
  rewrite (cleanWords_app_separating [] d _ Hd). exact IH.
Qed.

Lemma cleanText_concatenation_witness :
  PDFExtractor.cleanText (ustr "first page" ++ [10; 233; 13]%N ++ ustr "second")
  = join SPACE (cleanWords (ustr "first page") ++ cleanWords (ustr "second")).
Proof.
  apply cleanText_concatenation; [discriminate|].
  repeat constructor.
Defined.

(** X7: a removed code unit leaves no trace, not even a gap: the
    text is cleaned as if the code unit were not there, so the two halves
    of a word with a control code inside are joined. *)
Theorem cleanText_removed_unit a c b :
  isWhiteSpaceUnit c = false -> isRemovedUnit c = true ->
  PDFExtractor.cleanText (a ++ c :: b) = PDFExtractor.cleanText (a ++ b).
Proof.
  intros Hw Hr. rewrite !cleanText_cleanWords. f_equal.
  now apply cleanWords_app_removed.
Qed.

Lemma cleanText_removed_unit_witness :
  PDFExtractor.cleanText (ustr "plagi" ++ 1%N :: ustr "arism")
  = PDFExtractor.cleanText (ustr "plagi" ++ ustr "arism").
Proof. apply cleanText_removed_unit; reflexivity. Defined.

Section KeptUnits.

Lemma concat_words {A : Type} (separator : A -> bool) s :
  concat (Words.words separator s) = List.filter (fun c => negb (separator c)) s.
Proof.
  induction s as [|c rest IH]; [reflexivity|].
  rewrite words_cons_eq. cbn [List.filter].
  destruct (separator c) eqn:Hc; cbn [negb]; [exact IH|].
  rewrite <- IH. destruct rest as [|c' rest']; [reflexivity|].
  destruct (separator c') eqn:Hc'; [reflexivity|].
  destruct (words_cons_head separator c' rest' Hc') as (word & others & E).
  rewrite E. reflexivity.
Qed.

Lemma filter_join_words l :
  Forall CleanWord l ->
  List.filter (fun c => negb (c =? SPACE)%N) (join SPACE l) = concat l.
Proof.
  intros Hl.
  assert (Hw : forall w, CleanWord w ->
                 List.filter (fun c => negb (c =? SPACE)%N) w = w).
  { intros w [_ Hu]. induction Hu as [|c rest Hc _ IH]; [reflexivity|].
    cbn [List.filter]. pose proof (isCleanUnit_bounds c Hc).
    destruct (N.eqb_spec c SPACE) as [E|_]; [unfold SPACE in E; lia|].
    cbn [negb]. now rewrite IH. }
  induction Hl as [|w rest Hcw Hrest IH]; [reflexivity|].
  destruct rest as [|w' rest'].
  - cbn [join flat_map concat]. rewrite !app_nil_r. now apply Hw.
  - change (join SPACE (w :: w' :: rest')) with (w ++ SPACE :: join SPACE (w' :: rest')).
    rewrite List.filter_app. cbn [List.filter].
    change (negb (SPACE =? SPACE)%N) with false. cbv iota.
    rewrite IH, (Hw w Hcw). reflexivity.
Qed.

Lemma filter_normalize s :
  List.filter (fun c => negb (isWhiteSpaceUnit c)) (flat_map normalizeUnit s)
  = List.filter isCleanUnit s.
Proof.
  induction s as [|c rest IH]; [reflexivity|].
  cbn [flat_map List.filter]. rewrite List.filter_app, IH.
  destruct (isWhiteSpaceUnit c) eqn:Hw.
  - rewrite normalizeUnit_white by exact Hw.
    destruct (isCleanUnit c) eqn:Hk; [|reflexivity].
    rewrite (isCleanUnit_not_white c Hk) in Hw. discriminate.
  - destruct (normalizeUnit_cases c Hw) as [E | [E | [E Hk]]]; rewrite E.
    + destruct (isCleanUnit c) eqn:Hk; [|reflexivity].
      rewrite (normalizeUnit_clean c Hk) in E. discriminate.
    + destruct (isCleanUnit c) eqn:Hk; [|reflexivity].
      rewrite (normalizeUnit_clean c Hk) in E. injection E as E.
      pose proof (isCleanUnit_bounds c Hk). unfold SPACE in E. lia.
    + rewrite Hk. cbn [List.filter app]. now rewrite Hw.
Qed.

End KeptUnits.

(** X8: cleaning never alters or reorders what it keeps: without its
    spaces, the cleaned text is the sequence of the letters, digits,
    underscores and listed marks of the text, in the order of the text. *)
Theorem cleanText_keeps_clean_units text :
  List.filter (fun c => negb (c =? SPACE)%N) (PDFExtractor.cleanText text)
  = List.filter isCleanUnit text.
Proof.
  rewrite cleanText_cleanWords, filter_join_words by apply cleanWords_CleanWord.
  unfold cleanWords. rewrite concat_words. apply filter_normalize.
Qed.

Lemma cleanWords_nothing_kept text :
  Forall (fun c => isCleanUnit c = false) text -> cleanWords text = [].
Proof.
  intros H. unfold cleanWords. apply words_all_separators.
  induction H as [|c rest Hc _ IH]; [constructor|].
  cbn [flat_map]. apply Forall_app. split; [|exact IH].
  unfold normalizeUnit. rewrite Hc.
  destruct (isWhiteSpaceUnit c); [repeat constructor|].
  destruct (isRemovedUnit c); repeat constructor.
Qed.

(** X9: a text without a letter, a digit, an underscore or a listed
    mark is cleaned to the empty text. *)
Theorem cleanText_nothing_kept text :
  Forall (fun c => isCleanUnit c = false) text -> PDFExtractor.cleanText text = [].
Proof.
  intros H. now rewrite cleanText_cleanWords, cleanWords_nothing_kept.
Qed.

Lemma cleanText_nothing_kept_witness :
  PDFExtractor.cleanText [1087; 1083; 1072; 1075; 32; 233; 9; 8364]%N = [].
Proof.
  apply cleanText_nothing_kept. repeat constructor.
Defined.

(** ** The component *)

Section ComponentProofs.

Import PDFExtractor.

Variable paintImageXObject : N.

Local Abbreviation upload := (Component.handleFileUpload paintImageXObject).

Lemma submissionSimilarity_range content results :
  exists z, submissionSimilarity content results = Int z /\ (0 <= z <= 100)%Z.
Proof.
  unfold submissionSimilarity. destruct results as [|r rest].
  - exists 0%Z. split; [reflexivity | lia].
  - cbn [length Nat.ltb Nat.leb map].
    destruct (Math_max_greatest
                (calculateSimilarity content (DetectionResult.content r))
                (map (fun result => calculateSimilarity content (DetectionResult.content result))
                     rest)) as (best & E & Hin & _).
    exists best. split; [exact E|].
    destruct Hin as [<- | Hin]; [apply calculateSimilarity_range|].
    apply in_map_iff in Hin as (x & <- & _). apply calculateSimilarity_range.
Qed.

Lemma findDetailedMatches_length text corpus :
  (length (findDetailedMatches text corpus) <= 5)%nat.
Proof. unfold findDetailedMatches, slice0. rewrite length_firstn. lia. Qed.

Lemma findDetailedMatches_similarities text corpus :
  Forall (fun m => (75 <= MatchedSentence.similarity m <= 100)%Z)
         (findDetailedMatches text corpus).
Proof.
  apply Forall_forall. intros m Hm.
  apply list_elem_of_In, findDetailedMatches_collected, collectMatches_In in Hm
    as (result & sentence & existing & _ & _ & _ & H75 & ->).
  cbn [MatchedSentence.similarity].
  pose proof (calculateSentenceSimilarity_range sentence existing). lia.
Qed.

(** What [extractTextFromFile] returns is a cleaned text of ten code
    units or more, with a page count for a PDF file only. *)
Lemma extractTextFromFile_inr file content pageCount :
  Component.extractTextFromFile paintImageXObject file = inr (content, pageCount) ->
  (exists raw, content = cleanText raw) /\
  (MIN_TEXT_LENGTH <= length content)%nat /\
  (Component.size file <= MAX_FILE_SIZE)%N /\
  ((Component.type file = str "application/pdf" /\ exists n, pageCount = Some n) \/
   (Component.type file = str "text/plain" /\ pageCount = None)).
Proof.
  unfold Component.extractTextFromFile, jsstring_eqb.
  destruct (bool_decide (Component.type file = str "application/pdf")) eqn:Hpdf.
  - apply bool_decide_eq_true in Hpdf.
    unfold extractText.
    destruct (N.ltb_spec MAX_FILE_SIZE (Component.size file)) as [Hs|Hs]; [discriminate|].
    destruct (Component.pdf file) as [message| |pages]; try discriminate.
    destruct (fold_left (readPage paintImageXObject) pages ([], false))
      as [fullText images].
    destruct (Nat.ltb_spec (length (cleanText fullText)) MIN_TEXT_LENGTH) as [Hl|Hl].
    + destruct images; discriminate.
    + cbn [andb]. intros E. injection E as <- <-.
      split; [now exists fullText|]. split; [exact Hl|]. split; [exact Hs|].
      left. split; [exact Hpdf | eauto].
  - destruct (bool_decide (Component.type file = str "text/plain")) eqn:Htxt;
      [|discriminate].
    apply bool_decide_eq_true in Htxt.
    unfold extractFromTXT.
    destruct (N.ltb_spec MAX_FILE_SIZE (Component.size file)) as [Hs|Hs]; [discriminate|].
    cbv zeta.
    destruct (Nat.ltb_spec (length (cleanText (Component.text file))) MIN_TEXT_LENGTH)
      as [Hl|Hl]; [discriminate|].
    intros E. injection E as <- <-.
    split; [now exists (Component.text file)|]. split; [exact Hl|]. split; [exact Hs|].
    right. now split.
Qed.

Lemma upload_cases id now file st :
  (exists e,
      upload id now (Some file) st
      = {| Component.results := Component.results st;
           Component.loading := false;
           Component.error := Some e |}) \/
  (exists content pageCount,
      Component.extractTextFromFile paintImageXObject file = inr (content, pageCount) /\
      (50 <= length content)%nat /\
      upload id now (Some file) st
      = {| Component.results :=
             newResult id now file content pageCount (Component.results st)
             :: Component.results st;
           Component.loading := false;
           Component.error := None |}).
Proof.
  unfold Component.handleFileUpload.
  destruct (Component.extractTextFromFile paintImageXObject file) as [e|[content pageCount]];
    [left; now exists e|].
  unfold App.handleFileUpload. rewrite narrow_length.
  destruct (Nat.ltb_spec (length content) 50) as [Hl|Hl].
  - left. eexists. reflexivity.
  - right. exists content, pageCount.
    split; [reflexivity|]. split; [exact Hl | reflexivity].
Qed.

Lemma newResult_Kept id now file content pageCount results :
  Component.extractTextFromFile paintImageXObject file = inr (content, pageCount) ->
  (50 <= length content)%nat ->
  Kept (newResult id now file content pageCount results).
Proof.
  intros E Hl.
  apply extractTextFromFile_inr in E as ((raw & ->) & _ & _ & Htype).
  unfold Kept, newResult. cbn [DetectionResult.content DetectionResult.wordCount
    DetectionResult.similarity DetectionResult.matches DetectionResult.fileType
    DetectionResult.pageCount].
  split; [|split; [|split; [|split; [|split]]]].
  - exists (cleanWords raw). split; [apply cleanWords_CleanWord|].
    rewrite cleanText_cleanWords. split; [reflexivity|].
    rewrite getWordCount_words, words_narrow_join by apply cleanWords_CleanWord.
    apply length_map.
  - now rewrite narrow_length.
  - apply submissionSimilarity_range.
  - apply findDetailedMatches_length.
  - apply findDetailedMatches_similarities.
  - exact Htype.
Qed.

End ComponentProofs.

(** ** Uploads, deletions and what is kept *)

(** X10: when [handleFileUpload] is over the component is not loading,
    and either an error is shown and the results are the ones there
    were, or no error is shown and one result has been put in front of
    them: it carries the identifier, the name of the file and the time of
    the upload, and it is as every kept result is ([Kept]). *)
Theorem handleFileUpload_outcome paintImageXObject id now file st :
  let st' := Component.handleFileUpload paintImageXObject id now (Some file) st in
  Component.loading st' = false /\
  ((exists e, Component.error st' = Some e /\
              Component.results st' = Component.results st) \/
   (Component.error st' = None /\
    exists r, Component.results st' = r :: Component.results st /\
              DetectionResult.id r = id /\
              DetectionResult.fileName r = Component.name file /\
              DetectionResult.timestamp r = now /\
              Kept r)).
Proof.
  cbv zeta.
  destruct (upload_cases paintImageXObject id now file st)
    as [(e & ->) | (content & pageCount & E & Hl & ->)].
  - split; [reflexivity|]. left. now exists e.
  - split; [reflexivity|]. right. split; [reflexivity|].
    eexists. split; [reflexivity|].
    split; [reflexivity|]. split; [reflexivity|]. split; [reflexivity|].
    now apply (newResult_Kept paintImageXObject).
Qed.

Lemma handle_Kept paintImageXObject st e :
  Forall Kept (Component.results st) ->
  Forall Kept (Component.results (Component.handle paintImageXObject st e)).
Proof.
  intros H. destruct e as [id now file | id | ].
  - cbn [Component.handle].
    destruct (upload_cases paintImageXObject id now file st)
      as [(e & ->) | (content & pageCount & E & Hl & ->)]; [exact H|].
    cbn [Component.results]. constructor; [|exact H].
    now apply (newResult_Kept paintImageXObject).
  - cbn [Component.handle Component.deleteResult Component.results].
    induction H as [|r rest Hr _ IH]; [constructor|].
    cbn [List.filter]. destruct (negb _); [now constructor | exact IH].
  - constructor.
Qed.

(** X11: whatever files are uploaded and whatever results are deleted,
    one event after the other, every result the component holds is as
    [Kept] says: a content of clean words and single spaces, of fifty code
    units or more, the word count of these words, a similarity from 0 to
    100, at most five matches of a similarity from 75 to 100, and a page
    count for a PDF file only. *)
Theorem results_always_kept paintImageXObject events :
  Forall Kept (Component.results (Component.run paintImageXObject events)).
Proof.
  unfold Component.run.
  assert (H : Forall Kept (Component.results Component.initial)) by constructor.
  revert H. generalize Component.initial as st.
  induction events as [|e rest IH]; intros st H; [exact H|].
  cbn [fold_left]. apply IH. now apply handle_Kept.
Qed.

(** X12: what becomes of a plain text file.  Above 20 MB the size is
    the error, whatever the file holds.  Otherwise the text is cleaned:
    below 10 code units the extractor refuses it, from 10 to 49 the
    component refuses it, and from 50 on it is accepted, with the cleaned
    text as its content and no page count.  A refused file leaves the
    results as they were. *)
Theorem upload_text_file paintImageXObject id now file st :
  Component.type file = str "text/plain" ->
  let cleaned := PDFExtractor.cleanText (Component.text file) in
  let st' := Component.handleFileUpload paintImageXObject id now (Some file) st in
  let refused message :=
    Component.error st' = Some message /\ Component.results st' = Component.results st in
  if (PDFExtractor.MAX_FILE_SIZE <? Component.size file)%N
  then refused (PDFExtractor.FileTooLarge (Component.size file))
  else if (length cleaned <? 10)%nat
  then refused (PDFExtractor.Failure
                  (ustr "Text file is too short or contains no readable content."))
  else if (length cleaned <? 50)%nat
  then refused (PDFExtractor.Failure
                  (ustr "File content is too short for meaningful plagiarism detection."))
  else Component.error st' = None /\
       exists r, Component.results st' = r :: Component.results st /\
                 DetectionResult.content r = narrow cleaned /\
                 DetectionResult.pageCount r = None.
Proof.
  intros Htype. cbv zeta.
  unfold Component.handleFileUpload, Component.extractTextFromFile, jsstring_eqb.
  rewrite Htype.
  rewrite bool_decide_eq_false_2 by (vm_compute; congruence).
  rewrite bool_decide_eq_true_2 by reflexivity.
  unfold PDFExtractor.extractFromTXT.
  destruct (PDFExtractor.MAX_FILE_SIZE <? Component.size file)%N; [now split|].
  cbv zeta. change PDFExtractor.MIN_TEXT_LENGTH with 10%nat.
  destruct (length (PDFExtractor.cleanText (Component.text file)) <? 10)%nat; [now split|].
  unfold App.handleFileUpload. rewrite narrow_length.
  destruct (length (PDFExtractor.cleanText (Component.text file)) <? 50)%nat; [now split|].
  split; [reflexivity|]. eexists. split; [reflexivity|]. now split.
Qed.

(** X13: deleting the identifier of an upload right after it gives
    back the results there were before, when no result carried that
    identifier: the new result goes if the file was accepted, and no other
    result does. *)
Theorem delete_after_upload paintImageXObject id now file st :
  Forall (fun r => DetectionResult.id r <> id) (Component.results st) ->
  Component.results
    (Component.deleteResult id
       (Component.handleFileUpload paintImageXObject id now (Some file) st))
  = Component.results st.
Proof.
  intros Hfresh.
  assert (Hkeep : List.filter
            (fun result => negb (jsstring_eqb (DetectionResult.id result) id))
            (Component.results st) = Component.results st).
  { induction Hfresh as [|r rest Hr _ IH]; [reflexivity|].
    cbn [List.filter]. unfold jsstring_eqb at 1.
    rewrite bool_decide_eq_false_2 by exact Hr. cbn [negb]. now rewrite IH. }
  destruct (upload_cases paintImageXObject id now file st)
    as [(e & ->) | (content & pageCount & E & Hl & ->)].
  - exact Hkeep.
  - cbn [Component.deleteResult Component.results List.filter newResult DetectionResult.id].
    unfold jsstring_eqb at 1. rewrite bool_decide_eq_true_2 by reflexivity.
    exact Hkeep.
Qed.

(** X14: the colour of the percentage, the background of the card and
    the label always name the same band: green and low below 20, yellow
    and medium from 20 to 49, red and high from 50 on. *)
Theorem similarity_bands_agree z :
  let similarity := Int z in
  ((z < 20)%Z /\
   Component.getSimilarityColor similarity = str "text-green-600" /\
   Component.getSimilarityBg similarity = str "bg-green-100 border-green-200" /\
   Component.similarityLabel similarity = str "Low Similarity") \/
  ((20 <= z < 50)%Z /\
   Component.getSimilarityColor similarity = str "text-yellow-600" /\
   Component.getSimilarityBg similarity = str "bg-yellow-100 border-yellow-200" /\
   Component.similarityLabel similarity = str "Medium Similarity") \/
  ((50 <= z)%Z /\
   Component.getSimilarityColor similarity = str "text-red-600" /\
   Component.getSimilarityBg similarity = str "bg-red-100 border-red-200" /\
   Component.similarityLabel similarity = str "High Similarity").
Proof.
  cbv zeta.
  unfold Component.getSimilarityColor, Component.getSimilarityBg,
    Component.similarityLabel, Component.lessThan.
  destruct (Z.ltb_spec z 20); [left; now repeat split|].
  destruct (Z.ltb_spec z 50); [right; left | right; right]; now repeat split.
Qed.

(** ** More on the detector *)

(** X15: the significant words of two texts with white space between
    them are those of the first text, then those of the second, and the
    word count of the whole is the sum of the two word counts. *)
Theorem tokens_of_concatenation a run b :
  run <> [] -> Forall (fun c => isWhiteSpace c = true) run ->
  getSignificantWords (a ++ run ++ b) = getSignificantWords a ++ getSignificantWords b /\
  getWordCount (a ++ run ++ b) = (getWordCount a + getWordCount b)%nat.
Proof.
  intros Hne Hrun. split.
  - rewrite !getSignificantWords_words.
    rewrite (words_app_separators isWhiteSpace a run b Hne Hrun).
    now rewrite map_app, List.filter_app.
  - rewrite !getWordCount_words.
    rewrite (words_app_separators isWhiteSpace a run b Hne Hrun).
    apply length_app.
Qed.

Lemma tokens_of_concatenation_witness :
  getSignificantWords (str "quick brown" ++ str "  " ++ str "foxes jump")
  = getSignificantWords (str "quick brown") ++ getSignificantWords (str "foxes jump") /\
  getWordCount (str "quick brown" ++ str "  " ++ str "foxes jump")
  = (getWordCount (str "quick brown") + getWordCount (str "foxes jump"))%nat.
Proof.
  apply tokens_of_concatenation; [discriminate|].
  repeat constructor.
Defined.

(** X16: the sentences of two texts with sentence delimiters between
    them are those of the first text, then those of the second. *)
Theorem extractSentences_concatenation a run b :
  run <> [] -> Forall (fun c => isSentenceDelimiter c = true) run ->
  extractSentences (a ++ run ++ b) = extractSentences a ++ extractSentences b.
Proof.
  intros Hne Hrun. rewrite !extractSentences_words.
  rewrite (words_app_separators isSentenceDelimiter a run b Hne Hrun).
  now rewrite map_app, List.filter_app.
Qed.

Lemma extractSentences_concatenation_witness :
  extractSentences (str "Climate change is pressing" ++ str "?!" ++ str " It requires action")
  = extractSentences (str "Climate change is pressing")
    ++ extractSentences (str " It requires action").
Proof.
  apply extractSentences_concatenation; [discriminate|].
  repeat constructor.
Defined.

(** X17: both similarities ignore the case of letters: they are the
    same on the lower-cased texts. *)
Theorem similarity_ignores_case text1 text2 :
  calculateSimilarity (toLowerCase text1) (toLowerCase text2)
  = calculateSimilarity text1 text2 /\
  calculateSentenceSimilarity (toLowerCase text1) (toLowerCase text2)
  = calculateSentenceSimilarity text1 text2.
Proof.
  unfold calculateSimilarity, calculateSentenceSimilarity.
  now rewrite !getSignificantWords_toLowerCase.
Qed.

Section Threshold.
Local Open Scope Z_scope.

Lemma threshold_share (shared larger : nat) :
  (0 < larger)%nat -> (shared <= larger)%nat -> Z.of_nat larger < 2 ^ 32 ->
  (75 <= percent shared larger -> 149 * Z.of_nat larger <= 200 * Z.of_nat shared) /\
  (151 * Z.of_nat larger <= 200 * Z.of_nat shared -> 75 <= percent shared larger).
Proof.
  intros Hpos Hle Hlt.
  pose proof (percent_nearest shared larger Hpos Hle Hlt) as Hn.
  split; intros H.
  - apply Z.abs_le in Hn. nia.
  - apply Z.abs_le in Hn.
    destruct (Z_lt_le_dec (percent shared larger) 75) as [Hp|Hp]; [|exact Hp].
    exfalso. assert (percent shared larger <= 74) by lia. nia.
Qed.

Lemma sentence_words_counts sentence existing :
  let words1 := getSignificantWords sentence in
  let words2 := getSignificantWords existing in
  words1 <> [] -> words2 <> [] ->
  (0 < Nat.max (length words1) (length words2))%nat /\
  (sharedCount words1 words2 <= Nat.max (length words1) (length words2))%nat.
Proof.
  cbv zeta. intros H1 H2.
  pose proof (sharedCount_le (getSignificantWords sentence) (getSignificantWords existing)).
  destruct (getSignificantWords sentence); [congruence|]. cbn [length] in *. lia.
Qed.

(** X18: what the threshold of 75 means.  An entry of
    [findDetailedMatches] comes from a sentence of the text and a sentence
    of a document of the corpus that share a significant word; and when
    the longer of the two has fewer than [2 ^ 32] significant words, the
    shared ones are at least 74.5 percent of its count. *)
Theorem match_shares_words text corpus m :
  In m (findDetailedMatches text corpus) ->
  exists result sentence existing,
    In result corpus /\
    In sentence (extractSentences text) /\
    In existing (extractSentences (DetectionResult.content result)) /\
    MatchedSentence.sentence m = displayed sentence /\
    MatchedSentence.sourceFile m = DetectionResult.fileName result /\
    let words1 := getSignificantWords sentence in
    let words2 := getSignificantWords existing in
    let larger := Nat.max (length words1) (length words2) in
    (0 < sharedCount words1 words2)%nat /\
    (Z.of_nat larger < 2 ^ 32 ->
     149 * Z.of_nat larger <= 200 * Z.of_nat (sharedCount words1 words2)).
Proof.
  intros Hm.
  apply findDetailedMatches_collected, collectMatches_In in Hm
    as (result & sentence & existing & Hr & Hs & He & H75 & ->).
  exists result, sentence, existing.
  repeat (split; [assumption || reflexivity|]).
  cbv zeta. rewrite calculateSentenceSimilarity_words in H75. cbv zeta in H75.
  destruct (bool_decide (getSignificantWords sentence = [] \/
                         getSignificantWords existing = [])) eqn:Hd; [lia|].
  apply bool_decide_eq_false in Hd.
  destruct (sentence_words_counts sentence existing) as [Hpos Hle]; [tauto | tauto |].
  split.
  - destruct (sharedCount (getSignificantWords sentence) (getSignificantWords existing))
      eqn:E; [|lia].
    rewrite percent_zero in H75 by exact Hpos. lia.
  - intros Hlt. now apply (threshold_share _ _ Hpos Hle Hlt).
Qed.

Lemma match_shares_words_witness :
  exists result sentence existing,
    In result [document (str "doc1") climate] /\
    In sentence (extractSentences climate) /\
    In existing (extractSentences (DetectionResult.content result)) /\
    MatchedSentence.sentence
      (matchOf "Climate change is a pressing global issue that requires immediate action"
               100 "doc1") = displayed sentence /\
    MatchedSentence.sourceFile
      (matchOf "Climate change is a pressing global issue that requires immediate action"
               100 "doc1") = DetectionResult.fileName result /\
    (0 < sharedCount (getSignificantWords sentence) (getSignificantWords existing))%nat /\
    (Z.of_nat (Nat.max (length (getSignificantWords sentence))
                       (length (getSignificantWords existing))) < 2 ^ 32 ->
     149 * Z.of_nat (Nat.max (length (getSignificantWords sentence))
                             (length (getSignificantWords existing)))
     <= 200 * Z.of_nat (sharedCount (getSignificantWords sentence)
                                    (getSignificantWords existing))).
Proof.
  apply (match_shares_words climate [document (str "doc1") climate]).
  vm_compute. left. reflexivity.
Defined.

Lemma descending_head_greatest {A : Type} (key : A -> Z) (l : list A) n x :
  descending key l -> In x l ->
  In x (firstn n l) \/
  (length (firstn n l) = n /\ forall y, In y (firstn n l) -> key x <= key y).
Proof.
  intros Hd Hin.
  rewrite <- (firstn_skipn n l) in Hin, Hd.
  apply in_app_or in Hin as [Hin|Hin]; [now left|].
  right. split.
  - destruct (Nat.le_gt_cases n (length l)) as [Hn|Hn].
    + rewrite length_firstn. lia.
    + rewrite skipn_all2 in Hin by lia. destruct Hin.
  - intros y Hy. unfold descending in Hd.
    revert Hd Hy. generalize (firstn n l) as front. intros front.
    induction front as [|f front' IH]; intros Hd Hy; [destruct Hy|].
    cbn [app] in Hd. apply StronglySorted_inv in Hd as [Hrest Hf].
    destruct Hy as [<- | Hy].
    + rewrite List.Forall_forall in Hf. apply Hf. apply in_or_app. now right.
    + now apply IH.
Qed.

(** X19: no qualifying pair is passed over.  A sentence of the text
    and a sentence of a document of the corpus whose similarity is 75 or
    more give an entry of [findDetailedMatches], unless the result has
    five entries that are all at least as similar. *)
Theorem qualifying_pair_reported text corpus result sentence existing :
  In result corpus ->
  In sentence (extractSentences text) ->
  In existing (extractSentences (DetectionResult.content result)) ->
  75 <= calculateSentenceSimilarity sentence existing ->
  In {| MatchedSentence.sentence := displayed sentence;
        MatchedSentence.similarity := calculateSentenceSimilarity sentence existing;
        MatchedSentence.sourceFile := DetectionResult.fileName result |}
     (findDetailedMatches text corpus) \/
  (length (findDetailedMatches text corpus) = 5%nat /\
   forall m, In m (findDetailedMatches text corpus) ->
             calculateSentenceSimilarity sentence existing <= MatchedSentence.similarity m).
Proof.
  intros Hr Hs He H75.
  set (m0 := {| MatchedSentence.sentence := displayed sentence;
                MatchedSentence.similarity := calculateSentenceSimilarity sentence existing;
                MatchedSentence.sourceFile := DetectionResult.fileName result |}).
  assert (Hin : In m0 (collectMatches text corpus)).
  { apply collectMatches_In. exists result, sentence, existing. now repeat split. }
  destruct (sort_Ranked (collectMatches text corpus)) as (Hperm & Hdesc & _).
  assert (Hsorted : In m0 (sort bySimilarity (collectMatches text corpus))).
  { eapply Permutation_in; [symmetry; exact Hperm | exact Hin]. }
  unfold findDetailedMatches, slice0.
  apply (descending_head_greatest MatchedSentence.similarity _ 5 m0 Hdesc Hsorted).
Qed.

Lemma qualifying_pair_reported_witness :
  In {| MatchedSentence.sentence := displayed (removelast climate);
        MatchedSentence.similarity :=
          calculateSentenceSimilarity (removelast climate) (removelast climate);
        MatchedSentence.sourceFile := str "doc1" |}
     (findDetailedMatches climate [document (str "doc1") climate]) \/
  (length (findDetailedMatches climate [document (str "doc1") climate]) = 5%nat /\
   forall m, In m (findDetailedMatches climate [document (str "doc1") climate]) ->
             calculateSentenceSimilarity (removelast climate) (removelast climate)
             <= MatchedSentence.similarity m).
Proof.
  apply (qualifying_pair_reported climate [document (str "doc1") climate]
           (document (str "doc1") climate) (removelast climate) (removelast climate)).
  - now left.
  - vm_compute. now left.
  - vm_compute. now left.
  - vm_compute. discriminate.
Defined.

End Threshold.

(** ** Text items of a PDF document *)

Section PdfText.

Import PDFExtractor.

Local Abbreviation white := isWhiteSpaceUnit.

Lemma skipWhile_nil p s : skipWhile p s = [] -> Forall (fun c => p c = true) s.
Proof.
  induction s as [|c rest IH]; intros E; [constructor|].
  cbn [skipWhile] in E. destruct (p c) eqn:Hc; [|discriminate].
  constructor; [exact Hc | now apply IH].
Qed.

Lemma skipWhile_split p s :
  exists dropped, s = dropped ++ skipWhile p s /\ Forall (fun c => p c = true) dropped.
Proof.
  induction s as [|c rest (dropped & E & Hd)]; [now exists []|].
  cbn [skipWhile]. destruct (p c) eqn:Hc.
  - exists (c :: dropped). split; [cbn [app]; now f_equal | now constructor].
  - now exists [].
Qed.

Lemma trimUnits_nil_white s : trimUnits s = [] -> Forall (fun c => white c = true) s.
Proof.
  unfold trimUnits, trimEndUnits, trimStartUnits. intros E.
  apply (f_equal (@rev N)) in E. rewrite rev_involutive in E. cbn [rev] in E.
  apply skipWhile_nil in E. apply Forall_rev in E. rewrite rev_involutive in E.
  destruct (skipWhile_split white s) as (dropped & Es & Hd).
  rewrite Es. apply Forall_app. now split.
Qed.

Lemma cleanWords_white s : Forall (fun c => white c = true) s -> cleanWords s = [].
Proof.
  intros H. unfold cleanWords. apply words_all_separators.
  induction H as [|c rest Hc _ IH]; [constructor|].
  cbn [flat_map]. rewrite normalizeUnit_white by exact Hc.
  constructor; [reflexivity | exact IH].
Qed.

Lemma cleanWords_blank s : (0 <? length (trimUnits s))%nat = false -> cleanWords s = [].
Proof.
  intros H. apply cleanWords_white, trimUnits_nil_white.
  destruct (trimUnits s); [reflexivity | discriminate].
Qed.

Lemma cleanWords_join_texts texts :
  cleanWords (join SPACE texts) = flat_map cleanWords texts.
Proof.
  induction texts as [|t rest IH]; [reflexivity|].
  destruct rest as [|t' rest'].
  - cbn [join flat_map]. now rewrite !app_nil_r.
  - change (join SPACE (t :: t' :: rest')) with (t ++ SPACE :: join SPACE (t' :: rest')).
    rewrite (cleanWords_app_white t SPACE _ isWhiteSpaceUnit_SPACE), IH.
    reflexivity.
Qed.

Lemma flat_map_filter_blank texts :
  flat_map cleanWords
    (List.filter (fun text => (0 <? length (trimUnits text))%nat) texts)
  = flat_map cleanWords texts.
Proof.
  induction texts as [|t rest IH]; [reflexivity|].
  cbn [List.filter flat_map].
  destruct (0 <? length (trimUnits t))%nat eqn:E.
  - cbn [flat_map]. now rewrite IH.
  - now rewrite (cleanWords_blank t E), IH.
Qed.

Lemma cleanWords_pageText items operators :
  cleanWords (pageText items) = pageWords (Page items operators).
Proof.
  unfold pageText, pageWords.
  rewrite cleanWords_join_texts, flat_map_filter_blank.
  induction items as [|item rest IH]; [reflexivity|].
  cbn [map flat_map]. rewrite IH. f_equal.
  destruct item as [[|c s]|]; reflexivity.
Qed.

(** The text and the flag the loop over the pages leaves. *)
Lemma readPage_fold paintImageXObject pages :
  forall fullText images,
    fold_left (readPage paintImageXObject) pages (fullText, images)
    = (fullText ++ flat_map pageLines pages,
       images || existsb (paintsImage paintImageXObject) pages).
Proof.
  induction pages as [|page rest IH]; intros fullText images.
  - cbn [fold_left existsb flat_map]. now rewrite app_nil_r, orb_false_r.
  - cbn [fold_left existsb flat_map].
    destruct page as [|items operators].
    + cbn [readPage paintsImage pageLines orb app]. apply IH.
    + cbn [readPage fst snd pageLines]. rewrite IH. f_equal.
      * change (ustr (String "010" EmptyString)) with [10%N].
        destruct (0 <? length (trimUnits (pageText items)))%nat.
        -- now rewrite <- !app_assoc.
        -- reflexivity.
      * rewrite orb_assoc. f_equal.
        unfold paintsImage. destruct operators as [|fnArray].
        -- now rewrite orb_false_r.
        -- destruct (existsb _ fnArray); [now rewrite orb_true_r | now rewrite orb_false_r].
Qed.

Lemma cleanWords_pageLines pages :
  cleanWords (flat_map pageLines pages) = flat_map pageWords pages.
Proof.
  induction pages as [|page rest IH]; [reflexivity|].
  cbn [flat_map]. destruct page as [|items operators]; [exact IH|].
  rewrite <- (cleanWords_pageText items operators).
  cbn [pageLines].
  destruct (0 <? length (trimUnits (pageText items)))%nat eqn:Hblank.
  - rewrite <- app_assoc. change ([10%N] ++ ?x) with (10%N :: x).
    rewrite (cleanWords_app_white (pageText items) 10%N _ eq_refl), IH. reflexivity.
  - rewrite (cleanWords_blank _ Hblank). exact IH.
Qed.

End PdfText.

(** ** The text of a PDF document *)

(** X20: the text [extractText] returns for a document that could be
    loaded is made of the clean words of the text items of the pages
    that could be read, in page and item order, with one space between
    each two; blank items, blank pages and the line feed after each page
    leave no trace.  Below 10 code units the extraction fails, with the
    scanned-images message exactly when a page that could be read paints
    an image.  The page count is the number of pages of the document,
    read or not. *)
Theorem extractText_loaded paintImageXObject size pages :
  (size <= PDFExtractor.MAX_FILE_SIZE)%N ->
  let text := join SPACE (flat_map pageWords pages) in
  let images := existsb (paintsImage paintImageXObject) pages in
  PDFExtractor.extractText paintImageXObject size (PDFExtractor.Loaded pages) =
  if (length text <? 10)%nat
  then inl (PDFExtractor.Failure
              (if images
               then ustr "This PDF appears to contain scanned images. Text extraction failed. The document may need OCR processing."
               else ustr "No readable text found in this PDF. The document may be corrupted or contain only images."))
  else inr {| PDFExtractor.text := text;
              PDFExtractor.pageCount := length pages;
              PDFExtractor.hasImages := images |}.
Proof.
  intros Hsize. cbv zeta. unfold PDFExtractor.extractText.
  destruct (N.ltb_spec PDFExtractor.MAX_FILE_SIZE size) as [H|_]; [lia|].
  rewrite readPage_fold. cbn [app orb].
  rewrite cleanText_cleanWords, cleanWords_pageLines.
  change PDFExtractor.MIN_TEXT_LENGTH with 10%nat.
  destruct (length (join SPACE (flat_map pageWords pages)) <? 10)%nat; [|reflexivity].
  destruct (existsb (paintsImage paintImageXObject) pages); reflexivity.
Qed.

Lemma extractText_loaded_witness :
  PDFExtractor.extractText 85 1000 (PDFExtractor.Loaded threePages) =
  inr {| PDFExtractor.text := ustr "Plagiarism detection compares documents";
         PDFExtractor.pageCount := 3;
         PDFExtractor.hasImages := true |}.
Proof.
  apply (extractText_loaded 85 1000 threePages). vm_compute. discriminate.
Defined.

(** ** A text that is already kept *)

Section Duplicates.
Local Open Scope Z_scope.

Lemma submissionSimilarity_duplicate content results kept :
  In kept results -> DetectionResult.content kept = content ->
  getSignificantWords content <> [] ->
  submissionSimilarity content results = Int 100.
Proof.
  intros Hin Hc Hw. unfold submissionSimilarity.
  destruct results as [|r rest]; [destruct Hin|].
  cbn [length Nat.ltb Nat.leb map].
  destruct (Math_max_greatest
              (calculateSimilarity content (DetectionResult.content r))
              (map (fun result => calculateSimilarity content (DetectionResult.content result))
                   rest)) as (best & E & Hbest & Hmax).
  rewrite E. f_equal.
  assert (Hle : best <= 100).
  { destruct Hbest as [<- | Hbest]; [apply calculateSimilarity_range|].
    apply in_map_iff in Hbest as (x & <- & _). apply calculateSimilarity_range. }
  assert (Hge : 100 <= best).
  { rewrite <- (calculateSimilarity_self content Hw). apply Hmax.
    change (In (calculateSimilarity content content)
               (map (fun result => calculateSimilarity content (DetectionResult.content result))
                    (r :: rest))).
    apply in_map_iff. exists kept. now rewrite Hc. }
  lia.
Qed.

Lemma findDetailedMatches_duplicate content results kept sentence :
  In kept results -> DetectionResult.content kept = content ->
  In sentence (extractSentences content) -> getSignificantWords sentence <> [] ->
  exists m rest,
    findDetailedMatches content results = m :: rest /\ MatchedSentence.similarity m = 100.
Proof.
  intros Hin Hc Hs Hw.
  set (m0 := {| MatchedSentence.sentence := displayed sentence;
                MatchedSentence.similarity := calculateSentenceSimilarity sentence sentence;
                MatchedSentence.sourceFile := DetectionResult.fileName kept |}).
  assert (H0 : In m0 (collectMatches content results)).
  { apply collectMatches_In. exists kept, sentence, sentence. rewrite Hc.
    split; [exact Hin|]. split; [exact Hs|]. split; [exact Hs|].
    split; [|reflexivity].
    rewrite (calculateSentenceSimilarity_self sentence Hw). lia. }
  destruct (sort_Ranked (collectMatches content results)) as (Hperm & Hdesc & _).
  assert (Hsorted : In m0 (sort bySimilarity (collectMatches content results))).
  { eapply Permutation_in; [symmetry; exact Hperm | exact H0]. }
  unfold findDetailedMatches, slice0.
  destruct (sort bySimilarity (collectMatches content results)) as [|m rest] eqn:E;
    [destruct Hsorted|].
  exists m, (firstn 4 rest). split; [reflexivity|].
  assert (Hle : MatchedSentence.similarity m <= 100).
  { assert (Hm : In m (collectMatches content results)).
    { eapply Permutation_in; [exact Hperm | now left]. }
    apply collectMatches_In in Hm as (r & s & e & _ & _ & _ & _ & ->).
    apply calculateSentenceSimilarity_range. }
  assert (Hge : 100 <= MatchedSentence.similarity m).
  { rewrite <- (calculateSentenceSimilarity_self sentence Hw).
    change (calculateSentenceSimilarity sentence sentence)
      with (MatchedSentence.similarity m0).
    destruct Hsorted as [-> | Hrest]; [lia|].
    unfold nonIncreasing, descending in Hdesc.
    apply StronglySorted_inv in Hdesc as [_ Hall].
    rewrite List.Forall_forall in Hall. now apply Hall. }
  lia.
Qed.

(** X21: a text that is uploaded again is flagged.  When a kept
    result has the same content and the content has a significant word,
    the new result has a similarity of 100; and when a sentence of the
    content has a significant word, its first match has a similarity of
    100 as well. *)
Theorem duplicate_upload id name type content pageCount now results kept :
  In kept results -> DetectionResult.content kept = content ->
  (50 <= length content)%nat ->
  getSignificantWords content <> [] ->
  exists r,
    App.handleFileUpload id name type content pageCount now results
    = Accepted (r :: results) /\
    DetectionResult.similarity r = Int 100 /\
    forall sentence,
      In sentence (extractSentences content) -> getSignificantWords sentence <> [] ->
      exists m rest,
        DetectionResult.matches r = m :: rest /\ MatchedSentence.similarity m = 100.
Proof.
  intros Hin Hc Hlen Hw. unfold App.handleFileUpload.
  destruct (Nat.ltb_spec (length content) 50) as [H|_]; [lia|].
  eexists. split; [reflexivity|]. cbn [DetectionResult.similarity DetectionResult.matches].
  split.
  - now apply (submissionSimilarity_duplicate content results kept).
  - intros sentence Hs Hsw.
    now apply (findDetailedMatches_duplicate content results kept sentence).
Qed.

Lemma duplicate_upload_witness :
  exists r,
    App.handleFileUpload (str "2") (str "copy.txt") (str "text/plain") climate None 2
                         [document (str "doc1") climate]
    = Accepted (r :: [document (str "doc1") climate]) /\
    DetectionResult.similarity r = Int 100 /\
    forall sentence,
      In sentence (extractSentences climate) -> getSignificantWords sentence <> [] ->
      exists m rest,
        DetectionResult.matches r = m :: rest /\ MatchedSentence.similarity m = 100.
Proof.
  apply (duplicate_upload (str "2") (str "copy.txt") (str "text/plain") climate None 2
                          [document (str "doc1") climate] (document (str "doc1") climate)).
  - now left.
  - reflexivity.
  - vm_compute. lia.
  - vm_compute. discriminate.
Defined.

End Duplicates.

(** ** A word before a full stop *)

Section FullStop.

Lemma stopWords_short word : (7 <= length word)%nat -> isStopWord word = false.
Proof.
  intros Hlen. destruct (isStopWord word) eqn:E; [|reflexivity].
  unfold isStopWord in E. apply Set_has_In in E.
  assert (H : forallb (fun s : jsstring => (length s <=? 6)%nat) stopWords = true)
    by (vm_compute; reflexivity).
  rewrite forallb_forall in H. apply H in E. apply Nat.leb_le in E. lia.
Qed.

Lemma dropWhile_id p s :
  Forall (fun c => p c = false) s -> dropWhile p s = s.
Proof. intros H. destruct H as [|c rest Hc _]; [reflexivity|]. cbn. now rewrite Hc. Qed.

Lemma trim_id s : Forall (fun c => isWhiteSpace c = false) s -> trim s = s.
Proof.
  intros H. unfold trim, trimStart, trimEnd.
  rewrite (dropWhile_id _ s H), dropWhile_id; [apply rev_involutive|].
  now apply Forall_rev.
Qed.

Lemma lower_word_plain w :
  Forall (fun c => isLowerAsciiLetter c = true) w ->
  Forall (fun c => isWhiteSpace c = false) w /\
  Forall (fun c => isSentenceDelimiter c = false) w /\
  forallb isAsciiLetter w = true.
Proof.
  intros H. induction H as [|c rest Hc _ (IH1 & IH2 & IH3)];
    [repeat split; constructor|].
  assert (Hd : isSentenceDelimiter c = false).
  { revert Hc. destruct c as [[|] [|] [|] [|] [|] [|] [|] [|]]; vm_compute; congruence. }
  destruct (lower_letter_plain c Hc) as (Hl & _ & _ & Hw).
  repeat split; try (now constructor).
  cbn [forallb]. now rewrite Hl, IH3.
Qed.

Lemma getSignificantWords_lower_word w :
  (7 <= length w)%nat -> Forall (fun c => isLowerAsciiLetter c = true) w ->
  getSignificantWords w = [w].
Proof.
  intros Hlen Hw. destruct (lower_word_plain w Hw) as (Hws & _ & Hletters).
  rewrite getSignificantWords_words.
  rewrite (words_word isWhiteSpace w)
    by (split; [destruct w; [cbn in Hlen; lia | discriminate] | exact Hws]).
  cbn [map List.filter]. rewrite (toLowerCase_lower w Hw).
  rewrite (stopWords_short w Hlen). unfold testAlphabetic. rewrite Hletters.
  destruct (Nat.leb_spec MIN_WORD_LENGTH (length w)) as [_|H];
    [|unfold MIN_WORD_LENGTH in H; lia].
  destruct (Nat.eqb_spec (length w) 0); [lia | reflexivity].
Qed.

Lemma getSignificantWords_full_stop w :
  w <> [] -> Forall (fun c => isLowerAsciiLetter c = true) w ->
  getSignificantWords (w ++ str ".") = [].
Proof.
  intros Hne Hw. destruct (lower_word_plain w Hw) as (Hws & _ & _).
  rewrite getSignificantWords_words.
  rewrite (words_word isWhiteSpace (w ++ str ".")).
  - cbn [map List.filter]. unfold toLowerCase. rewrite map_app.
    fold (toLowerCase w). rewrite (toLowerCase_lower w Hw).
    unfold testAlphabetic. rewrite forallb_app.
    change (forallb isAsciiLetter (map toLowerUnit (str "."))) with false.
    now rewrite !andb_false_r.
  - split; [destruct w; [congruence | discriminate]|].
    apply Forall_app. split; [exact Hws | repeat constructor].
Qed.

Lemma extractSentences_full_stop w :
  (15 <= length w)%nat -> Forall (fun c => isLowerAsciiLetter c = true) w ->
  extractSentences (w ++ str ".") = [w].
Proof.
  intros Hlen Hw. destruct (lower_word_plain w Hw) as (Hws & Hd & _).
  rewrite extractSentences_words.
  change (w ++ str ".") with (w ++ "."%char :: []).
  rewrite (words_app_separator isSentenceDelimiter w "."%char [] eq_refl).
  rewrite (words_word isSentenceDelimiter w)
    by (split; [destruct w; [cbn in Hlen; lia | discriminate] | exact Hd]).
  cbn [app map List.filter Words.words]. rewrite (trim_id w Hws).
  destruct (Nat.leb_spec MIN_SENTENCE_LENGTH (length w)) as [_|H];
    [reflexivity | unfold MIN_SENTENCE_LENGTH in H; lia].
Qed.

(** X22: the word before a full stop counts in its sentence and not
    in the text.  For a text made of one word of fifteen lower-case
    letters or more and a full stop, the text has no significant word, so
    its similarity with itself is 0; yet its sentence is the word, and
    against a document with the same text it is matched with a similarity
    of 100. *)
Theorem word_before_full_stop w name :
  (15 <= length w)%nat -> Forall (fun c => isLowerAsciiLetter c = true) w ->
  let text := w ++ str "." in
  getSignificantWords text = [] /\
  calculateSimilarity text text = 0%Z /\
  extractSentences text = [w] /\
  findDetailedMatches text [document name text]
  = [ {| MatchedSentence.sentence := displayed w;
         MatchedSentence.similarity := 100;
         MatchedSentence.sourceFile := name |} ].
Proof.
  intros Hlen Hw. cbv zeta.
  assert (Hne : w <> []) by (destruct w; [cbn in Hlen; lia | discriminate]).
  pose proof (getSignificantWords_full_stop w Hne Hw) as Hnone.
  pose proof (extractSentences_full_stop w Hlen Hw) as Hsentence.
  split; [exact Hnone|]. split; [|split; [exact Hsentence|]].
  - unfold calculateSimilarity. now rewrite Hnone.
  - unfold findDetailedMatches. rewrite collectMatches_candidates.
    unfold candidatesCorpusFirst, document. cbn [flat_map DetectionResult.content app].
    rewrite Hsentence. cbn [flat_map app]. unfold candidate.
    rewrite calculateSentenceSimilarity_self
      by (rewrite getSignificantWords_lower_word by (exact Hw || lia); discriminate).
    reflexivity.
Qed.

Lemma word_before_full_stop_witness :
  getSignificantWords (str "internationalization.") = [] /\
  calculateSimilarity (str "internationalization.") (str "internationalization.") = 0%Z /\
  extractSentences (str "internationalization.") = [str "internationalization"] /\
  findDetailedMatches (str "internationalization.")
                      [document (str "doc1") (str "internationalization.")]
  = [ {| MatchedSentence.sentence := displayed (str "internationalization");
         MatchedSentence.similarity := 100;
         MatchedSentence.sourceFile := str "doc1" |} ].
Proof.
  apply (word_before_full_stop (str "internationalization") (str "doc1")).
  - vm_compute. lia.
  - repeat constructor.
Defined.

End FullStop.

(** ** Witnesses of the uploads *)

Lemma upload_text_file_witness :
  Component.error (Component.handleFileUpload 85 (str "1") 1 (Some note) Component.initial)
  = None /\
  exists r,
    Component.results (Component.handleFileUpload 85 (str "1") 1 (Some note) Component.initial)
    = r :: Component.results Component.initial /\
    DetectionResult.content r
    = str "Climate change is a pressing global issue that requires action." /\
    DetectionResult.pageCount r = None.
Proof.
  exact (upload_text_file 85 (str "1") 1 note Component.initial eq_refl).
Defined.

Lemma delete_after_upload_witness :
  Component.results
    (Component.deleteResult (str "1")
       (Component.handleFileUpload 85 (str "1") 1 (Some note) Component.initial))
  = Component.results Component.initial.
Proof.
  apply (delete_after_upload 85 (str "1") 1 note Component.initial). constructor.
Defined.

(** ** The corpus and the similarity of a submission *)

Section Corpus.
Local Open Scope Z_scope.

(** X23: the similarity of a submission never goes down when the
    corpus grows: against a corpus that holds every document of another
    one it is at least what it is against the other; so it does not
    depend on the order of the corpus. *)
Theorem similarity_grows_with_corpus content results results' :
  (forall r, In r results -> In r results') ->
  exists a b,
    submissionSimilarity content results = Int a /\
    submissionSimilarity content results' = Int b /\
    0 <= a <= b /\ b <= 100.
Proof.
  intros Hincl.
  destruct (submissionSimilarity_range content results') as (b & Eb & Hb).
  destruct results as [|r rest].
  - exists 0, b. repeat split; [exact Eb | lia | lia | lia].
  - destruct results' as [|r' rest']; [destruct (Hincl r (or_introl eq_refl))|].
    unfold submissionSimilarity in *. cbn [length Nat.ltb Nat.leb map] in *.
    destruct (Math_max_greatest
                (calculateSimilarity content (DetectionResult.content r))
                (map (fun result => calculateSimilarity content (DetectionResult.content result))
                     rest)) as (a & Ea & Ha & _).
    destruct (Math_max_greatest
                (calculateSimilarity content (DetectionResult.content r'))
                (map (fun result => calculateSimilarity content (DetectionResult.content result))
                     rest')) as (b' & Eb' & _ & Hmax).
    rewrite Eb' in Eb. injection Eb as ->.
    exists a, b. split; [exact Ea|]. split; [exact Eb'|].
    change (In a (map (fun result => calculateSimilarity content (DetectionResult.content result))
                      (r :: rest))) in Ha.
    apply in_map_iff in Ha as (x & <- & Hx).
    pose proof (calculateSimilarity_range content (DetectionResult.content x)).
    assert (calculateSimilarity content (DetectionResult.content x) <= b).
    { apply Hmax.
      change (In (calculateSimilarity content (DetectionResult.content x))
                 (map (fun result => calculateSimilarity content (DetectionResult.content result))
                      (r' :: rest'))).
      apply in_map_iff. exists x. split; [reflexivity | now apply Hincl]. }
    lia.
Qed.

Lemma similarity_grows_with_corpus_witness :
  exists a b,
    submissionSimilarity climate [document (str "doc1") twoSentences] = Int a /\
    submissionSimilarity climate
      [document (str "doc2") climate; document (str "doc1") twoSentences] = Int b /\
    0 <= a <= b /\ b <= 100.
Proof.
  apply similarity_grows_with_corpus.
  intros r [<- | []]. right. now left.
Defined.

End Corpus.
